(** * Custodial wallet back end: ledger, deposit indexer, withdrawal batcher

    A shallow embedding of the value-movement code of the wallet service
    (db/leveldb.ts, db/models.ts, blockchain/indexer.ts,
    blockchain/transaction.ts, blockchain/batchProcessor.ts,
    blockchain/wallet.ts and the transfer route) together with the
    properties its design document states about it.

    Conventions of the model.

    - Money.  Every stored amount is a two-decimal string produced by
      [toFixed(2)]; the model keeps the number of hundredths as a [Z]
      ("5.00" is [500]).  On such values [parseFloat] and [toFixed(2)] are
      inverse to each other and the additions and subtractions of the
      source are exact, so both are the identity here.  Strings that do not
      denote a two-decimal number are outside the model.
    - Store.  [Database] is a LevelDB instance behind an LRU cache.  The
      cache keeps object references, so an object returned by [db.get] is
      the cached object itself and an assignment to one of its fields is
      visible to the next [db.get] of that key whether or not the object
      was written back.  The model keeps [disk] and [cache] apart and
      writes such an assignment as an update of the cache entry.  Cache
      eviction (10000 entries, five minutes) is not modelled.
    - Failures.  A LevelDB write can be rejected.  The world carries the
      outcomes of the coming write attempts ([faults], [true] = rejected);
      when the list is exhausted writes succeed.  Reads do not fail.
    - Chain.  RPC calls are answered by a [Chain] record that is fixed for
      the duration of one task run.
    - Logging and the WebSocket broadcast do not influence the store and
      are left out of the tasks; the notifier is modelled on its own
      (services/websocket.ts, further down). *)

From stdpp Require Import base numbers option list strings gmap pretty sorting.
From Stdlib Require Import ZArith Lia.

Local Open Scope Z_scope.

(** ** Records of db/models.ts *)

Record Account := mkAccount {
  acc_username : string;
  acc_address : string;
  acc_encryptedPrivateKey : string;
  acc_timestamp : Z
}.

Record Balance := mkBalance {
  bal_username : string;
  bal_blockchain : string;
  bal_currency : string;
  bal_amount : Z;
  bal_frozenAmount : Z
}.

Inductive DepositStatus :=
  | pending | confirming | confirmed | credited | failed.

Record Deposit := mkDeposit {
  dep_id : string;
  dep_username : string;
  dep_blockchain : string;
  dep_currency : string;
  dep_amount : Z;
  dep_txHash : string;
  dep_fromAddress : string;
  dep_toAddress : string;
  dep_status : DepositStatus;
  dep_confirmations : option Z;        (* None: NaN (null once stored) *)
  dep_requiredConfirmations : Z;
  dep_timestamp : Z;
  dep_retries : option Z
}.

Inductive WithdrawalStatus :=
  | created | added_to_bucket | processing | completed | wd_failed.

Record Withdrawal := mkWithdrawal {
  wd_id : string;
  wd_username : string;
  wd_blockchain : string;
  wd_currency : string;
  wd_amount : Z;
  wd_toAddress : string;
  wd_status : WithdrawalStatus;
  wd_bucketId : option string;
  wd_txHash : option string;
  wd_timestamp : Z
}.

Record Bucket := mkBucket {
  bk_id : string;
  bk_blockchain : string;
  bk_currency : string;
  bk_createdAt : Z;
  bk_expiresAt : Z;
  bk_withdrawalIds : list string
}.

(** A transaction of a fetched block, as far as the indexer looks at it. *)
Record Tx := mkTx {
  tx_hash : string;
  tx_from : option string;
  tx_to : option string;
  tx_value : Z;
  tx_data : string
}.

Record BlockCache := mkBlockCache {
  bc_id : string;
  bc_blockchain : string;
  bc_blockNumber : Z;
  bc_blockData : list Tx;
  bc_timestamp : Z;
  bc_expiresAt : Z
}.

(** What a key of the store can hold ([Level<string, any>]). *)
Inductive Value :=
  | VAccount (a : Account)
  | VBalance (b : Balance)
  | VDeposit (d : Deposit)
  | VWithdrawal (w : Withdrawal)
  | VBucket (b : Bucket)
  | VBlock (b : BlockCache)
  | VNum (n : Z)          (* a block number kept as a decimal string *)
  | VStr (s : string).

Global Instance DepositStatus_eq_dec : EqDecision DepositStatus.
Proof. solve_decision. Defined.
Global Instance WithdrawalStatus_eq_dec : EqDecision WithdrawalStatus.
Proof. solve_decision. Defined.

(** ** Errors

    The source throws [Error] objects and later looks at their message;
    the model names the messages it distinguishes. *)
Inductive Error :=
  | NegativeAmount          (* "Negative amount not allowed ..." *)
  | NegativeFrozen          (* "Negative frozen amount not allowed ..." *)
  | InsufficientAvailable   (* "Insufficient available balance to freeze ..." *)
  | InsufficientBalance     (* "Insufficient balance: ..." *)
  | InsufficientAfterGas    (* "Insufficient funds after gas: ..." *)
  | InsufficientLiquidity   (* "Insufficient ... liquidity in hot wallet ..." *)
  | AccountNotFound         (* "Account not found" *)
  | TypeError               (* property access on undefined *)
  | StoreError              (* rejected LevelDB write *)
  | ChainError.             (* any failed or reverted RPC interaction *)

Global Instance Error_eq_dec : EqDecision Error.
Proof. solve_decision. Defined.

Inductive Result (A : Type) :=
  | Ok (a : A)
  | Throw (e : Error).
Arguments Ok {A} a.
Arguments Throw {A} e.

(** ** The world a task runs in *)

Inductive JournalEntry :=
  | JPut (key : string) (v : Value)
  | JDel (key : string).

Record World := mkWorld {
  disk : gmap string Value;              (* LevelDB *)
  cache : gmap string Value;             (* LRU cache of Database *)
  journal : list JournalEntry;           (* committed writes, oldest first;
                                            history only, never read *)
  faults : list bool;                    (* outcomes of the coming writes *)
  now : Z;                               (* Date.now() *)
  random : list Z;                       (* bytes randomBytes will return *)
  activeAddresses : gset string;         (* IndexerService *)
  processedTransactions : gset string;   (* IndexerService *)
  pendingQueues : gmap string (gset string);
  gasFundingTxs : gset string;           (* TransactionService *)
  processingBuckets : gset string        (* BatchProcessorService *)
}.

Definition set_disk (f : gmap string Value → gmap string Value) (w : World) :=
  mkWorld (f (disk w)) (cache w) (journal w) (faults w) (now w) (random w)
    (activeAddresses w) (processedTransactions w) (pendingQueues w)
    (gasFundingTxs w) (processingBuckets w).
Definition set_cache (f : gmap string Value → gmap string Value) (w : World) :=
  mkWorld (disk w) (f (cache w)) (journal w) (faults w) (now w) (random w)
    (activeAddresses w) (processedTransactions w) (pendingQueues w)
    (gasFundingTxs w) (processingBuckets w).
Definition set_journal (f : list JournalEntry → list JournalEntry) (w : World) :=
  mkWorld (disk w) (cache w) (f (journal w)) (faults w) (now w) (random w)
    (activeAddresses w) (processedTransactions w) (pendingQueues w)
    (gasFundingTxs w) (processingBuckets w).
Definition set_faults (f : list bool → list bool) (w : World) :=
  mkWorld (disk w) (cache w) (journal w) (f (faults w)) (now w) (random w)
    (activeAddresses w) (processedTransactions w) (pendingQueues w)
    (gasFundingTxs w) (processingBuckets w).
Definition set_now (f : Z → Z) (w : World) :=
  mkWorld (disk w) (cache w) (journal w) (faults w) (f (now w)) (random w)
    (activeAddresses w) (processedTransactions w) (pendingQueues w)
    (gasFundingTxs w) (processingBuckets w).
Definition set_random (f : list Z → list Z) (w : World) :=
  mkWorld (disk w) (cache w) (journal w) (faults w) (now w) (f (random w))
    (activeAddresses w) (processedTransactions w) (pendingQueues w)
    (gasFundingTxs w) (processingBuckets w).
Definition set_activeAddresses (f : gset string → gset string) (w : World) :=
  mkWorld (disk w) (cache w) (journal w) (faults w) (now w) (random w)
    (f (activeAddresses w)) (processedTransactions w) (pendingQueues w)
    (gasFundingTxs w) (processingBuckets w).
Definition set_processedTransactions (f : gset string → gset string) (w : World) :=
  mkWorld (disk w) (cache w) (journal w) (faults w) (now w) (random w)
    (activeAddresses w) (f (processedTransactions w)) (pendingQueues w)
    (gasFundingTxs w) (processingBuckets w).
Definition set_pendingQueues
    (f : gmap string (gset string) → gmap string (gset string)) (w : World) :=
  mkWorld (disk w) (cache w) (journal w) (faults w) (now w) (random w)
    (activeAddresses w) (processedTransactions w) (f (pendingQueues w))
    (gasFundingTxs w) (processingBuckets w).
Definition set_gasFundingTxs (f : gset string → gset string) (w : World) :=
  mkWorld (disk w) (cache w) (journal w) (faults w) (now w) (random w)
    (activeAddresses w) (processedTransactions w) (pendingQueues w)
    (f (gasFundingTxs w)) (processingBuckets w).
Definition set_processingBuckets (f : gset string → gset string) (w : World) :=
  mkWorld (disk w) (cache w) (journal w) (faults w) (now w) (random w)
    (activeAddresses w) (processedTransactions w) (pendingQueues w)
    (gasFundingTxs w) (f (processingBuckets w)).

Definition emptyWorld : World :=
  mkWorld ∅ ∅ [] [] 0 [] ∅ ∅ ∅ ∅ ∅.

(** ** The task monad: state and exceptions *)

Definition M (A : Type) : Type := World → Result A * World.

Definition ret {A} (a : A) : M A := λ w, (Ok a, w).
Definition throw {A} (e : Error) : M A := λ w, (Throw e, w).
Definition bind {A B} (m : M A) (k : A → M B) : M B :=
  λ w, match m w with
       | (Ok a, w') => k a w'
       | (Throw e, w') => (Throw e, w')
       end.
(** [try { m } catch (err) { h err }] *)
Definition try_catch {A} (m : M A) (h : Error → M A) : M A :=
  λ w, match m w with
       | (Ok a, w') => (Ok a, w')
       | (Throw e, w') => h e w'
       end.
(** [try { m } finally { f }]: [f] runs on both exits; an exception of
    [f] replaces the outcome of [m]. *)
Definition try_finally {A} (m : M A) (f : M unit) : M A :=
  λ w, match m w with
       | (r, w') => match f w' with
                    | (Ok _, w'') => (r, w'')
                    | (Throw e, w'') => (Throw e, w'')
                    end
       end.
(** [await Promise.all([a, b])]: both calls are made; the first rejection,
    if any, is the outcome. *)
Definition promise_all2 (a b : M unit) : M unit :=
  λ w, match a w with
       | (ra, w') => match b w' with
                     | (rb, w'') =>
                         (match ra with Throw e => Throw e | Ok _ => rb end, w'')
                     end
       end.
Definition modify (f : World → World) : M unit := λ w, (Ok tt, f w).
Definition gets {A} (f : World → A) : M A := λ w, (Ok (f w), w).
Definition lift {A} (r : Result A) : M A := λ w, (r, w).

Notation "'let*' x ':=' m 'in' k" := (bind m (λ x, k))
  (at level 10, x name, m at level 100, k at level 200).
Notation "m ';;' k" := (bind m (λ _, k))
  (at level 100, k at level 200, right associativity).

(** [await Promise.all(xs.map(f))] for calls that only read. *)
Fixpoint map_m {A B} (f : A → M B) (xs : list A) : M (list B) :=
  match xs with
  | [] => ret []
  | x :: xs' => let* y := f x in let* ys := map_m f xs' in ret (y :: ys)
  end.

(** [for (const x of xs) { body x }] *)
Fixpoint for_each {A} (xs : list A) (body : A → M unit) : M unit :=
  match xs with
  | [] => ret tt
  | x :: xs' => body x ;; for_each xs' body
  end.

(** ** db/leveldb.ts: class Database *)
Module db.

(** One LevelDB write attempt: consult the fault schedule. *)
Definition attempt : M unit := λ w,
  match faults w with
  | true :: fs => (Throw StoreError, set_faults (λ _, fs) w)
  | false :: fs => (Ok tt, set_faults (λ _, fs) w)
  | [] => (Ok tt, w)
  end.

Definition get (key : string) : M (option Value) := λ w,
  match cache w !! key with
  | Some v => (Ok (Some v), w)
  | None =>
      match disk w !! key with
      | Some v => (Ok (Some v), set_cache (insert key v) w)
      | None => (Ok None, w)            (* LEVEL_NOT_FOUND *)
      end
  end.

Definition put (key : string) (value : Value) : M unit :=
  attempt ;;
  modify (λ w, set_journal (λ j, j ++ [JPut key value])
                 (set_cache (insert key value)
                    (set_disk (insert key value) w))).

Definition del (key : string) : M unit :=
  attempt ;;
  modify (λ w, set_journal (λ j, j ++ [JDel key])
                 (set_cache (delete key) (set_disk (delete key) w))).

(** [db.iterator(prefix)]: the entries of LevelDB (not of the cache)
    whose key starts with the prefix, as fresh objects. The source gets
    them in key order; here they come in the order of the map's
    enumeration, and the callers below search or sort them. *)
Definition iterator (prefix : string) : M (list (string * Value)) :=
  gets (λ w, filter (λ kv, String.prefix prefix kv.1 = true) (map_to_list (disk w))).

End db.

(** ** config/networks.ts *)

Record TokenConfig := mkTokenConfig {
  tok_address : string;
  tok_decimals : Z;
  tok_min_withdrawal : Z;      (* hundredths *)
  tok_max_withdrawal : Z;
  tok_withdrawal_fee : Z;
  tok_min_deposit_wei : Z      (* min_deposit in the token's smallest unit *)
}.

Record NetworkConfig := mkNetworkConfig {
  chainId : Z;
  nativeCurrency : string;
  requiredConfirmations : Z;
  min_withdrawal : Z;
  max_withdrawal : Z;
  withdrawal_fee : Z;
  min_deposit_wei : Z;
  withdrawal_processor_contract_address : string;
  erc20Tokens : gmap string TokenConfig
}.

Definition networks : gmap string NetworkConfig :=
  {[ "mind" :=
       mkNetworkConfig 9996 "MIND" 10 100 1000000 100 (10 ^ 15)
         "0xe95b5c7B1bfFe1D1796e58Cb18da7D76100d6020"
         {[ "USDT" := mkTokenConfig "0x32a8a2052b48Da5FD253cC8B386B88B3E0BF50eE"
                        18 100 1000000 100 (10 ^ 15);
            "MUSD" := mkTokenConfig "0xaC264f337b2780b9fd277cd9C9B2149B43F87904"
                        18 100 1000000 100 (10 ^ 15) ]} ]}.

(** [networks[name]] followed by a property access: a missing network is
    a [TypeError]. *)
Definition network_config (name : string) : M NetworkConfig :=
  match networks !! name with
  | Some cfg => ret cfg
  | None => throw TypeError
  end.

(** ** db/models.ts *)

Module AccountModel.
Definition key (username : string) : string := "account:" +:+ username.
Global Arguments key : simpl never.

Definition create (account : Account) : M unit :=
  db.put (key (acc_username account)) (VAccount account).

Definition findByUsername (username : string) : M (option Account) :=
  let* v := db.get (key username) in
  ret (match v with Some (VAccount a) => Some a | _ => None end).

Definition accountsOf (entries : list (string * Value)) : list Account :=
  omap (λ kv, match kv.2 with VAccount a => Some a | _ => None end) entries.
End AccountModel.

Module BalanceModel.
Definition key (username blockchain currency : string) : string :=
  "balance:" +:+ username +:+ ":" +:+ blockchain +:+ ":" +:+ currency.
Global Arguments key : simpl never.

Definition getBalance (username blockchain currency : string) : M Balance :=
  let* v := db.get (key username blockchain currency) in
  ret (match v with
       | Some (VBalance b) => b
       | _ => mkBalance username blockchain currency 0 0
       end).

Definition updateBalance (balance : Balance) : M unit :=
  let key := key (bal_username balance) (bal_blockchain balance)
               (bal_currency balance) in
  let parsedAmount := bal_amount balance in
  let parsedFrozenAmount := bal_frozenAmount balance in
  if parsedAmount <? 0 then throw NegativeAmount
  else if parsedFrozenAmount <? 0 then throw NegativeFrozen
  else db.put key
         (VBalance (mkBalance (bal_username balance) (bal_blockchain balance)
                      (bal_currency balance) parsedAmount parsedFrozenAmount)).

Definition freezeBalance (username blockchain currency : string)
    (amountToFreeze : Z) : M unit :=
  let* balance := getBalance username blockchain currency in
  let available := bal_amount balance in
  let frozen := bal_frozenAmount balance in
  let amount := amountToFreeze in
  if available <? amount then throw InsufficientAvailable
  else
    let newBalance :=
      mkBalance username blockchain currency
        (available - amount) (frozen + amount) in
    updateBalance newBalance.

Definition unfreezeBalance (username blockchain currency : string)
    (amountToUnfreeze : Z) : M unit :=
  let* balance := getBalance username blockchain currency in
  let frozen := bal_frozenAmount balance in
  let amount := amountToUnfreeze in
  if frozen <? amount then ret tt     (* logger.warn(...); return *)
  else
    let newBalance :=
      mkBalance username blockchain currency
        (bal_amount balance + amount) (frozen - amount) in
    updateBalance newBalance.
End BalanceModel.

Module DepositModel.
Definition key (id : string) : string := "deposit:" +:+ id.
Global Arguments key : simpl never.
Definition create (deposit : Deposit) : M unit :=
  db.put (key (dep_id deposit)) (VDeposit deposit).
Definition update (deposit : Deposit) : M unit :=
  db.put (key (dep_id deposit)) (VDeposit deposit).
Definition findById (id : string) : M (option Deposit) :=
  let* v := db.get (key id) in
  ret (match v with Some (VDeposit d) => Some d | _ => None end).
End DepositModel.

Module WithdrawalModel.
Definition key (id : string) : string := "withdrawal:" +:+ id.
Global Arguments key : simpl never.
Definition create (withdrawal : Withdrawal) : M unit :=
  db.put (key (wd_id withdrawal)) (VWithdrawal withdrawal).
Definition update (withdrawal : Withdrawal) : M unit :=
  db.put (key (wd_id withdrawal)) (VWithdrawal withdrawal).
Definition findById (id : string) : M (option Withdrawal) :=
  let* v := db.get (key id) in
  ret (match v with Some (VWithdrawal x) => Some x | _ => None end).
End WithdrawalModel.

Module BucketModel.
Definition key (id : string) : string := "bucket:" +:+ id.
Global Arguments key : simpl never.
Definition create (bucket : Bucket) : M unit :=
  db.put (key (bk_id bucket)) (VBucket bucket).
Definition update (bucket : Bucket) : M unit :=
  db.put (key (bk_id bucket)) (VBucket bucket).
Definition findById (id : string) : M (option Bucket) :=
  let* v := db.get (key id) in
  ret (match v with Some (VBucket x) => Some x | _ => None end).
End BucketModel.

Module BlockCacheModel.
Definition key (id : string) : string := "blockCache:" +:+ id.
Global Arguments key : simpl never.
Definition create (blockCache : BlockCache) : M unit :=
  db.put (key (bc_id blockCache)) (VBlock blockCache).
Definition findById (id : string) : M (option BlockCache) :=
  let* v := db.get (key id) in
  ret (match v with Some (VBlock x) => Some x | _ => None end).
Definition delete (id : string) : M unit :=
  db.del (key id).

(** [.sort((a, b) => a.blockNumber - b.blockNumber)], a stable sort. *)
Fixpoint insertByNumber (b : BlockCache) (bs : list BlockCache) : list BlockCache :=
  match bs with
  | [] => [b]
  | b' :: bs' =>
      if bc_blockNumber b <? bc_blockNumber b' then b :: b' :: bs'
      else b' :: insertByNumber b bs'
  end.
Definition sortByNumber (bs : list BlockCache) : list BlockCache :=
  foldr insertByNumber [] bs.

Definition getByBlockchain (blockchain : string) : M (list BlockCache) :=
  let* blocks := db.iterator ("blockCache:" +:+ blockchain +:+ ":") in
  let* t := gets now in
  ret (sortByNumber
         (filter (λ b, t < bc_expiresAt b)
            (omap (λ kv, match kv.2 with VBlock b => Some b | _ => None end)
               blocks))).
End BlockCacheModel.

(** ** The chain adapter

    Answers of the RPC endpoint during one task run.  The three
    [Result string] fields stand for a whole signed submission (gas
    estimate, send, wait for the receipt) and give the transaction hash. *)
Record Chain := mkChain {
  getBlockNumber : Result Z;
  getBlockWithTransactions : Z → Result (list Tx);
  getBalance : string → Result Z;          (* wei *)
  hotWallet : string;                      (* address of the hot wallet *)
  getGasPrice : Result Z;
  sendFromAccount : Result string;         (* native sweep by the user's key *)
  fundGas : Result string;                 (* gas top-up by the hot wallet *)
  tokenTransfer : Result string;           (* token sweep by the user's key *)
  tokenBalanceOfHotWallet : Result Z;
  allowanceOfProcessor : Result Z;
  approve : Result unit;                   (* approve(...) and its receipt *)
  submitBatch : Result string;             (* processBatch*(...): the hash *)
  waitBatch : Result Z                     (* tx.wait(): receipt.status *)
}.

(** ** Library functions

    node's [crypto], the [ethers] wallet derivation and
    [String.prototype.toLowerCase] are libraries; the development is
    parametric in them. Byte strings are lists of numbers. *)
Class Library := {
  sha256 : string → list Z;
  keccak256 : list Z → list Z;
  (* entropyToMnemonic followed by Wallet.fromMnemonic: private key, address *)
  walletFromEntropy : list Z → string * string;
  aesEncrypt : list Z → string → string;   (* iv, plain text *)
  aesDecrypt : string → Result string;
  toLowerCase : string → string
}.

(** [AccountModel.findByAddress] of db/models.ts (it needs
    [toLowerCase]). *)
Definition findByAddress `{Library} (address : string) : M (option Account) :=
  let* accounts := db.iterator "account:" in
  ret (head (filter (λ a, toLowerCase (acc_address a) = toLowerCase address)
               (AccountModel.accountsOf accounts))).

(** [randomBytes(n)]: the next [n] bytes of the random source. *)
Definition randomBytes (n : nat) : M (list Z) := λ w,
  (Ok (take n (random w ++ replicate n 0)), set_random (drop n) w).

(** utils/encryption.ts *)
Definition encrypt `{Library} (text : string) : M string :=
  let* iv := randomBytes 16 in
  ret (aesEncrypt iv text).

Definition decrypt `{Library} (encryptedText : string) : M string :=
  lift (aesDecrypt encryptedText).

(** ** blockchain/wallet.ts *)
Module WalletService.

(** [ethers.Wallet.createRandom({ extraEntropy })] (ethers 5.7): sixteen
    random bytes; with [extraEntropy] they are replaced by the first
    sixteen bytes of keccak256(random ++ extraEntropy); the wallet is
    derived from the result. *)
Definition createRandom `{Library} (extraEntropy : list Z) : M (string * string) :=
  let* entropy := randomBytes 16 in
  let entropy := take 16 (keccak256 (entropy ++ extraEntropy)) in
  ret (walletFromEntropy entropy).

Definition generateAccount `{Library} (username : string)
    : M (string * string * Z) :=
  let* existingAccount := AccountModel.findByUsername username in
  match existingAccount with
  | Some existingAccount =>
      ret (acc_username existingAccount, acc_address existingAccount,
           acc_timestamp existingAccount)
  | None =>
      let hash := sha256 username in
      let entropy := hash in
      let* wallet := createRandom entropy in
      let* encryptedPrivateKey := encrypt (fst wallet) in
      let* timestamp := gets now in
      let account := mkAccount username (snd wallet) encryptedPrivateKey timestamp in
      AccountModel.create account ;;
      (* indexerService.addActiveAddress(wallet.address) *)
      modify (set_activeAddresses (λ s, {[ toLowerCase (snd wallet) ]} ∪ s)) ;;
      ret (username, snd wallet, acc_timestamp account)
  end.

Definition getPrivateKey `{Library} (username : string) : M string :=
  let* account := AccountModel.findByUsername username in
  match account with
  | None => throw AccountNotFound
  | Some account => decrypt (acc_encryptedPrivateKey account)
  end.
End WalletService.

(** ** blockchain/transaction.ts *)
Module TransactionService.

Definition gasFundingKey (txHash : string) : string := "gasFundingTx:" +:+ txHash.
Global Arguments gasFundingKey : simpl never.

(** Amounts are hundredths; [parseEther] and [parseUnits(_, decimals)]
    scale them to the smallest on-chain unit. *)
Definition parseUnits (amount : Z) (decimals : Z) : Z := amount * 10 ^ (decimals - 2).
Definition parseEther (amount : Z) : Z := parseUnits amount 18.

Definition transferToHotWallet `{Library} (ch : Chain) (deposit : Deposit) : M string :=
  let* networkConfig := network_config (dep_blockchain deposit) in
  let currency := dep_currency deposit in
  let isNative := bool_decide (currency = nativeCurrency networkConfig) in
  if isNative then
    let* _key := WalletService.getPrivateKey (dep_username deposit) in
    let* gasPrice := lift (getGasPrice ch) in
    let gasLimit := 21000 in
    let gasCost := gasPrice * gasLimit in
    let depositAmount := parseEther (dep_amount deposit) in
    let amountToTransfer := depositAmount - gasCost in
    (* up to five polls of the balance; the chain view is fixed during a
       run, so every poll reads the same value *)
    let* balance := lift (getBalance ch (dep_toAddress deposit)) in
    if balance <? depositAmount then throw InsufficientBalance
    else if amountToTransfer <=? 0 then throw InsufficientAfterGas
    else lift (sendFromAccount ch)
  else
    let tokenConfig := erc20Tokens networkConfig !! currency in
    let* balance := lift (getBalance ch (dep_toAddress deposit)) in
    let* gasPrice := lift (getGasPrice ch) in
    let gasLimit := 100000 in
    let gasCost := gasPrice * gasLimit in
    (if balance <? gasCost then
       let* gasTx := lift (fundGas ch) in
       modify (set_gasFundingTxs (λ s, {[ gasTx ]} ∪ s)) ;;
       db.put (gasFundingKey gasTx) (VStr (dep_id deposit))
     else ret tt) ;;
    let* _key := WalletService.getPrivateKey (dep_username deposit) in
    match tokenConfig with
    | None => throw TypeError              (* tokenConfig.address *)
    | Some tokenConfig => lift (tokenTransfer ch)
    end.

Definition isGasFundingTx (txHash : string) : M bool :=
  gets (λ w, bool_decide (txHash ∈ gasFundingTxs w)).

Definition cleanupGasFundingTx (txHash : string) : M unit :=
  let* has := isGasFundingTx txHash in
  if has then
    modify (set_gasFundingTxs (λ s, s ∖ {[ txHash ]})) ;;
    db.del (gasFundingKey txHash)
  else ret tt.
End TransactionService.

(** ** blockchain/indexer.ts *)
Module IndexerService.

Definition MAX_RETRIES : Z := 3.
Definition BLOCK_CACHE_TTL_MS : Z := 1000 * 60 * 60.
Definition RECOVERY_LOOKBACK_BLOCKS : Z := 1000.

Definition blockId (network : string) (blockNumber : Z) : string :=
  network +:+ ":" +:+ pretty blockNumber.
Definition lastProcessedKey (network : string) : string :=
  "lastProcessedBlock:" +:+ network.
Definition startBlockKey (txHash : string) : string :=
  "depositStartBlock:" +:+ txHash.
Global Arguments blockId : simpl never.
Global Arguments lastProcessedKey : simpl never.
Global Arguments startBlockKey : simpl never.

(** [parseInt(await db.get(key), 10)]: [None] is NaN. *)
Definition getNumber (key : string) : M (option Z) :=
  let* v := db.get key in
  ret (match v with Some (VNum n) => Some n | _ => None end).

(** A thrown provider or store error is logged and swallowed. *)
Definition processBlock (ch : Chain) (network : string) (blockNumber : Z) : M unit :=
  try_catch
    (let* block := lift (getBlockWithTransactions ch blockNumber) in
     let* t := gets now in
     let blockCache :=
       mkBlockCache (blockId network blockNumber) network blockNumber block
         t (t + BLOCK_CACHE_TTL_MS) in
     BlockCacheModel.create blockCache ;;
     db.put (lastProcessedKey network) (VNum blockNumber))
    (λ _, ret tt).

(** [for (let i = from; i <= to; i++)] as the list of its indices. *)
Definition range (from to : Z) : list Z :=
  map (λ k, from + Z.of_nat k) (seq 0 (Z.to_nat (to + 1 - from))).

(** One firing of the timer of [startBlockRecovery]. *)
Definition blockRecovery (ch : Chain) (network : string) : M unit :=
  try_catch
    (let* currentBlock := lift (getBlockNumber ch) in
     let* last := getNumber (lastProcessedKey network) in
     let lastProcessedBlock := default 0 last in
     let startBlock := Z.max (lastProcessedBlock - RECOVERY_LOOKBACK_BLOCKS) 0 in
     if currentBlock <=? lastProcessedBlock then ret tt
     else
       for_each (range startBlock currentBlock) (λ i,
         let* cached := BlockCacheModel.findById (blockId network i) in
         match cached with
         | Some _ => ret tt
         | None => processBlock ch network i
         end))
    (λ _, ret tt).

Definition queueKey (network currency : string) : string :=
  network +:+ ":" +:+ currency.
Global Arguments queueKey : simpl never.

(** [queue.has(txHash)] and [queue.add(txHash)] on
    [this.pendingQueues.get(queueKey)!] *)
Definition queueHas (qk txHash : string) : M bool := λ w,
  match pendingQueues w !! qk with
  | Some q => (Ok (bool_decide (txHash ∈ q)), w)
  | None => (Throw TypeError, w)
  end.
Definition queueAdd (qk txHash : string) : M unit := λ w,
  match pendingQueues w !! qk with
  | Some q => (Ok tt, set_pendingQueues (insert qk ({[ txHash ]} ∪ q)) w)
  | None => (Throw TypeError, w)
  end.

(** [parseFloat(formatUnits(value, decimals)).toFixed(2)]: the value in
    hundredths, rounded to the nearest. *)
Definition toHundredths (value decimals : Z) : Z :=
  (value + 5 * 10 ^ (decimals - 3)) / 10 ^ (decimals - 2).

(** The native case of [queueTransaction] (no [erc20Value], no
    [currency]). *)
Definition queueTransaction `{Library} (tx : Tx) (blockNumber : Z)
    (network toAddress : string) : M unit :=
  let* account := findByAddress toAddress in
  match account with
  | None => ret tt
  | Some account =>
      let* networkConfig := network_config network in
      let currencyName := nativeCurrency networkConfig in
      if tx_value tx <? min_deposit_wei networkConfig then ret tt
      else
        let* t := gets now in
        let deposit :=
          mkDeposit (tx_hash tx) (acc_username account) network currencyName
            (toHundredths (tx_value tx) 18) (tx_hash tx)
            (default "" (tx_from tx)) toAddress pending (Some 1)
            (requiredConfirmations networkConfig) t (Some 0) in
        DepositModel.create deposit ;;
        queueAdd (queueKey network currencyName) (tx_hash tx) ;;
        db.put (startBlockKey (tx_hash tx)) (VNum blockNumber)
  end.

(** [this.queueTransaction(...)] pushed onto [promises]: the call runs,
    its rejection is kept for [Promise.all]. *)
Definition pushed (m : M unit) : M (option Error) :=
  λ w, match m w with
       | (Ok _, w') => (Ok None, w')
       | (Throw e, w') => (Ok (Some e), w')
       end.

(** One firing of the timer of [startBlockProcessor]. *)
Definition blockProcessor `{Library} (ch : Chain) (network : string) : M unit :=
  try_catch
    (let* blocks := BlockCacheModel.getByBlockchain network in
     let* currentBlock := lift (getBlockNumber ch) in
     let* networkConfig := network_config network in
     let nativeCurrency := nativeCurrency networkConfig in
     for_each blocks (λ blockCache,
       if currentBlock - requiredConfirmations networkConfig
            <? bc_blockNumber blockCache
       then ret tt                                      (* continue *)
       else
         let* rejections :=
           map_m (λ tx,
               match tx_to tx, tx_from tx with
               | Some to, Some _ =>
                   let* active := gets (λ w, bool_decide
                                         (toLowerCase to ∈ activeAddresses w)) in
                   let* processed := gets (λ w, bool_decide
                                         (tx_hash tx ∈ processedTransactions w)) in
                   if active && negb processed then
                     let* queued := queueHas (queueKey network nativeCurrency)
                                      (tx_hash tx) in
                     let* gas := gets (λ w, bool_decide (tx_hash tx ∈ gasFundingTxs w)) in
                     if negb queued && negb gas && bool_decide (tx_data tx = "0x")
                     then
                       let* account := findByAddress to in
                       match account with
                       | Some _ =>
                           pushed (queueTransaction tx (bc_blockNumber blockCache)
                                     network to)
                       | None => ret None
                       end
                     else ret None
                   else ret None
               | _, _ => ret None
               end)
             (bc_blockData blockCache) in
         (* await Promise.all(promises) *)
         match omap id rejections with
         | e :: _ => throw e
         | [] => BlockCacheModel.delete (bc_id blockCache)
         end))
    (λ _, ret tt).

(** A call that is not awaited: its rejection is not seen by the caller. *)
Definition detached (m : M unit) : M unit :=
  λ w, match m w with (_, w') => (Ok tt, w') end.

(** [queue.delete(txHash)] on [this.pendingQueues.get(queueKey)!] *)
Definition queueDelete (qk txHash : string) : M unit := λ w,
  match pendingQueues w !! qk with
  | Some q => (Ok tt, set_pendingQueues (insert qk (q ∖ {[ txHash ]})) w)
  | None => (Throw TypeError, w)
  end.

(** The four lines that retire a deposit id:
    [queue.delete], [processedTransactions.add], the start-block
    deletion and the (not awaited) gas-funding clean-up. *)
Definition retire (qk txHash : string) : M unit :=
  queueDelete qk txHash ;;
  modify (set_processedTransactions (λ s, {[ txHash ]} ∪ s)) ;;
  db.del (startBlockKey txHash) ;;
  detached (TransactionService.cleanupGasFundingTx txHash).

(** An assignment to a field of the deposit object obtained from
    [DepositModel.findById txHash]: the object is the cache entry. *)
Definition assign (txHash : string) (deposit : Deposit) : M unit :=
  modify (set_cache (insert (DepositModel.key txHash) (VDeposit deposit))).

Definition with_status (s : DepositStatus) (d : Deposit) : Deposit :=
  mkDeposit (dep_id d) (dep_username d) (dep_blockchain d) (dep_currency d)
    (dep_amount d) (dep_txHash d) (dep_fromAddress d) (dep_toAddress d)
    s (dep_confirmations d) (dep_requiredConfirmations d) (dep_timestamp d)
    (dep_retries d).
Definition with_confirmations (c : option Z) (d : Deposit) : Deposit :=
  mkDeposit (dep_id d) (dep_username d) (dep_blockchain d) (dep_currency d)
    (dep_amount d) (dep_txHash d) (dep_fromAddress d) (dep_toAddress d)
    (dep_status d) c (dep_requiredConfirmations d) (dep_timestamp d)
    (dep_retries d).
Definition with_retries (r : Z) (d : Deposit) : Deposit :=
  mkDeposit (dep_id d) (dep_username d) (dep_blockchain d) (dep_currency d)
    (dep_amount d) (dep_txHash d) (dep_fromAddress d) (dep_toAddress d)
    (dep_status d) (dep_confirmations d) (dep_requiredConfirmations d)
    (dep_timestamp d) (Some r).

(** Number comparisons with a possibly-NaN left operand. *)
Definition geNaN (c : option Z) (r : Z) : bool :=
  match c with Some c => r <=? c | None => false end.
Definition neNaN (c d : option Z) : bool :=
  match c, d with
  | Some c, Some d => negb (c =? d)
  | _, _ => true
  end.

(** The ledger credit inside [processDeposit]. *)
Definition credit (deposit : Deposit) : M unit :=
  let* balance := BalanceModel.getBalance (dep_username deposit)
                    (dep_blockchain deposit) (dep_currency deposit) in
  let currentAmount := bal_amount balance in
  let depositAmount := dep_amount deposit in
  let newBalance :=
    mkBalance (dep_username deposit) (dep_blockchain deposit)
      (dep_currency deposit) (currentAmount + depositAmount)
      (bal_frozenAmount balance) in
  BalanceModel.updateBalance newBalance.

Definition processDeposit `{Library} (ch : Chain) (txHash network currency : string)
    : M unit :=
  let qk := queueKey network currency in
  try_catch
    (let* found := DepositModel.findById txHash in
     match found with
     | None => retire qk txHash
     | Some deposit =>
         let* networkConfig := network_config network in
         let* currentBlock := lift (getBlockNumber ch) in
         let* startBlock := getNumber (startBlockKey txHash) in
         let confirmations := (λ s, currentBlock - s + 1) <$> startBlock in
         let* deposit :=
           if geNaN confirmations (requiredConfirmations networkConfig)
              && negb (bool_decide (dep_status deposit = confirmed))
           then
             let deposit := with_confirmations confirmations
                              (with_status confirmed deposit) in
             assign txHash deposit ;;
             DepositModel.update deposit ;;
             let* transferTxHash :=
               TransactionService.transferToHotWallet ch deposit in
             let deposit := with_retries 0 (with_status credited deposit) in
             assign txHash deposit ;;
             credit deposit ;;
             DepositModel.update deposit ;;
             ret deposit
           else if neNaN confirmations (dep_confirmations deposit) then
             let deposit :=
               with_status confirming
                 (with_confirmations
                    ((λ c, Z.min c (requiredConfirmations networkConfig))
                       <$> confirmations) deposit) in
             assign txHash deposit ;;
             DepositModel.update deposit ;;
             ret deposit
           else ret deposit in
         if bool_decide (dep_status deposit = credited)
            || bool_decide (dep_status deposit = failed)
         then retire qk txHash
         else ret tt
     end)
    (λ err,
       let* found := DepositModel.findById txHash in
       match found with
       | None => retire qk txHash
       | Some deposit =>
           if bool_decide (err = InsufficientBalance)
              || bool_decide (err = InsufficientAfterGas)
           then
             let deposit := with_retries (default 0 (dep_retries deposit))
                              (with_status failed deposit) in
             assign txHash deposit ;;
             DepositModel.update deposit ;;
             retire qk txHash
           else
             let retries := default 0 (dep_retries deposit) + 1 in
             if MAX_RETRIES <? retries then
               let deposit := with_retries retries (with_status failed deposit) in
               assign txHash deposit ;;
               DepositModel.update deposit ;;
               retire qk txHash
             else
               let deposit := with_retries retries deposit in
               assign txHash deposit ;;
               DepositModel.update deposit
               (* then the task sleeps 3000 * retries ms *)
       end).

End IndexerService.

(** ** blockchain/batchProcessor.ts *)
Module BatchProcessorService.

Definition BUCKET_DURATION_MS : Z := 1 * 60 * 1000.

Definition bucketIdAt (blockchain currency : string) (time : Z) : string :=
  blockchain +:+ ":" +:+ currency +:+ ":" +:+ pretty (time / BUCKET_DURATION_MS).
Global Arguments bucketIdAt : simpl never.

Definition with_ids (ids : list string) (b : Bucket) : Bucket :=
  mkBucket (bk_id b) (bk_blockchain b) (bk_currency b) (bk_createdAt b)
    (bk_expiresAt b) ids.
Definition with_status (s : WithdrawalStatus) (x : Withdrawal) : Withdrawal :=
  mkWithdrawal (wd_id x) (wd_username x) (wd_blockchain x) (wd_currency x)
    (wd_amount x) (wd_toAddress x) s (wd_bucketId x) (wd_txHash x)
    (wd_timestamp x).
Definition with_bucketId (b : string) (x : Withdrawal) : Withdrawal :=
  mkWithdrawal (wd_id x) (wd_username x) (wd_blockchain x) (wd_currency x)
    (wd_amount x) (wd_toAddress x) (wd_status x) (Some b) (wd_txHash x)
    (wd_timestamp x).
Definition with_txHash (h : string) (x : Withdrawal) : Withdrawal :=
  mkWithdrawal (wd_id x) (wd_username x) (wd_blockchain x) (wd_currency x)
    (wd_amount x) (wd_toAddress x) (wd_status x) (wd_bucketId x) (Some h)
    (wd_timestamp x).

(** The timer set by [scheduleBucketProcessing] fires [processBucket]
    later; setting it changes nothing in the world. *)
Definition scheduleBucketProcessing (bucket : Bucket) : M unit := ret tt.

(** [withdrawal] is the object the route has just stored, [bucket] the
    cached or the fresh bucket object; both are cache entries and the
    assignments below are seen through the cache. *)
Definition addToBucket (withdrawal : Withdrawal) : M Bucket :=
  let* currentTime := gets now in
  let bucketId :=
    bucketIdAt (wd_blockchain withdrawal) (wd_currency withdrawal) currentTime in
  let* found := BucketModel.findById bucketId in
  let* bucket :=
    match found with
    | Some b =>
        if bk_expiresAt b <=? currentTime then
          let b' := mkBucket bucketId (wd_blockchain withdrawal)
                      (wd_currency withdrawal) currentTime
                      (currentTime + BUCKET_DURATION_MS) [] in
          BucketModel.create b' ;; scheduleBucketProcessing b' ;; ret b'
        else ret b
    | None =>
        let b' := mkBucket bucketId (wd_blockchain withdrawal)
                    (wd_currency withdrawal) currentTime
                    (currentTime + BUCKET_DURATION_MS) [] in
        BucketModel.create b' ;; scheduleBucketProcessing b' ;; ret b'
    end in
  let bucket := with_ids (bk_withdrawalIds bucket ++ [wd_id withdrawal]) bucket in
  modify (set_cache (insert (BucketModel.key bucketId) (VBucket bucket))) ;;
  let withdrawal := with_status added_to_bucket (with_bucketId bucketId withdrawal) in
  modify (set_cache (insert (WithdrawalModel.key (wd_id withdrawal))
                       (VWithdrawal withdrawal))) ;;
  promise_all2 (BucketModel.update bucket) (WithdrawalModel.update withdrawal) ;;
  ret bucket.

(** The withdrawal object behind an element of [validWithdrawals]. *)
Definition deref (id : string) : M Withdrawal := λ w,
  match cache w !! WithdrawalModel.key id with
  | Some (VWithdrawal x) => (Ok x, w)
  | _ => (Throw TypeError, w)
  end.
Definition assign (id : string) (x : Withdrawal) : M unit :=
  modify (set_cache (insert (WithdrawalModel.key id) (VWithdrawal x))).

Definition decimalsOf (networkConfig : NetworkConfig) (currency : string) : M Z :=
  if bool_decide (currency = nativeCurrency networkConfig) then ret 18
  else match erc20Tokens networkConfig !! currency with
       | Some t => ret (tok_decimals t)
       | None => throw TypeError
       end.

(** The compensation loop of the [catch] clause and of a receipt whose
    status is not 1. *)
Definition failAndUnfreeze (fee : Z) (id : string) : M unit :=
  let* x := deref id in
  let totalReserved := wd_amount x + fee in
  let x := with_status wd_failed x in
  assign id x ;;
  BalanceModel.unfreezeBalance (wd_username x) (wd_blockchain x)
    (wd_currency x) totalReserved ;;
  WithdrawalModel.update x.

(** The settlement of one withdrawal after a receipt of status 1. *)
Definition settle (fee : Z) (txHash : string) (id : string) : M unit :=
  let* x := deref id in
  let totalReserved := wd_amount x + fee in
  let x := with_txHash txHash (with_status completed x) in
  assign id x ;;
  let* balance := BalanceModel.getBalance (wd_username x) (wd_blockchain x)
                    (wd_currency x) in
  let newBalance :=
    mkBalance (wd_username x) (wd_blockchain x) (wd_currency x)
      (bal_amount balance) (bal_frozenAmount balance - totalReserved) in
  promise_all2 (BalanceModel.updateBalance newBalance) (WithdrawalModel.update x).

Definition submit (ch : Chain) (networkConfig : NetworkConfig) (bucket : Bucket)
    (amounts : list Z) : M string :=
  let isNative := bool_decide (bk_currency bucket = nativeCurrency networkConfig) in
  let totalAmount := foldl Z.add 0 amounts in
  if isNative then
    let* hotWalletBalance := lift (getBalance ch (hotWallet ch)) in
    if hotWalletBalance <? totalAmount then throw InsufficientLiquidity
    else lift (submitBatch ch)
  else
    match erc20Tokens networkConfig !! bk_currency bucket with
    | None => throw TypeError
    | Some tokenConfig =>
        let* hotWalletTokenBalance := lift (tokenBalanceOfHotWallet ch) in
        if hotWalletTokenBalance <? totalAmount then throw InsufficientLiquidity
        else
          let* currentAllowance := lift (allowanceOfProcessor ch) in
          (if currentAllowance <? totalAmount then lift (approve ch) else ret tt) ;;
          lift (submitBatch ch)
    end.

Definition processBucket (ch : Chain) (bucketId : string) : M unit :=
  let* busy := gets (λ w, bool_decide (bucketId ∈ processingBuckets w)) in
  if busy then ret tt
  else
    modify (set_processingBuckets (λ s, {[ bucketId ]} ∪ s)) ;;
    try_finally
      (try_catch
         (let* found := BucketModel.findById bucketId in
          match found with
          | None => ret tt
          | Some bucket =>
              let* withdrawals :=
                map_m (λ id, let* x := WithdrawalModel.findById id in ret (id, x))
                  (bk_withdrawalIds bucket) in
              let validWithdrawals :=
                omap (λ p, match snd p with
                           | Some x =>
                               if bool_decide (wd_status x = added_to_bucket)
                               then Some (fst p) else None
                           | None => None
                           end) withdrawals in
              match validWithdrawals with
              | [] => BucketModel.update (with_ids [] bucket)
              | _ =>
                  let* networkConfig := network_config (bk_blockchain bucket) in
                  let* amounts :=
                    map_m (λ id,
                        let* x := deref id in
                        let x := with_status processing x in
                        assign id x ;;
                        WithdrawalModel.update x ;;
                        let* decimals := decimalsOf networkConfig (wd_currency x) in
                        ret (TransactionService.parseUnits (wd_amount x) decimals))
                      validWithdrawals in
                  let* gasPrice := lift (getGasPrice ch) in
                  try_finally
                    (try_catch
                       (let* txHash := submit ch networkConfig bucket amounts in
                        let* status := lift (waitBatch ch) in
                        let fee := withdrawal_fee networkConfig in
                        for_each validWithdrawals (λ id,
                          if status =? 1 then settle fee txHash id
                          else failAndUnfreeze fee id))
                       (λ err,
                          let fee := withdrawal_fee networkConfig in
                          for_each validWithdrawals (failAndUnfreeze fee) ;;
                          throw err))
                    (BucketModel.update (with_ids [] bucket) ;;
                     let* t := gets now in
                     let newBucketId :=
                       bucketIdAt (bk_blockchain bucket) (bk_currency bucket) t in
                     if bool_decide (newBucketId ≠ bucketId) then
                       let newBucket :=
                         mkBucket newBucketId (bk_blockchain bucket)
                           (bk_currency bucket) t (t + BUCKET_DURATION_MS) [] in
                       BucketModel.create newBucket ;;
                       scheduleBucketProcessing newBucket
                     else ret tt)
              end
          end)
         (λ _, ret tt))
      (modify (set_processingBuckets (λ s, s ∖ {[ bucketId ]}))).

End BatchProcessorService.

(** ** api/routes: the transfer and the withdrawal request *)
Module routes.

Inductive Response :=
  | Json (message : string)      (* res.json(...) *)
  | Status (code : Z).           (* res.status(code).json({ error }) *)

(** The [try { ... } catch { res.status(500) }] frame of every handler. *)
Definition handler (m : M Response) : M Response :=
  try_catch m (λ _, ret (Status 500)).

(** POST /send_balance_to_user *)
Definition send_balance_to_user
    (username recipientUsername blockchain currency : string) (amount : Z)
    : M Response :=
  handler
    (let* sender := AccountModel.findByUsername username in
     match sender with
     | None => ret (Status 404)
     | Some _ =>
         let* recipient := AccountModel.findByUsername recipientUsername in
         match recipient with
         | None => ret (Status 404)
         | Some _ =>
             let* balance := BalanceModel.getBalance username blockchain currency in
             let available := bal_amount balance in
             let frozen := bal_frozenAmount balance in
             let parsedAmount := amount in
             if available <? parsedAmount then ret (Status 400)
             else
               let newBalance :=
                 mkBalance username blockchain currency
                   (available - parsedAmount) frozen in
               let* recipientBalance :=
                 BalanceModel.getBalance recipientUsername blockchain currency in
               let newRecipientBalance :=
                 mkBalance recipientUsername blockchain currency
                   (bal_amount recipientBalance + parsedAmount)
                   (bal_frozenAmount recipientBalance) in
               promise_all2
                 (BalanceModel.updateBalance newBalance)
                 (BalanceModel.updateBalance newRecipientBalance) ;;
               ret (Json "Transfer successful")
         end
     end).

(** POST /req_deposit (the withdrawal request); [id] is the identifier
    [uuidv4()] returns. *)
Definition req_deposit (id : string)
    (username blockchain currency : string) (amount : Z) (toAddress : string)
    : M Response :=
  handler
    (match networks !! blockchain with
     | None => ret (Status 400)
     | Some networkConfig =>
         let isNative := bool_decide (currency = nativeCurrency networkConfig) in
         let config :=
           if isNative
           then Some (min_withdrawal networkConfig, max_withdrawal networkConfig,
                      withdrawal_fee networkConfig)
           else (λ t, (tok_min_withdrawal t, tok_max_withdrawal t,
                       tok_withdrawal_fee t))
                  <$> erc20Tokens networkConfig !! currency in
         match config with
         | None => ret (Status 400)
         | Some (minWithdrawal, maxWithdrawal, fee) =>
             let parsedAmount := amount in
             if parsedAmount <=? 0 then ret (Status 400)
             else if parsedAmount <? minWithdrawal then ret (Status 400)
             else if maxWithdrawal <? parsedAmount then ret (Status 400)
             else
               let* balance := BalanceModel.getBalance username blockchain currency in
               let available := bal_amount balance in
               let required := parsedAmount + fee in
               if available <? required then ret (Status 400)
               else
                 BalanceModel.freezeBalance username blockchain currency required ;;
                 let* t := gets now in
                 let withdrawal :=
                   mkWithdrawal id username blockchain currency parsedAmount
                     toAddress created None None t in
                 WithdrawalModel.create withdrawal ;;
                 let* bucket := BatchProcessorService.addToBucket withdrawal in
                 ret (Json id)
         end
     end).

End routes.

(** ** Running a task *)

Definition exec {A} (m : M A) (w : World) : World := snd (m w).
Definition outcome {A} (m : M A) (w : World) : Result A := fst (m w).

(** The balance read by [BalanceModel.getBalance] in a world. *)
Definition balanceOf (w : World) (username blockchain currency : string) : Balance :=
  match outcome (BalanceModel.getBalance username blockchain currency) w with
  | Ok b => b
  | Throw _ => mkBalance username blockchain currency 0 0
  end.

(** The balance record LevelDB holds, if any. *)
Definition storedBalance (w : World) (username blockchain currency : string)
    : option Balance :=
  match disk w !! BalanceModel.key username blockchain currency with
  | Some (VBalance b) => Some b
  | _ => None
  end.

(** * Reasoning about the store *)

(** What [db.get key] returns in a world, and the world it leaves. *)
Definition view (w : World) (key : string) : option Value :=
  match cache w !! key with
  | Some v => Some v
  | None => disk w !! key
  end.
Definition warm (key : string) (w : World) : World :=
  match cache w !! key, disk w !! key with
  | None, Some v => set_cache (insert key v) w
  | _, _ => w
  end.
(** The world after a committed [db.put] and [db.del]. *)
Definition commit (key : string) (v : Value) (w : World) : World :=
  set_journal (λ j, j ++ [JPut key v])
    (set_cache (insert key v) (set_disk (insert key v) w)).
Definition commit_del (key : string) (w : World) : World :=
  set_journal (λ j, j ++ [JDel key])
    (set_cache (delete key) (set_disk (delete key) w)).

(** A world with a given schedule of write outcomes. *)
Definition with_faults (fs : list bool) (w : World) : World := set_faults (λ _, fs) w.

(** ** Invariants of the store *)

(** Every value held at a key of [K], on disk and in the cache,
    satisfies [φ]. *)
Definition store_inv (K : string → Prop) (φ : Value → Prop) (w : World) : Prop :=
  (∀ k v, K k → disk w !! k = Some v → φ v)
  ∧ (∀ k v, K k → cache w !! k = Some v → φ v).

Definition nonneg_value (v : Value) : Prop :=
  match v with
  | VBalance b => 0 ≤ bal_amount b ∧ 0 ≤ bal_frozenAmount b
  | _ => True
  end.
(** The ledger invariant: every balance record is non-negative. *)
Definition ledger_ok : World → Prop := store_inv (λ _, True) nonneg_value.

(** A task keeps a property of the world, whatever its outcome. *)
Definition preserves {A} (P : World → Prop) (m : M A) : Prop :=
  ∀ w, P w → P (exec m w).

(** ** Scenario worlds used in the examples below *)

Definition alice_mind (amount frozen : Z) : Balance :=
  mkBalance "alice" "mind" "MIND" amount frozen.
Definition bob_mind (amount frozen : Z) : Balance :=
  mkBalance "bob" "mind" "MIND" amount frozen.

(** Bob holds nothing available and 5.00 frozen. *)
Definition world_bob_frozen : World :=
  exec (BalanceModel.updateBalance (bob_mind 0 500)) emptyWorld.

(** ** Ledger operations and tasks, as a script *)

Inductive LedgerOp :=
  | OpCredit (deposit : Deposit)
  | OpFreeze (username blockchain currency : string) (amount : Z)
  | OpUnfreeze (username blockchain currency : string) (amount : Z)
  | OpSettle (fee : Z) (txHash id : string)
  | OpTransfer (username recipientUsername blockchain currency : string) (amount : Z)
  | OpUpdate (balance : Balance)
  | OpProcessDeposit (ch : Chain) (txHash network currency : string)
  | OpProcessBucket (ch : Chain) (bucketId : string)
  | OpWithdraw (id username blockchain currency : string) (amount : Z)
      (toAddress : string)
  | OpGenerateAccount (username : string).

(** One operation; a thrown error ends the operation, not the script. *)
Definition run_op `{Library} (op : LedgerOp) : M unit :=
  try_catch
    (match op with
     | OpCredit d => IndexerService.credit d
     | OpFreeze u c cur a => BalanceModel.freezeBalance u c cur a
     | OpUnfreeze u c cur a => BalanceModel.unfreezeBalance u c cur a
     | OpSettle fee h id => BatchProcessorService.settle fee h id
     | OpTransfer u r c cur a =>
         routes.send_balance_to_user u r c cur a ;; ret tt
     | OpUpdate b => BalanceModel.updateBalance b
     | OpProcessDeposit ch h n cur => IndexerService.processDeposit ch h n cur
     | OpProcessBucket ch id => BatchProcessorService.processBucket ch id
     | OpWithdraw id u c cur a to => routes.req_deposit id u c cur a to ;; ret tt
     | OpGenerateAccount u => WalletService.generateAccount u ;; ret tt
     end)
    (λ _, ret tt).

Definition run_ops `{Library} (ops : list LedgerOp) : M unit := for_each ops run_op.

(** The frozen amount read at a balance key. *)
Definition frozenAt (w : World) (key : string) : Z :=
  match view w key with
  | Some (VBalance b) => bal_frozenAmount b
  | _ => 0
  end.

(** Alice and Bob have accounts; Alice holds 10.00 MIND. *)
Definition world_alice_bob : World :=
  exec (AccountModel.create (mkAccount "alice" "0xA11CE" "iv:key-a" 1) ;;
        AccountModel.create (mkAccount "bob" "0xB0B" "iv:key-b" 2) ;;
        BalanceModel.updateBalance (alice_mind 1000 0))
    emptyWorld.

(** ** A stand-in for the cryptographic libraries

    Used where an example has to run [generateAccount]: the hash is the
    list of character codes, keccak256 is the identity and the wallet
    derived from an entropy prints it. *)
Definition toy_number (bytes : list Z) : Z := foldl (λ a b, a * 256 + b) 0 bytes.
Definition toy_codes (s : string) : list Z :=
  map (λ a, Z.of_N (Ascii.N_of_ascii a)) (String.list_ascii_of_string s).
Definition toy_library : Library :=
  {| sha256 := toy_codes;
     keccak256 := λ bytes, bytes;
     walletFromEntropy := λ e, ("priv" +:+ pretty (toy_number e),
                                "0x" +:+ pretty (toy_number e));
     aesEncrypt := λ iv text, pretty (toy_number iv) +:+ ":" +:+ text;
     aesDecrypt := λ s, Ok s;
     toLowerCase := λ s, s |}.

(** A fresh world whose random source will return the given bytes. *)
Definition world_random (bytes : list Z) : World := set_random (λ _, bytes) emptyWorld.

(** ** Observing deposits *)

(** The deposit record LevelDB holds for a transaction hash. *)
Definition storedDeposit (w : World) (txHash : string) : option Deposit :=
  match disk w !! DepositModel.key txHash with
  | Some (VDeposit d) => Some d
  | _ => None
  end.

Definition moved_on_value (v : Value) : Prop :=
  match v with
  | VDeposit d => dep_status d ≠ pending
  | _ => True
  end.
(** The record of [txHash], on disk and in the cache, is past [pending]. *)
Definition moved_on (txHash : string) : World → Prop :=
  store_inv (λ k, k = DepositModel.key txHash) moved_on_value.

(** A task establishes a fact about its result while keeping a property
    of the world. *)
Definition hoare {A} (P : World → Prop) (m : M A) (Q : A → Prop) : Prop :=
  ∀ w, P w → P (exec m w) ∧ ∀ a, outcome m w = Ok a → Q a.

(** Successive runs of the queue worker on one deposit; an error that
    escapes a run ends that run only. *)
Definition deposit_runs `{Library} (txHash network currency : string)
    (chains : list Chain) : M unit :=
  for_each chains (λ ch,
    IndexerService.detached
      (IndexerService.processDeposit ch txHash network currency)).

(** ** A native deposit of 5.00 MIND to Alice *)

Definition deposit_T1 : Deposit :=
  mkDeposit "0xT1" "alice" "mind" "MIND" 500 "0xT1" "0xB0B" "0xA11CE"
    pending (Some 1) 10 0 (Some 0).

(** Alice's account exists; the deposit was admitted in block 100. *)
Definition world_deposit : World :=
  exec (AccountModel.create (mkAccount "alice" "0xA11CE" "iv:key-a" 1) ;;
        DepositModel.create deposit_T1 ;;
        modify (set_pendingQueues (insert "mind:MIND" {[ "0xT1" ]})) ;;
        db.put (IndexerService.startBlockKey "0xT1") (VNum 100))
    emptyWorld.

(** A chain at a given head on which every call succeeds, and one on
    which the gas price cannot be fetched. *)
Definition chain_ok (head : Z) : Chain :=
  mkChain (Ok head) (λ _, Ok []) (λ _, Ok (10 ^ 21)) "0xH07" (Ok 1)
    (Ok "0xsweep") (Ok "0xgas") (Ok "0xtoken") (Ok (10 ^ 30)) (Ok (10 ^ 30))
    (Ok tt) (Ok "0xbatch") (Ok 1).
Definition chain_down (head : Z) : Chain :=
  mkChain (Ok head) (λ _, Ok []) (λ _, Ok (10 ^ 21)) "0xH07" (Throw ChainError)
    (Ok "0xsweep") (Ok "0xgas") (Ok "0xtoken") (Ok (10 ^ 30)) (Ok (10 ^ 30))
    (Ok tt) (Ok "0xbatch") (Ok 1).

(** ** Observing the history of a key *)

(** The values written to a key, oldest first. *)
Definition puts_at (key : string) (j : list JournalEntry) : list Value :=
  omap (λ e, match e with
             | JPut k v => if decide (k = key) then Some v else None
             | JDel _ => None
             end) j.

(** What is known of a key: the value on disk, the value read, and the
    values written so far. *)
Definition obs (w : World) (key : string) : option Value * option Value * list Value :=
  (disk w !! key, view w key, puts_at key (journal w)).

(** The deposit records written for a transaction hash, and the balance
    records written for an account, in the order of the writes. *)
Definition depositWrites (w : World) (txHash : string) : list Value :=
  puts_at (DepositModel.key txHash) (journal w).
Definition balanceWrites (w : World) (username blockchain currency : string)
    : list Value :=
  puts_at (BalanceModel.key username blockchain currency) (journal w).

(** A task run leaves the keys of [K] alone, rejects nothing and keeps
    the queues. *)
Definition framed (K : string → Prop) (w0 : World) (w : World) : Prop :=
  faults w = [] ∧ pendingQueues w = pendingQueues w0
  ∧ ∀ k, K k → obs w k = obs w0 k.

(** Keys other than the gas-funding markers. *)
Definition not_gas (k : string) : Prop := ∀ h, k ≠ TransactionService.gasFundingKey h.

(** The deposit record as [processDeposit] stores it when the threshold
    is reached, and as it stores it after the ledger credit. *)
Definition confirmed_record (confirmations : Z) (d : Deposit) : Deposit :=
  IndexerService.with_confirmations (Some confirmations)
    (IndexerService.with_status confirmed d).
Definition credited_record (confirmations : Z) (d : Deposit) : Deposit :=
  IndexerService.with_retries 0
    (IndexerService.with_status credited (confirmed_record confirmations d)).

(** ** Observing the block cache *)

Definition cachedBlock (w : World) (network : string) (i : Z) : option BlockCache :=
  match view w (BlockCacheModel.key (IndexerService.blockId network i)) with
  | Some (VBlock b) => Some b
  | _ => None
  end.
(** The resume point the recovery task reads. *)
Definition lastProcessed (w : World) (network : string) : Z :=
  default 0 (match view w (IndexerService.lastProcessedKey network) with
             | Some (VNum n) => Some n
             | _ => None
             end).
(** How often a block has been ingested (cached) so far. *)
Definition ingestions (w : World) (network : string) (i : Z) : nat :=
  length (puts_at (BlockCacheModel.key (IndexerService.blockId network i)) (journal w)).

(** A task leaves one key as it was. *)
Definition keeps (key : string) (w0 : World) (w : World) : Prop := obs w key = obs w0 key.

(** Block 50 was ingested and, at head 60, scanned by the block processor,
    which deleted its cache entry; then block 100 was ingested. *)
Definition world_scanned : World :=
  exec (IndexerService.processBlock (chain_ok 50) "mind" 50 ;;
        @IndexerService.blockProcessor toy_library (chain_ok 60) "mind" ;;
        IndexerService.processBlock (chain_ok 100) "mind" 100)
    emptyWorld.

(** ** Withdrawals in a bucket *)

Definition storedWithdrawal (w : World) (id : string) : option Withdrawal :=
  match disk w !! WithdrawalModel.key id with
  | Some (VWithdrawal x) => Some x
  | _ => None
  end.

(** Alice holds 100.00 MIND and Bob 50.00. In the first minute Alice and
    Bob each request a withdrawal of 10.00 (fee 1.00, so 11.00 reserved
    each); both land in bucket [mind:MIND:0]. A minute later Alice
    requests another 10.00, which lands in bucket [mind:MIND:1]. *)
Definition world_withdrawals : World :=
  exec (BalanceModel.updateBalance (alice_mind 10000 0) ;;
        BalanceModel.updateBalance (bob_mind 5000 0) ;;
        routes.req_deposit "w1" "alice" "mind" "MIND" 1000 "0xD1" ;;
        routes.req_deposit "w2" "bob" "mind" "MIND" 1000 "0xD2" ;;
        modify (set_now (λ _, 60000)) ;;
        routes.req_deposit "w3" "alice" "mind" "MIND" 1000 "0xD3")
    emptyWorld.

(** * The rest of the service

    The functions of the same files that the design document does not
    single out: batches and ordered iteration of the store, the listing
    queries of db/models.ts, the start-up and polling tasks of the
    indexer, the read-only routes, the on-chain batch contract and the
    WebSocket notifier. *)

(** ** db/leveldb.ts: [batch], and iteration in key order *)
Module Database.

Inductive BatchOp :=
  | BPut (key : string) (value : Value)
  | BDel (key : string).

(** What a committed operation does to LevelDB and to the cache. *)
Definition apply (w : World) (op : BatchOp) : World :=
  match op with
  | BPut key value => commit key value w
  | BDel key => commit_del key w
  end.

(** [db.batch(operations)]: LevelDB takes the whole batch in one write;
    the cache is brought up to date afterwards, operation by operation. *)
Definition batch (operations : list BatchOp) : M unit :=
  db.attempt ;;
  modify (λ w, foldl apply w operations).

(** LevelDB hands out its entries in the byte order of their keys. *)
Definition keyLe (a b : string * Value) : Prop := String.leb a.1 b.1 = true.
Global Instance keyLe_dec a b : Decision (keyLe a b).
Proof. unfold keyLe. apply _. Defined.

(** [db.iterator(prefix)] with the entries in key order, for the callers
    whose answer depends on the order. *)
Definition iterator (prefix : string) : M (list (string * Value)) :=
  let* entries := db.iterator prefix in
  ret (merge_sort keyLe entries).

End Database.

(** ** db/models.ts: the listing queries and the cache clean-up

    The values kept under a prefix are the records the model classes
    store there; a value of another shape is never written under it and
    is skipped. *)
Module models.

Definition depositsOf (entries : list (string * Value)) : list Deposit :=
  omap (λ kv, match kv.2 with VDeposit d => Some d | _ => None end) entries.
Definition withdrawalsOf (entries : list (string * Value)) : list Withdrawal :=
  omap (λ kv, match kv.2 with VWithdrawal x => Some x | _ => None end) entries.
Definition bucketsOf (entries : list (string * Value)) : list Bucket :=
  omap (λ kv, match kv.2 with VBucket b => Some b | _ => None end) entries.
Definition blocksOf (entries : list (string * Value)) : list BlockCache :=
  omap (λ kv, match kv.2 with VBlock b => Some b | _ => None end) entries.
Definition balancesOf (entries : list (string * Value)) : list Balance :=
  omap (λ kv, match kv.2 with VBalance b => Some b | _ => None end) entries.

(** The status strings of the records. *)
Definition depositStatus (s : DepositStatus) : string :=
  match s with
  | pending => "pending" | confirming => "confirming" | confirmed => "confirmed"
  | credited => "credited" | failed => "failed"
  end.
Definition withdrawalStatus (s : WithdrawalStatus) : string :=
  match s with
  | created => "created" | added_to_bucket => "added_to_bucket"
  | processing => "processing" | completed => "completed" | wd_failed => "failed"
  end.

(** [!options.status || status === options.status] *)
Definition statusMatches (wanted : option string) (status : string) : bool :=
  match wanted with
  | None | Some "" => true
  | Some s => bool_decide (status = s)
  end.

(** [.sort((a, b) => b.timestamp - a.timestamp)]: newest first; the sort
    is stable, so records of equal timestamp keep their order. *)
Fixpoint insertNewestFirst {A} (timestamp : A → Z) (x : A) (ys : list A) : list A :=
  match ys with
  | [] => [x]
  | y :: ys' =>
      if timestamp x <? timestamp y then y :: insertNewestFirst timestamp x ys'
      else x :: y :: ys'
  end.
Definition sortNewestFirst {A} (timestamp : A → Z) (xs : list A) : list A :=
  foldr (insertNewestFirst timestamp) [] xs.

(** [Array.prototype.slice(start, end)]: a negative index counts from
    the end, an index beyond the array is clipped, NaN ([None]) is 0. *)
Definition toIndex (len i : Z) : Z :=
  if i <? 0 then Z.max (len + i) 0 else Z.min i len.
Definition slice {A} (start end_ : option Z) (xs : list A) : list A :=
  let len := Z.of_nat (length xs) in
  let k := toIndex len (default 0 start) in
  let final := toIndex len (default 0 end_) in
  take (Z.to_nat (final - k)) (drop (Z.to_nat k) xs).

(** [(page - 1) * limit] and [start + limit] on numbers that may be NaN. *)
Definition pageStart (page limit : option Z) : option Z :=
  match page, limit with
  | Some p, Some l => Some ((p - 1) * l)
  | _, _ => None
  end.
Definition pageEnd (page limit : option Z) : option Z :=
  match pageStart page limit, limit with
  | Some s, Some l => Some (s + l)
  | _, _ => None
  end.

(** [DepositModel.getAllByUsername(username, { page, limit, status })] *)
Definition DepositModel_getAllByUsername (username : string)
    (page limit : option Z) (status : option string) : M (list Deposit) :=
  let* deposits := Database.iterator "deposit:" in
  let filtered :=
    sortNewestFirst dep_timestamp
      (filter (λ d, dep_username d = username
                    ∧ statusMatches status (depositStatus (dep_status d)) = true)
         (depositsOf deposits)) in
  let start := pageStart page limit in
  ret (slice start (pageEnd page limit) filtered).

(** [WithdrawalModel.getAllByUsername(username, { page, limit, status })] *)
Definition WithdrawalModel_getAllByUsername (username : string)
    (page limit : option Z) (status : option string) : M (list Withdrawal) :=
  let* withdrawals := Database.iterator "withdrawal:" in
  let filtered :=
    sortNewestFirst wd_timestamp
      (filter (λ x, wd_username x = username
                    ∧ statusMatches status (withdrawalStatus (wd_status x)) = true)
         (withdrawalsOf withdrawals)) in
  let start := pageStart page limit in
  ret (slice start (pageEnd page limit) filtered).

(** [BucketModel.getActiveBuckets()] *)
Definition BucketModel_getActiveBuckets : M (list Bucket) :=
  let* buckets := Database.iterator "bucket:" in
  let* t := gets now in
  ret (filter (λ b, t < bk_expiresAt b) (bucketsOf buckets)).

(** [BlockCacheModel.cleanupExpired(blockchain)] *)
Definition BlockCacheModel_cleanupExpired (blockchain : string) : M unit :=
  let* blocks := Database.iterator ("blockCache:" +:+ blockchain +:+ ":") in
  let* now := gets now in
  let ops :=
    (λ b, Database.BDel (BlockCacheModel.key (bc_id b)))
      <$> filter (λ b, bc_expiresAt b ≤ now) (blocksOf blocks) in
  if 0 <? Z.of_nat (length ops) then Database.batch ops else ret tt.

(** [BalanceModel.getAllBalances(username)]: by blockchain and currency,
    the available and the frozen amount. Every configured currency starts
    at zero; the stored records are laid over that in key order. *)
Definition zeroBalances : gmap string (gmap string (Z * Z)) :=
  (λ config,
     ((λ _, (0, 0)) <$> erc20Tokens config) ∪ {[ nativeCurrency config := (0, 0) ]})
    <$> networks.
Definition layBalance (result : gmap string (gmap string (Z * Z))) (balance : Balance)
    : gmap string (gmap string (Z * Z)) :=
  <[ bal_blockchain balance :=
       <[ bal_currency balance := (bal_amount balance, bal_frozenAmount balance) ]>
         (default ∅ (result !! bal_blockchain balance)) ]> result.
Definition BalanceModel_getAllBalances (username : string)
    : M (gmap string (gmap string (Z * Z))) :=
  let* balances := Database.iterator ("balance:" +:+ username +:+ ":") in
  ret (foldl layBalance zeroBalances (balancesOf balances)).

End models.

(** ** blockchain/indexer.ts: start-up and the HTTP polling fallback *)
Module Indexer.

(** [indexerService.addActiveAddress(address)] *)
Definition addActiveAddress `{Library} (address : string) : M unit :=
  modify (set_activeAddresses (λ s, {[ toLowerCase address ]} ∪ s)).

(** [initialize()], as far as the world is concerned: the addresses of
    the stored accounts are put on the watch list (then the listeners and
    the timers are installed). *)
Definition initialize `{Library} : M unit :=
  let* accounts := db.iterator "account:" in
  for_each (AccountModel.accountsOf accounts) (λ a,
    modify (set_activeAddresses (λ s, {[ toLowerCase (acc_address a) ]} ∪ s))).

(** One firing of the timer of [startHttpPolling]. [wsOpen] tells whether
    the WebSocket provider is connected; [lastBlockNumber] is the cursor
    the timer keeps between firings, and the result is its new value. *)
Definition httpPolling (ch : Chain) (wsOpen : bool) (network : string)
    (lastBlockNumber : Z) : M Z :=
  try_catch
    (if wsOpen then ret lastBlockNumber
     else
       let* currentBlock := lift (getBlockNumber ch) in
       if lastBlockNumber <? currentBlock then
         for_each (IndexerService.range (lastBlockNumber + 1) currentBlock)
           (λ blockNumber, IndexerService.processBlock ch network blockNumber) ;;
         ret currentBlock
       else ret lastBlockNumber)
    (λ _, ret lastBlockNumber).

(** One firing of the timer of [startBlockCleanup]. *)
Definition blockCleanup (network : string) : M unit :=
  try_catch (models.BlockCacheModel_cleanupExpired network) (λ _, ret tt).

End Indexer.

(** ** Observing the store *)

(** A script of store operations; a rejected write ends the operation,
    not the script. *)
Inductive StoreOp :=
  | SGet (key : string)
  | SPut (key : string) (value : Value)
  | SDel (key : string)
  | SBatch (operations : list Database.BatchOp)
  | SIterate (prefix : string).

Definition run_store (op : StoreOp) : M unit :=
  try_catch
    (match op with
     | SGet key => db.get key ;; ret tt
     | SPut key value => db.put key value
     | SDel key => db.del key
     | SBatch operations => Database.batch operations
     | SIterate prefix => Database.iterator prefix ;; ret tt
     end)
    (λ _, ret tt).

(** The cache holds nothing that LevelDB does not hold. *)
Definition coherent (w : World) : Prop :=
  ∀ k v, cache w !! k = Some v → disk w !! k = Some v.

(** Every block record lies under the key of its own id, where
    [BlockCacheModel.create] puts it. *)
Definition blocks_keyed (w : World) : Prop :=
  ∀ k b, disk w !! k = Some (VBlock b) → k = BlockCacheModel.key (bc_id b).

(** An entry of LevelDB is an expired block of a network at time [t]. *)
Definition expiredBlock (network : string) (t : Z) (kv : string * Value) : Prop :=
  String.prefix ("blockCache:" +:+ network +:+ ":") kv.1 = true
  ∧ match kv.2 with VBlock b => bc_expiresAt b ≤ t | _ => False end.
Global Instance expiredBlock_dec network t kv : Decision (expiredBlock network t kv).
Proof. unfold expiredBlock. destruct (kv.2); apply _. Defined.

(** The blocks the block processor is given for a network. *)
Definition liveBlocks (w : World) (network : string) : list BlockCache :=
  match outcome (BlockCacheModel.getByBlockchain network) w with
  | Ok blocks => blocks
  | Throw _ => []
  end.

(** Block 50 was ingested at time 0 and block 51 at time 2 000 000; it
    is now 4 000 000, so the cache entry of block 50 (kept for an hour)
    has expired and that of block 51 has not. *)
Definition world_two_blocks : World :=
  exec (IndexerService.processBlock (chain_ok 50) "mind" 50 ;;
        modify (set_now (λ _, 2000000)) ;;
        IndexerService.processBlock (chain_ok 51) "mind" 51 ;;
        modify (set_now (λ _, 4000000)))
    emptyWorld.

(** ** Observing the listing queries *)

(** One page of a user's deposit history, and of the withdrawal history. *)
Definition depositPage (w : World) (username : string) (status : option string)
    (page limit : option Z) : list Deposit :=
  match outcome (models.DepositModel_getAllByUsername username page limit status) w with
  | Ok ds => ds
  | Throw _ => []
  end.
Definition withdrawalPage (w : World) (username : string) (status : option string)
    (page limit : option Z) : list Withdrawal :=
  match outcome (models.WithdrawalModel_getAllByUsername username page limit status) w with
  | Ok xs => xs
  | Throw _ => []
  end.

(** ** api/routes: account and balance *)
Module api.

Inductive Reply (A : Type) :=
  | Body (a : A)           (* res.json(a) *)
  | Error (code : Z).      (* res.status(code).json({ error }) *)
Global Arguments Body {A} a.
Global Arguments Error {A} code.

(** The [try { ... } catch { res.status(500) }] frame of every handler. *)
Definition handler {A} (m : M (Reply A)) : M (Reply A) :=
  try_catch m (λ _, ret (Error 500)).

(** A request parameter that is present and not the empty string. *)
Definition given (p : option string) : option string :=
  match p with
  | Some "" | None => None
  | Some s => Some s
  end.

(** POST /generate_account; [username] is the request header. The body
    is the account (username, address, timestamp) and the message. *)
Definition generate_account `{Library} (username : option string)
    : M (Reply (string * string * Z * string)) :=
  handler
    (match given username with
     | None => ret (Error 400)
     | Some username =>
         let* existingAccount := AccountModel.findByUsername username in
         let* account := WalletService.generateAccount username in
         ret (Body (account,
                    match existingAccount with
                    | Some _ => "Existing account retrieved"
                    | None => "New account created"
                    end))
     end).

(** GET /get_balance *)
Definition get_balance (username : option string)
    : M (Reply (gmap string (gmap string (Z * Z)))) :=
  handler
    (match given username with
     | None => ret (Error 400)
     | Some username =>
         let* account := AccountModel.findByUsername username in
         match account with
         | None => ret (Error 404)
         | Some account =>
             let* balances := models.BalanceModel_getAllBalances (acc_username account) in
             ret (Body balances)
         end
     end).

(** GET /get_balance_by_currency; the body is username, blockchain,
    currency and the available amount. *)
Definition get_balance_by_currency (username blockchain currency : option string)
    : M (Reply (string * string * string * Z)) :=
  handler
    (match given username, given blockchain, given currency with
     | Some username, Some blockchain, Some currency =>
         let* account := AccountModel.findByUsername username in
         match account with
         | None => ret (Error 404)
         | Some account =>
             match networks !! blockchain with
             | None => ret (Error 400)
             | Some config =>
                 if bool_decide (erc20Tokens config !! currency = None)
                    && negb (bool_decide (currency = nativeCurrency config))
                 then ret (Error 400)
                 else
                   let* balance :=
                     BalanceModel.getBalance (acc_username account) blockchain currency in
                   ret (Body (username, blockchain, currency, bal_amount balance))
             end
         end
     | _, _, _ => ret (Error 400)
     end).

(** GET /get_withdraw_status_by_id *)
Definition get_withdraw_status_by_id (withdrawalId : string) : M (Reply Withdrawal) :=
  handler
    (let* withdrawal := WithdrawalModel.findById withdrawalId in
     match withdrawal with
     | None => ret (Error 404)
     | Some withdrawal => ret (Body withdrawal)
     end).

End api.

(** ** Observing the watch list *)

(** The address of every stored account is on the indexer's watch list. *)
Definition watched `{Library} (w : World) : Prop :=
  ∀ k a, String.prefix "account:" k = true → disk w !! k = Some (VAccount a) →
         toLowerCase (acc_address a) ∈ activeAddresses w.

(** The indexer starts; then accounts are requested. *)
Definition service `{Library} (requests : list (option string)) : M unit :=
  Indexer.initialize ;;
  for_each requests (λ username, api.generate_account username ;; ret tt).

(** ** Observing the withdrawal request *)

(** The limits POST /req_deposit applies to a currency of a blockchain:
    minimum, maximum and fee, in hundredths. *)
Definition withdrawalLimits (blockchain currency : string) : option (Z * Z * Z) :=
  match networks !! blockchain with
  | None => None
  | Some networkConfig =>
      if bool_decide (currency = nativeCurrency networkConfig)
      then Some (min_withdrawal networkConfig, max_withdrawal networkConfig,
                 withdrawal_fee networkConfig)
      else (λ t, (tok_min_withdrawal t, tok_max_withdrawal t, tok_withdrawal_fee t))
             <$> erc20Tokens networkConfig !! currency
  end.

(** A withdrawal request that the route turns down. *)
Definition turnedDown (w : World) (username blockchain currency : string) (amount : Z)
    : Prop :=
  match withdrawalLimits blockchain currency with
  | None => True
  | Some (minWithdrawal, maxWithdrawal, fee) =>
      amount ≤ 0 ∨ amount < minWithdrawal ∨ maxWithdrawal < amount
      ∨ bal_amount (balanceOf w username blockchain currency) < amount + fee
  end.

(** ** smart-contracts/BatchProcessor.sol

    The contract the batch processor submits a bucket to.  The state is
    the native balance of every address, in wei; a call yields the state
    it leaves, or reverts ([None]), in which case the state is as it was.
    A plain value transfer to an address succeeds or fails as the
    receiving address decides ([accepts]); the receiver does not call
    back into the contract.  Gas is not modelled. *)
Module BatchProcessor.

Definition MAX_UINT256 : Z := 2 ^ 256 - 1.

Record Env := mkEnv {
  this : string;                 (* address(this) *)
  owner : string;                (* msg.sender of the constructor *)
  accepts : string → bool;       (* does a value transfer to the address succeed *)
  tokenTransfer : string → string → Z → bool
                                 (* IERC20(token).transfer(to, amount) *)
}.

Definition balanceAt (s : gmap string Z) (a : string) : Z := default 0 (s !! a).

(** [value] wei leave [from] and arrive at [to]. *)
Definition move (from to : string) (value : Z) (s : gmap string Z) : gmap string Z :=
  let s := <[ from := balanceAt s from - value ]> s in
  <[ to := balanceAt s to + value ]> s.

(** [payable(to).call{value: value}("")] followed by [require(success)] *)
Definition send (env : Env) (to : string) (value : Z) (s : gmap string Z)
    : option (gmap string Z) :=
  if (balanceAt s (this env) <? value) || negb (accepts env to) then None
  else Some (move (this env) to value s).

(** The first loop: [require(amounts[i] > 0)] and the checked
    [totalAmount += amounts[i]]. *)
Fixpoint sumAmounts (amounts : list Z) (totalAmount : Z) : option Z :=
  match amounts with
  | [] => Some totalAmount
  | a :: rest =>
      if a <=? 0 then None
      else if MAX_UINT256 <? totalAmount + a then None
      else sumAmounts rest (totalAmount + a)
  end.

(** The second loop: one transfer per recipient. *)
Fixpoint payAll (env : Env) (recipients : list string) (amounts : list Z)
    (s : gmap string Z) : option (gmap string Z) :=
  match recipients, amounts with
  | r :: recipients', a :: amounts' =>
      match send env r a s with
      | None => None
      | Some s' => payAll env recipients' amounts' s'
      end
  | _, _ => Some s
  end.

(** [processBatchNative(recipients, amounts)] called by [sender] with
    [value] wei attached. *)
Definition processBatchNative (env : Env) (sender : string) (value : Z)
    (recipients : list string) (amounts : list Z) (s : gmap string Z)
    : option (gmap string Z) :=
  if balanceAt s sender <? value then None
  else
    let s := move sender (this env) value s in
    if negb (length recipients =? length amounts)%nat then None
    else if (length recipients =? 0)%nat then None
    else
      match sumAmounts amounts 0 with
      | None => None
      | Some totalAmount =>
          if value <? totalAmount then None
          else payAll env recipients amounts s
      end.

(** [withdraw(token, amount)] called by [sender]; [token] is [None] for
    [address(0)]. *)
Definition withdraw (env : Env) (sender : string) (token : option string) (amount : Z)
    (s : gmap string Z) : option (gmap string Z) :=
  if negb (bool_decide (sender = owner env)) then None
  else if amount <=? 0 then None
  else
    match token with
    | None => send env (owner env) amount s
    | Some token =>
        if tokenTransfer env token (owner env) amount then Some s else None
    end.

(** What an address is paid by a batch, and the total of a batch. *)
Fixpoint received (a : string) (recipients : list string) (amounts : list Z) : Z :=
  match recipients, amounts with
  | r :: recipients', x :: amounts' =>
      (if bool_decide (r = a) then x else 0) + received a recipients' amounts'
  | _, _ => 0
  end.
Definition total (amounts : list Z) : Z := foldr Z.add 0 amounts.

End BatchProcessor.

(** A contract at 0xC0 owned by 0x0A; every address but the contract
    itself takes value transfers.  The hot wallet 0xH0 holds 100 wei. *)
Definition env_batch : BatchProcessor.Env :=
  BatchProcessor.mkEnv "0xC0" "0x0A" (λ a, negb (bool_decide (a = "0xC0")))
    (λ _ _ _, true).
Definition chain_state : gmap string Z := {[ "0xH0" := 100 ]}.

(** ** services/websocket.ts

    The notifier the routes and the background tasks broadcast to.  A
    connected socket has a legacy set of usernames and a set of
    subscription objects.  A JavaScript [Set] of objects goes by object
    identity: every object carries the number it was created with, and
    [nextObject] is the number the next object gets.  What a socket was
    sent is kept in its outbox. *)
Module WebSocketService.

Record Filters := mkFilters {
  f_blockchain : option string;
  f_currency : option string;
  f_status : option string
}.

Record Subscription := mkSubscription {
  sub_type : string;
  sub_username : string;
  sub_filters : option Filters
}.

(** The [data] of an update, as far as [broadcast] looks at it; [None]
    is a field that is not there. *)
Record Data := mkData {
  d_username : option string;
  d_senderUsername : option string;
  d_recipientUsername : option string;
  d_blockchain : option string;
  d_currency : option string;
  d_status : option string
}.

Record Message := mkMessage {
  m_type : string;
  m_data : Data
}.

(** A parsed client message: its type and the fields of its [data]. *)
Record Request := mkRequest {
  r_type : string;
  r_username : option string;          (* None: missing or not a string *)
  r_subscriptionType : option string;
  r_filters : option Filters
}.

Inductive Failure :=
  | UsernameRequired        (* "Username is required and must be a string" *)
  | UnknownUsername         (* "Username ... does not exist" *)
  | InvalidSubscriptionType (* "Invalid subscription type: ..." *)
  | InvalidMessageType      (* "Invalid message type or missing username: ..." *)
  | Malformed.              (* JSON.parse failed, or a property of undefined was read *)

Inductive Sent :=
  | Confirmation (message : string)
  | Failed (failure : Failure)
  | Update (message : Message).

Record Socket := mkSocket {
  isOpen : bool;                                 (* readyState === WebSocket.OPEN *)
  usernames : gset string;                       (* this.clients.get(ws) *)
  subscriptions : list (nat * Subscription);     (* this.subscriptions.get(ws) *)
  outbox : list Sent
}.

Record Service := mkService {
  sockets : gmap nat Socket;
  nextObject : nat
}.

Definition initial : Service := mkService ∅ 0.

(** [ws.send(JSON.stringify(message))] *)
Definition send (ws : nat) (message : Sent) (s : Service) : Service :=
  mkService
    (alter (λ k, mkSocket (isOpen k) (usernames k) (subscriptions k)
                   (outbox k ++ [message])) ws (sockets s))
    (nextObject s).

(** [Set.prototype.add] and [Set.prototype.delete] on a set of objects. *)
Definition setAdd (o : nat * Subscription) (set : list (nat * Subscription))
    : list (nat * Subscription) :=
  if bool_decide (o.1 ∈ set.*1) then set else set ++ [o].
Definition setDelete (o : nat * Subscription) (set : list (nat * Subscription))
    : list (nat * Subscription) :=
  filter (λ p, p.1 ≠ o.1) set.

(** The 'connection' and the 'close' event of a socket. *)
Definition connection (ws : nat) (s : Service) : Service :=
  mkService (<[ ws := mkSocket true ∅ [] [] ]> (sockets s)) (nextObject s).
Definition close (ws : nat) (s : Service) : Service :=
  mkService (delete ws (sockets s)) (nextObject s).
(** The socket leaves the OPEN state (it is closing) while it is still
    registered. *)
Definition closing (ws : nat) (s : Service) : Service :=
  mkService
    (alter (λ k, mkSocket false (usernames k) (subscriptions k) (outbox k)) ws (sockets s))
    (nextObject s).

Definition subscriptionTypes : list string :=
  ["deposit"; "withdrawal"; "balance"; "transfer"].

(** The 'message' event of a socket: a thrown error is answered with an
    error message. *)
Definition onMessage (ws : nat) (message : option Request) (s : Service) : M Service :=
  match message with
  | None => ret (send ws (Failed Malformed) s)
  | Some parsed =>
      if bool_decide (r_type parsed = "subscribe") then
        match api.given (r_username parsed) with
        | None => ret (send ws (Failed UsernameRequired) s)
        | Some username =>
            let* account := AccountModel.findByUsername username in
            match account with
            | None => ret (send ws (Failed UnknownUsername) s)
            | Some _ =>
                match api.given (r_subscriptionType parsed) with
                | None =>
                    match sockets s !! ws with
                    | None => ret (send ws (Failed Malformed) s)
                    | Some k =>
                        let k := mkSocket (isOpen k) ({[ username ]} ∪ usernames k)
                                   (subscriptions k) (outbox k) in
                        ret (send ws
                               (Confirmation ("Subscribed to username: " +:+ username))
                               (mkService (<[ ws := k ]> (sockets s)) (nextObject s)))
                    end
                | Some subscriptionType =>
                    if bool_decide (subscriptionType ∈ subscriptionTypes) then
                      let subscription :=
                        (nextObject s,
                         mkSubscription subscriptionType username (r_filters parsed)) in
                      match sockets s !! ws with
                      | None =>
                          ret (send ws (Failed Malformed)
                                 (mkService (sockets s) (S (nextObject s))))
                      | Some k =>
                          let k := mkSocket (isOpen k) (usernames k)
                                     (setAdd subscription (subscriptions k))
                                     (outbox k) in
                          ret (send ws
                                 (Confirmation ("Subscribed to " +:+ subscriptionType
                                                +:+ " for username: " +:+ username))
                                 (mkService (<[ ws := k ]> (sockets s))
                                    (S (nextObject s))))
                      end
                    else ret (send ws (Failed InvalidSubscriptionType) s)
                end
            end
        end
      else if bool_decide (r_type parsed = "unsubscribe") then
        match api.given (r_username parsed) with
        | None => ret (send ws (Failed UsernameRequired) s)
        | Some username =>
            match api.given (r_subscriptionType parsed) with
            | None =>
                match sockets s !! ws with
                | None => ret (send ws (Failed Malformed) s)
                | Some k =>
                    let k := mkSocket (isOpen k) (usernames k ∖ {[ username ]})
                               (subscriptions k) (outbox k) in
                    ret (send ws
                           (Confirmation ("Unsubscribed from username: " +:+ username))
                           (mkService (<[ ws := k ]> (sockets s)) (nextObject s)))
                end
            | Some subscriptionType =>
                let subscription :=
                  (nextObject s,
                   mkSubscription subscriptionType username (r_filters parsed)) in
                match sockets s !! ws with
                | None =>
                    ret (send ws (Failed Malformed)
                           (mkService (sockets s) (S (nextObject s))))
                | Some k =>
                    let k := mkSocket (isOpen k) (usernames k)
                               (setDelete subscription (subscriptions k))
                               (outbox k) in
                    ret (send ws
                           (Confirmation ("Unsubscribed from " +:+ subscriptionType
                                          +:+ " for username: " +:+ username))
                           (mkService (<[ ws := k ]> (sockets s)) (S (nextObject s))))
                end
            end
        end
      else ret (send ws (Failed InvalidMessageType) s)
  end.

(** Whom an update is about: [data.username], or for a transfer the
    sender and the recipient. *)
Inductive About :=
  | One (username : string)
  | Both (sender recipient : option string)
  | Nobody.

Definition about (message : Message) : About :=
  match api.given (d_username (m_data message)) with
  | Some username => One username
  | None =>
      if bool_decide (m_type message = "transfer_update")
      then Both (d_senderUsername (m_data message))
                (d_recipientUsername (m_data message))
      else Nobody
  end.

Definition updateTypes : list string :=
  ["deposit_update"; "withdrawal_update"; "balance_update"; "transfer_update"].

(** The legacy loop: is the socket subscribed to the username? *)
Definition legacyMatch (username : About) (subscribedUsernames : gset string) : bool :=
  match username with
  | One u => bool_decide (u ∈ subscribedUsernames)
  | Both a b =>
      match a with Some u => bool_decide (u ∈ subscribedUsernames) | None => false end
      || match b with Some u => bool_decide (u ∈ subscribedUsernames) | None => false end
  | Nobody => false
  end.

(** [filter && data.field !== filter] makes [shouldSend] false. *)
Definition filterPasses (filter actual : option string) : bool :=
  match api.given filter with
  | None => true
  | Some f => bool_decide (actual = Some f)
  end.

(** The loop over the subscription objects: is the update sent for this
    one? *)
Definition modernMatch (message : Message) (username : About) (sub : Subscription) : bool :=
  (bool_decide (m_type message = sub_type sub +:+ "_update")
   || bool_decide (m_type message = "deposit_update") && bool_decide (sub_type sub = "deposit")
   || bool_decide (m_type message = "withdrawal_update")
      && bool_decide (sub_type sub = "withdrawal")
   || bool_decide (m_type message = "balance_update") && bool_decide (sub_type sub = "balance")
   || bool_decide (m_type message = "transfer_update")
      && bool_decide (sub_type sub = "transfer"))
  && match username with
     | One u => bool_decide (sub_username sub = u)
     | Both a b =>
         bool_decide (a = Some (sub_username sub))
         || bool_decide (b = Some (sub_username sub))
     | Nobody => false
     end
  && match sub_filters sub with
     | None => true
     | Some filters =>
         filterPasses (f_blockchain filters) (d_blockchain (m_data message))
         && filterPasses (f_currency filters) (d_currency (m_data message))
         && filterPasses (f_status filters) (d_status (m_data message))
     end.

(** How many copies of an update a socket is sent. *)
Definition copies (message : Message) (k : Socket) : nat :=
  if isOpen k then
    (if legacyMatch (about message) (usernames k) then 1 else 0)
    + length (filter (λ p, modernMatch message (about message) p.2 = true)
                (subscriptions k))
  else 0.

(** [WebSocketService.broadcast(message)] *)
Definition broadcast (message : Message) (s : Service) : Service :=
  if bool_decide (m_type message ∈ updateTypes) then
    mkService
      ((λ k, mkSocket (isOpen k) (usernames k) (subscriptions k)
               (outbox k ++ replicate (copies message k) (Update message)))
         <$> sockets s)
      (nextObject s)
  else s.

(** What happens to the notifier, one event after the other. *)
Inductive Event :=
  | Connects (ws : nat)
  | Leaves (ws : nat)
  | Closes (ws : nat)
  | Says (ws : nat) (message : option Request)
  | Broadcasts (message : Message).

Definition step (e : Event) (s : Service) : M Service :=
  match e with
  | Connects ws => ret (connection ws s)
  | Leaves ws => ret (closing ws s)
  | Closes ws => ret (close ws s)
  | Says ws message => onMessage ws message s
  | Broadcasts message => ret (broadcast message s)
  end.

Fixpoint run (events : list Event) (s : Service) : M Service :=
  match events with
  | [] => ret s
  | e :: events' => let* s' := step e s in run events' s'
  end.

(** Whom an update concerns. *)
Definition concerns (message : Message) (u : string) : Prop :=
  match about message with
  | One username => u = username
  | Both a b => a = Some u ∨ b = Some u
  | Nobody => False
  end.

End WebSocketService.

(** The notifier after a sequence of events, started in a world. *)
Definition notifier (events : list WebSocketService.Event) (w : World)
    : WebSocketService.Service :=
  match outcome (WebSocketService.run events WebSocketService.initial) w with
  | Ok s => s
  | Throw _ => WebSocketService.initial
  end.

(** What a socket is subscribed to: its legacy usernames and its
    subscription objects. *)
Definition subscribed (s : WebSocketService.Service) (ws : nat)
    : option (gset string * list (nat * WebSocketService.Subscription)) :=
  (λ k, (WebSocketService.usernames k, WebSocketService.subscriptions k))
    <$> WebSocketService.sockets s !! ws.

(** Alice's socket 1 subscribes to her deposits and asks to unsubscribe
    again; a deposit of hers is then broadcast. *)
Definition alice_subscribes : WebSocketService.Request :=
  WebSocketService.mkRequest "subscribe" (Some "alice") (Some "deposit") None.
Definition alice_unsubscribes : WebSocketService.Request :=
  WebSocketService.mkRequest "unsubscribe" (Some "alice") (Some "deposit") None.
Definition alice_deposit : WebSocketService.Message :=
  WebSocketService.mkMessage "deposit_update"
    (WebSocketService.mkData (Some "alice") None None (Some "mind") (Some "MIND")
       (Some "pending")).

(** A socket listens to a user: by a legacy subscription or by a
    subscription object. *)
Definition listens (s : WebSocketService.Service) (ws : nat) (u : string) : Prop :=
  ∃ k, WebSocketService.sockets s !! ws = Some k
       ∧ (u ∈ WebSocketService.usernames k
          ∨ ∃ p, p ∈ WebSocketService.subscriptions k
                 ∧ WebSocketService.sub_username p.2 = u).

(** Every subscription object is older than the next object. *)
Definition fresh_objects (s : WebSocketService.Service) : Prop :=
  ∀ ws k p, WebSocketService.sockets s !! ws = Some k →
            p ∈ WebSocketService.subscriptions k →
            (p.1 < WebSocketService.nextObject s)%nat.

(** What handling one client message comes to: the call returns, the
    store reads as before, at most one object was created, a username a
    socket newly listens to has an account, the subscription objects stay
    older than the next object, and an unsubscribe that names a
    subscription type leaves every subscription as it was. *)
Definition message_handled (message : option WebSocketService.Request)
    (s : WebSocketService.Service) (w : World)
    (o : Result WebSocketService.Service * World) : Prop :=
  ∃ s' w', o = (Ok s', w')
    ∧ (∀ k, view w' k = view w k)
    ∧ (WebSocketService.nextObject s ≤ WebSocketService.nextObject s'
       ≤ S (WebSocketService.nextObject s))%nat
    ∧ (∀ ws' u, listens s' ws' u →
         listens s ws' u ∨ ∃ a, view w (AccountModel.key u) = Some (VAccount a))
    ∧ (fresh_objects s → fresh_objects s')
    ∧ (∀ request, message = Some request →
         WebSocketService.r_type request = "unsubscribe" →
         api.given (WebSocketService.r_subscriptionType request) ≠ None →
         fresh_objects s → ∀ ws', subscribed s' ws' = subscribed s ws').

(** ** The balance sheet of a user *)

(** [result[blockchain][currency]] *)
Definition entryAt (result : gmap string (gmap string (Z * Z)))
    (blockchain currency : string) : option (Z * Z) :=
  result !! blockchain ≫= λ m, m !! currency.

(** The currencies of config/networks.ts. *)
Definition configured (blockchain currency : string) : Prop :=
  ∃ config, networks !! blockchain = Some config
            ∧ (currency = nativeCurrency config
               ∨ is_Some (erc20Tokens config !! currency)).

(** The balance records that [db.iterator] hands to [getAllBalances]. *)
Definition balanceRecord (w : World) (username : string) (r : Balance) : Prop :=
  ∃ k, String.prefix ("balance:" +:+ username +:+ ":") k = true
       ∧ disk w !! k = Some (VBalance r).


(** * Lemmas on the store *)

Ltac world_simpl :=
  cbn [disk cache journal faults now random activeAddresses
       processedTransactions pendingQueues gasFundingTxs processingBuckets
       set_disk set_cache set_journal set_faults set_random
       set_activeAddresses set_processedTransactions set_pendingQueues
       set_gasFundingTxs set_processingBuckets with_faults fst snd] in *.

Ltac finish := repeat split; intros; try done; try discriminate; try lia.

Lemma get_eq key w : db.get key w = (Ok (view w key), warm key w).
Proof.
  unfold db.get, view, warm.
  destruct (cache w !! key); [done|]. by destruct (disk w !! key).
Qed.

Lemma put_eq key v w :
  db.put key v w =
    match faults w with
    | true :: fs => (Throw StoreError, set_faults (λ _, fs) w)
    | false :: fs => (Ok tt, commit key v (set_faults (λ _, fs) w))
    | [] => (Ok tt, commit key v w)
    end.
Proof.
  unfold db.put, db.attempt, bind, modify, commit.
  destruct (faults w) as [|[] fs]; reflexivity.
Qed.

Lemma del_eq key w :
  db.del key w =
    match faults w with
    | true :: fs => (Throw StoreError, set_faults (λ _, fs) w)
    | false :: fs => (Ok tt, commit_del key (set_faults (λ _, fs) w))
    | [] => (Ok tt, commit_del key w)
    end.
Proof.
  unfold db.del, db.attempt, bind, modify, commit_del.
  destruct (faults w) as [|[] fs]; reflexivity.
Qed.

Lemma disk_warm key w : disk (warm key w) = disk w.
Proof. unfold warm. by repeat case_match. Qed.
Lemma faults_warm key w : faults (warm key w) = faults w.
Proof. unfold warm. by repeat case_match. Qed.
Lemma journal_warm key w : journal (warm key w) = journal w.
Proof. unfold warm. by repeat case_match. Qed.
Lemma view_warm key key' w : view (warm key w) key' = view w key'.
Proof.
  unfold warm, view.
  destruct (cache w !! key) eqn:Hc; [done|].
  destruct (disk w !! key) eqn:Hd; [|done].
  world_simpl. destruct (decide (key = key')) as [->|Hne].
  - by rewrite lookup_insert_eq, Hc, Hd.
  - by rewrite lookup_insert_ne.
Qed.
Lemma disk_commit key v w : disk (commit key v w) = <[key:=v]> (disk w).
Proof. reflexivity. Qed.
Lemma view_commit key v w : view (commit key v w) key = Some v.
Proof. unfold view, commit. world_simpl. by rewrite lookup_insert_eq. Qed.
Lemma view_commit_ne key key' v w :
  key ≠ key' → view (commit key v w) key' = view w key'.
Proof. intros. unfold view, commit. world_simpl. by rewrite !lookup_insert_ne. Qed.

Lemma faults_commit key v w : faults (commit key v w) = faults w.
Proof. reflexivity. Qed.
Lemma faults_commit_del key w : faults (commit_del key w) = faults w.
Proof. reflexivity. Qed.
Lemma faults_set_faults f w : faults (set_faults f w) = f (faults w).
Proof. reflexivity. Qed.
Lemma view_set_faults f w key : view (set_faults f w) key = view w key.
Proof. reflexivity. Qed.
Lemma disk_set_faults f w : disk (set_faults f w) = disk w.
Proof. reflexivity. Qed.

Lemma balanceOf_view w u c cur :
  balanceOf w u c cur =
    match view w (BalanceModel.key u c cur) with
    | Some (VBalance b) => b
    | _ => mkBalance u c cur 0 0
    end.
Proof.
  unfold balanceOf, outcome, BalanceModel.getBalance, bind, ret.
  rewrite get_eq. reflexivity.
Qed.

Lemma getBalance_eq u c cur w :
  BalanceModel.getBalance u c cur w
  = (Ok (balanceOf w u c cur), warm (BalanceModel.key u c cur) w).
Proof.
  rewrite balanceOf_view.
  unfold BalanceModel.getBalance, bind, ret. rewrite get_eq. reflexivity.
Qed.

Lemma balanceOf_warm key w u c cur :
  balanceOf (warm key w) u c cur = balanceOf w u c cur.
Proof. by rewrite !balanceOf_view, view_warm. Qed.

Lemma updateBalance_eq b w :
  BalanceModel.updateBalance b w =
    if bal_amount b <? 0 then (Throw NegativeAmount, w)
    else if bal_frozenAmount b <? 0 then (Throw NegativeFrozen, w)
    else db.put (BalanceModel.key (bal_username b) (bal_blockchain b) (bal_currency b))
           (VBalance (mkBalance (bal_username b) (bal_blockchain b) (bal_currency b)
                        (bal_amount b) (bal_frozenAmount b))) w.
Proof. unfold BalanceModel.updateBalance, throw. by repeat case_match. Qed.

Lemma balance_after_commit u c cur b w :
  storedBalance (commit (BalanceModel.key u c cur) (VBalance b) w) u c cur = Some b
  ∧ balanceOf (commit (BalanceModel.key u c cur) (VBalance b) w) u c cur = b.
Proof.
  unfold storedBalance. rewrite balanceOf_view.
  by rewrite disk_commit, view_commit, lookup_insert_eq.
Qed.

(** * The ledger operations *)

(** C4. [freeze] fails with the insufficient-available error exactly when
    the available balance is below the amount; a failed freeze (of any
    kind) leaves the stored balances as they were; a successful one moves
    the amount from available to frozen. *)
Theorem freeze_spec (w : World) (u c cur : string) (amt : Z) :
  let run := BalanceModel.freezeBalance u c cur amt in
  let b := balanceOf w u c cur in
  (outcome run w = Throw InsufficientAvailable ↔ bal_amount b < amt)
  ∧ (∀ e, outcome run w = Throw e → disk (exec run w) = disk w)
  ∧ (outcome run w = Ok tt →
       storedBalance (exec run w) u c cur
         = Some (mkBalance u c cur (bal_amount b - amt) (bal_frozenAmount b + amt))
       ∧ balanceOf (exec run w) u c cur
         = mkBalance u c cur (bal_amount b - amt) (bal_frozenAmount b + amt)).
Proof.
  cbv zeta. unfold outcome, exec, BalanceModel.freezeBalance, bind.
  rewrite getBalance_eq. cbv beta iota zeta.
  set (b := balanceOf w u c cur). set (k := BalanceModel.key u c cur).
  destruct (Z.ltb_spec (bal_amount b) amt) as [Hlt|Hge].
  { unfold throw; world_simpl. rewrite disk_warm. finish. }
  rewrite updateBalance_eq.
  cbn [bal_amount bal_frozenAmount bal_username bal_blockchain bal_currency].
  fold k.
  destruct (Z.ltb_spec (bal_amount b - amt) 0) as [?|_]; [lia|].
  destruct (Z.ltb_spec (bal_frozenAmount b + amt) 0) as [Hf|Hf].
  { world_simpl. rewrite disk_warm. finish. }
  rewrite put_eq, faults_warm.
  destruct (faults w) as [|[] fs]; world_simpl; rewrite ?disk_warm;
    finish; apply balance_after_commit.
Qed.

(** C5, as the code has it. An [unfreeze] of more than is frozen returns
    normally and moves nothing: the stored balances and the balance read
    back are unchanged (so frozen cannot become negative). *)
Theorem unfreeze_more_than_frozen (w : World) (u c cur : string) (amt : Z) :
  bal_frozenAmount (balanceOf w u c cur) < amt →
  let run := BalanceModel.unfreezeBalance u c cur amt in
  outcome run w = Ok tt
  ∧ disk (exec run w) = disk w
  ∧ balanceOf (exec run w) u c cur = balanceOf w u c cur.
Proof.
  intros Hlt. cbv zeta. unfold outcome, exec, BalanceModel.unfreezeBalance, bind.
  rewrite getBalance_eq. cbv beta iota zeta.
  destruct (Z.ltb_spec (bal_frozenAmount (balanceOf w u c cur)) amt); [|lia].
  unfold ret; world_simpl. by rewrite disk_warm, balanceOf_warm.
Qed.

Lemma unfreeze_more_than_frozen_witness :
  bal_frozenAmount (balanceOf world_bob_frozen "bob" "mind" "MIND") < 1000
  ∧ outcome (BalanceModel.unfreezeBalance "bob" "mind" "MIND" 1000) world_bob_frozen
    = Ok tt.
Proof.
  split; [vm_compute; reflexivity|].
  apply (unfreeze_more_than_frozen world_bob_frozen "bob" "mind" "MIND" 1000).
  vm_compute; reflexivity.
Defined.

(** C5 as stated fails: with 5.00 frozen, an unfreeze of 10.00 does not
    move min(10.00, 5.00) = 5.00 back to available; it moves nothing. *)
Lemma unfreeze_moves_nothing_example :
  let w := world_bob_frozen in
  let w' := exec (BalanceModel.unfreezeBalance "bob" "mind" "MIND" 1000) w in
  let b := balanceOf w "bob" "mind" "MIND" in
  let b' := balanceOf w' "bob" "mind" "MIND" in
  bal_frozenAmount b < 1000
  ∧ b' = bob_mind 0 500
  ∧ ¬ (bal_amount b' = bal_amount b + Z.min 1000 (bal_frozenAmount b)
       ∧ bal_frozenAmount b' = bal_frozenAmount b - Z.min 1000 (bal_frozenAmount b)).
Proof.
  vm_compute. split; [reflexivity|]. split; [reflexivity|].
  intros [H _]. discriminate H.
Qed.

(** * Preservation of a property through the task monad *)

Section preservation.
Context (P : World → Prop).

Lemma preserves_ret {A} (a : A) : preserves P (ret a).
Proof. by intros w. Qed.
Lemma preserves_throw {A} e : preserves P (@throw A e).
Proof. by intros w. Qed.
Lemma preserves_lift {A} (r : Result A) : preserves P (lift r).
Proof. by intros w. Qed.
Lemma preserves_gets {A} (f : World → A) : preserves P (gets f).
Proof. by intros w. Qed.
Lemma preserves_bind {A B} (m : M A) (k : A → M B) :
  preserves P m → (∀ a, preserves P (k a)) → preserves P (bind m k).
Proof.
  intros Hm Hk w Hw. specialize (Hm w Hw). unfold exec, bind in *.
  destruct (m w) as [[a|e] w']; [by apply Hk|done].
Qed.
Lemma preserves_try_catch {A} (m : M A) h :
  preserves P m → (∀ e, preserves P (h e)) → preserves P (try_catch m h).
Proof.
  intros Hm Hh w Hw. specialize (Hm w Hw). unfold exec, try_catch in *.
  destruct (m w) as [[a|e] w']; [done|by apply Hh].
Qed.
Lemma preserves_try_finally {A} (m : M A) f :
  preserves P m → preserves P f → preserves P (try_finally m f).
Proof.
  intros Hm Hf w Hw. specialize (Hm w Hw). unfold exec, try_finally in *.
  destruct (m w) as [r w']. specialize (Hf w' Hm). unfold exec in Hf.
  destruct (f w') as [[|] w'']; exact Hf.
Qed.
Lemma preserves_promise_all2 (a b : M unit) :
  preserves P a → preserves P b → preserves P (promise_all2 a b).
Proof.
  intros Ha Hb w Hw. specialize (Ha w Hw). unfold exec, promise_all2 in *.
  destruct (a w) as [ra w']. specialize (Hb w' Ha). unfold exec in Hb.
  destruct (b w') as [rb w'']; exact Hb.
Qed.
Lemma preserves_for_each {A} (xs : list A) body :
  (∀ x, preserves P (body x)) → preserves P (for_each xs body).
Proof.
  intros Hb. induction xs as [|x xs IH]; [apply preserves_ret|].
  apply preserves_bind; [apply Hb|done].
Qed.
Lemma preserves_map_m {A B} (f : A → M B) xs :
  (∀ x, preserves P (f x)) → preserves P (map_m f xs).
Proof.
  intros Hf. induction xs as [|x xs IH]; [apply preserves_ret|].
  cbn [map_m]. apply preserves_bind; [apply Hf|intros].
  apply preserves_bind; [done|intros; apply preserves_ret].
Qed.
Lemma preserves_modify f : (∀ w, P w → P (f w)) → preserves P (modify f).
Proof. intros Hf w Hw. by apply Hf. Qed.
Lemma preserves_detached m : preserves P m → preserves P (IndexerService.detached m).
Proof.
  intros Hm w Hw. specialize (Hm w Hw). unfold exec, IndexerService.detached in *.
  destruct (m w); exact Hm.
Qed.
End preservation.

(** Structural steps of a preservation proof. *)
Ltac pres_step :=
  lazymatch goal with
  | |- preserves _ (bind _ _) => apply preserves_bind; [|intros]
  | |- preserves _ (ret _) => apply preserves_ret
  | |- preserves _ (throw _) => apply preserves_throw
  | |- preserves _ (lift _) => apply preserves_lift
  | |- preserves _ (gets _) => apply preserves_gets
  | |- preserves _ (try_catch _ _) => apply preserves_try_catch; [|intros]
  | |- preserves _ (try_finally _ _) => apply preserves_try_finally
  | |- preserves _ (promise_all2 _ _) => apply preserves_promise_all2
  | |- preserves _ (for_each _ _) => apply preserves_for_each; intros
  | |- preserves _ (map_m _ _) => apply preserves_map_m; intros
  | |- preserves _ (IndexerService.detached _) => apply preserves_detached
  | |- preserves _ (if ?b then _ else _) => destruct b
  | |- preserves _ (match ?x with _ => _ end) => destruct x
  | |- preserves _ (let _ := _ in _) => cbv zeta
  end.

(** ** Invariants of the store are kept by the primitives *)

Section store_inv.
Context (K : string → Prop) (φ : Value → Prop).
Local Abbreviation Inv := (store_inv K φ).

Lemma inv_commit k v w : φ v → Inv w → Inv (commit k v w).
Proof.
  intros Hv [Hd Hc]. split; unfold commit; world_simpl; intros k' v' HK;
    (destruct (decide (k = k')) as [->|Hne];
     [rewrite lookup_insert_eq; by intros [= <-]
     |rewrite lookup_insert_ne by done; eauto]).
Qed.
Lemma inv_commit_del k w : Inv w → Inv (commit_del k w).
Proof.
  intros [Hd Hc]. split; unfold commit_del; world_simpl; intros k' v' HK;
    (destruct (decide (k = k')) as [->|Hne];
     [by rewrite lookup_delete_eq
     |rewrite lookup_delete_ne by done; eauto]).
Qed.
Lemma inv_cache k v w : φ v → Inv w → Inv (set_cache (insert k v) w).
Proof.
  intros Hv [Hd Hc]. split; world_simpl; [done|]. intros k' v' HK.
  destruct (decide (k = k')) as [->|Hne];
    [rewrite lookup_insert_eq; by intros [= <-]
    |rewrite lookup_insert_ne by done; eauto].
Qed.
Lemma inv_warm k w : Inv w → Inv (warm k w).
Proof.
  intros Hw. unfold warm.
  destruct (cache w !! k) eqn:Hc; [done|].
  destruct (disk w !! k) eqn:Hd; [|done].
  split; world_simpl; [apply Hw|]. intros k' v' HK.
  destruct (decide (k = k')) as [->|Hne].
  - rewrite lookup_insert_eq. intros [= <-]. by apply (proj1 Hw k').
  - rewrite lookup_insert_ne by done. by apply (proj2 Hw).
Qed.

Lemma inv_get key : preserves Inv (db.get key).
Proof. intros w Hw. unfold exec. rewrite get_eq. by apply inv_warm. Qed.
Lemma inv_put key v : φ v → preserves Inv (db.put key v).
Proof.
  intros Hv w Hw. unfold exec. rewrite put_eq.
  destruct (faults w) as [|[] fs]; world_simpl; try done; by apply inv_commit.
Qed.
Lemma inv_del key : preserves Inv (db.del key).
Proof.
  intros w Hw. unfold exec. rewrite del_eq.
  destruct (faults w) as [|[] fs]; world_simpl; try done;
    by apply inv_commit_del.
Qed.
(** Steps that only touch the service's in-memory sets, the clock or
    the random source. *)
Lemma inv_modify_other f :
  (∀ w, disk (f w) = disk w ∧ cache (f w) = cache w) → preserves Inv (modify f).
Proof.
  intros Hf. apply preserves_modify. intros w [Hd Hc].
  destruct (Hf w) as [Ed Ec]. unfold store_inv. by rewrite Ed, Ec.
Qed.
Lemma inv_assign_cache k v :
  φ v → preserves Inv (modify (set_cache (insert k v))).
Proof. intros Hv. apply preserves_modify. intros. by apply inv_cache. Qed.
Lemma inv_randomBytes n : preserves Inv (randomBytes n).
Proof. by intros w Hw. Qed.
Lemma inv_queueDelete qk h : preserves Inv (IndexerService.queueDelete qk h).
Proof.
  intros w Hw. unfold exec, IndexerService.queueDelete.
  by destruct (pendingQueues w !! qk).
Qed.
Lemma inv_deref id : preserves Inv (BatchProcessorService.deref id).
Proof.
  intros w Hw. unfold exec, BatchProcessorService.deref. by repeat case_match.
Qed.
Lemma inv_network_config n : preserves Inv (network_config n).
Proof. unfold network_config. destruct (networks !! n); pres_step. Qed.
End store_inv.

(** One step of an invariant proof; [tac] proves that a written value
    satisfies the invariant's predicate. *)
Ltac inv_step tac :=
  lazymatch goal with
  | |- preserves _ (db.get _) => apply inv_get
  | |- preserves _ (db.put _ _) => apply inv_put; tac
  | |- preserves _ (db.del _) => apply inv_del
  | |- preserves _ (randomBytes _) => apply inv_randomBytes
  | |- preserves _ (IndexerService.queueDelete _ _) => apply inv_queueDelete
  | |- preserves _ (BatchProcessorService.deref _) => apply inv_deref
  | |- preserves _ (network_config _) => apply inv_network_config
  | |- preserves _ (modify (set_cache (insert _ _))) =>
      apply inv_assign_cache; tac
  | |- preserves _ (modify _) =>
      apply inv_modify_other; intros; split; reflexivity
  | |- _ => pres_step
  end.

(** ** The ledger invariant is kept by every task *)

Lemma ledger_updateBalance b : preserves ledger_ok (BalanceModel.updateBalance b).
Proof.
  unfold BalanceModel.updateBalance.
  destruct (Z.ltb_spec (bal_amount b) 0); [apply preserves_throw|].
  destruct (Z.ltb_spec (bal_frozenAmount b) 0); [apply preserves_throw|].
  by apply inv_put.
Qed.

Ltac ledger_step :=
  lazymatch goal with
  | |- preserves _ (BalanceModel.updateBalance _) => apply ledger_updateBalance
  | |- _ => inv_step ltac:(exact I)
  end.
Ltac ledger := repeat ledger_step.

Lemma ledger_getBalance u c cur : preserves ledger_ok (BalanceModel.getBalance u c cur).
Proof. unfold BalanceModel.getBalance. ledger. Qed.

Create HintDb ledger discriminated.
#[local] Hint Constants Opaque : ledger.
#[local] Hint Resolve ledger_getBalance : ledger.
#[local] Ltac ledger_auto :=
  repeat first [ ledger_step | solve [ eauto 2 with ledger nocore ] ].

Lemma ledger_AccountModel_find u : preserves ledger_ok (AccountModel.findByUsername u).
Proof. unfold AccountModel.findByUsername. ledger. Qed.
Lemma ledger_AccountModel_create a : preserves ledger_ok (AccountModel.create a).
Proof. unfold AccountModel.create. ledger. Qed.
Lemma ledger_DepositModel_find id : preserves ledger_ok (DepositModel.findById id).
Proof. unfold DepositModel.findById. ledger. Qed.
Lemma ledger_DepositModel_update d : preserves ledger_ok (DepositModel.update d).
Proof. unfold DepositModel.update. ledger. Qed.
Lemma ledger_WithdrawalModel_find id : preserves ledger_ok (WithdrawalModel.findById id).
Proof. unfold WithdrawalModel.findById. ledger. Qed.
Lemma ledger_WithdrawalModel_update x : preserves ledger_ok (WithdrawalModel.update x).
Proof. unfold WithdrawalModel.update. ledger. Qed.
Lemma ledger_WithdrawalModel_create x : preserves ledger_ok (WithdrawalModel.create x).
Proof. unfold WithdrawalModel.create. ledger. Qed.
Lemma ledger_BucketModel_find id : preserves ledger_ok (BucketModel.findById id).
Proof. unfold BucketModel.findById. ledger. Qed.
Lemma ledger_BucketModel_update b : preserves ledger_ok (BucketModel.update b).
Proof. unfold BucketModel.update. ledger. Qed.
Lemma ledger_BucketModel_create b : preserves ledger_ok (BucketModel.create b).
Proof. unfold BucketModel.create. ledger. Qed.
Lemma ledger_getNumber k : preserves ledger_ok (IndexerService.getNumber k).
Proof. unfold IndexerService.getNumber. ledger. Qed.
#[local] Hint Resolve ledger_AccountModel_find ledger_AccountModel_create
  ledger_DepositModel_find ledger_DepositModel_update
  ledger_WithdrawalModel_find ledger_WithdrawalModel_update
  ledger_WithdrawalModel_create ledger_BucketModel_find
  ledger_BucketModel_update ledger_BucketModel_create ledger_getNumber : ledger.

Lemma ledger_freezeBalance u c cur a :
  preserves ledger_ok (BalanceModel.freezeBalance u c cur a).
Proof. unfold BalanceModel.freezeBalance. ledger_auto. Qed.
Lemma ledger_unfreezeBalance u c cur a :
  preserves ledger_ok (BalanceModel.unfreezeBalance u c cur a).
Proof. unfold BalanceModel.unfreezeBalance. ledger_auto. Qed.
Lemma ledger_credit d : preserves ledger_ok (IndexerService.credit d).
Proof. unfold IndexerService.credit. ledger_auto. Qed.
#[local] Hint Resolve ledger_freezeBalance ledger_unfreezeBalance ledger_credit : ledger.

Lemma ledger_settle fee h id :
  preserves ledger_ok (BatchProcessorService.settle fee h id).
Proof.
  unfold BatchProcessorService.settle, BatchProcessorService.assign. ledger_auto.
Qed.
Lemma ledger_failAndUnfreeze fee id :
  preserves ledger_ok (BatchProcessorService.failAndUnfreeze fee id).
Proof.
  unfold BatchProcessorService.failAndUnfreeze, BatchProcessorService.assign.
  ledger_auto.
Qed.
Lemma ledger_submit ch cfg b amounts :
  preserves ledger_ok (BatchProcessorService.submit ch cfg b amounts).
Proof. unfold BatchProcessorService.submit. ledger_auto. Qed.
Lemma ledger_decimalsOf cfg cur :
  preserves ledger_ok (BatchProcessorService.decimalsOf cfg cur).
Proof. unfold BatchProcessorService.decimalsOf. ledger_auto. Qed.
#[local] Hint Resolve ledger_settle ledger_failAndUnfreeze ledger_submit
  ledger_decimalsOf : ledger.

Lemma ledger_processBucket ch id :
  preserves ledger_ok (BatchProcessorService.processBucket ch id).
Proof.
  unfold BatchProcessorService.processBucket, BatchProcessorService.assign,
    BatchProcessorService.scheduleBucketProcessing.
  ledger_auto.
Qed.
Lemma ledger_addToBucket x : preserves ledger_ok (BatchProcessorService.addToBucket x).
Proof.
  unfold BatchProcessorService.addToBucket,
    BatchProcessorService.scheduleBucketProcessing.
  ledger_auto.
Qed.
#[local] Hint Resolve ledger_processBucket ledger_addToBucket : ledger.

Lemma ledger_send_balance_to_user u r c cur a :
  preserves ledger_ok (routes.send_balance_to_user u r c cur a).
Proof. unfold routes.send_balance_to_user, routes.handler. ledger_auto. Qed.
Lemma ledger_req_deposit id u c cur a to :
  preserves ledger_ok (routes.req_deposit id u c cur a to).
Proof. unfold routes.req_deposit, routes.handler. ledger_auto. Qed.

Section with_library.
Context `{Library}.

Lemma ledger_getPrivateKey u : preserves ledger_ok (WalletService.getPrivateKey u).
Proof. unfold WalletService.getPrivateKey, decrypt. ledger_auto. Qed.
Lemma ledger_generateAccount u : preserves ledger_ok (WalletService.generateAccount u).
Proof.
  unfold WalletService.generateAccount, WalletService.createRandom, encrypt.
  ledger_auto.
Qed.
Lemma ledger_cleanupGasFundingTx h :
  preserves ledger_ok (TransactionService.cleanupGasFundingTx h).
Proof.
  unfold TransactionService.cleanupGasFundingTx, TransactionService.isGasFundingTx.
  ledger_auto.
Qed.
Hint Resolve ledger_getPrivateKey ledger_cleanupGasFundingTx : ledger.
Lemma ledger_transferToHotWallet ch d :
  preserves ledger_ok (TransactionService.transferToHotWallet ch d).
Proof. unfold TransactionService.transferToHotWallet. ledger_auto. Qed.
Lemma ledger_retire qk h : preserves ledger_ok (IndexerService.retire qk h).
Proof. unfold IndexerService.retire. ledger_auto. Qed.
Hint Resolve ledger_transferToHotWallet ledger_retire : ledger.
Lemma ledger_processDeposit ch h n cur :
  preserves ledger_ok (IndexerService.processDeposit ch h n cur).
Proof.
  unfold IndexerService.processDeposit, IndexerService.assign. ledger_auto.
Qed.

Lemma ledger_run_op op : preserves ledger_ok (run_op op).
Proof.
  unfold run_op. apply preserves_try_catch; [|intros; apply preserves_ret].
  destruct op;
    eauto using ledger_credit, ledger_freezeBalance, ledger_unfreezeBalance,
      ledger_settle, ledger_updateBalance, ledger_processDeposit,
      ledger_processBucket.
  - apply preserves_bind; [apply ledger_send_balance_to_user|intros; apply preserves_ret].
  - apply preserves_bind; [apply ledger_req_deposit|intros; apply preserves_ret].
  - apply preserves_bind; [apply ledger_generateAccount|intros; apply preserves_ret].
Qed.

Lemma ledger_run_ops ops : preserves ledger_ok (run_ops ops).
Proof. apply preserves_for_each, ledger_run_op. Qed.
End with_library.

Lemma ledger_ok_empty fs : ledger_ok (with_faults fs emptyWorld).
Proof. split; intros k v _; cbn; by rewrite lookup_empty. Qed.


(** * Keys *)

Lemma string_app_length (a b : string) :
  String.length (a +:+ b) = (String.length a + String.length b)%nat.
Proof.
  induction a as [|x a IH]; [reflexivity|].
  change (S (String.length (a +:+ b)) = S (String.length a + String.length b)).
  by rewrite IH.
Qed.

Lemma string_app_inj_r (a b s : string) : a +:+ s = b +:+ s → a = b.
Proof.
  revert b. induction a as [|x a IH]; intros [|y b] Heq.
  - done.
  - apply (f_equal String.length) in Heq.
    rewrite !string_app_length in Heq. cbn in Heq. lia.
  - apply (f_equal String.length) in Heq.
    rewrite !string_app_length in Heq. cbn in Heq. lia.
  - change (String x (a +:+ s) = String y (b +:+ s)) in Heq.
    injection Heq as -> Heq. f_equal. by apply IH.
Qed.

Lemma balance_key_inj u u' c cur :
  BalanceModel.key u c cur = BalanceModel.key u' c cur → u = u'.
Proof.
  unfold BalanceModel.key. intros Heq.
  apply (inj (String.app "balance:")) in Heq.
  by apply string_app_inj_r in Heq.
Qed.

(** * The transfer *)

Lemma findByUsername_eq u w :
  AccountModel.findByUsername u w
  = (Ok (match view w (AccountModel.key u) with
         | Some (VAccount a) => Some a
         | _ => None
         end), warm (AccountModel.key u) w).
Proof. unfold AccountModel.findByUsername, bind, ret. by rewrite get_eq. Qed.

Lemma frozenAt_warm k k' w : frozenAt (warm k w) k' = frozenAt w k'.
Proof. unfold frozenAt. by rewrite view_warm. Qed.
Lemma frozenAt_balanceOf w u c cur :
  frozenAt w (BalanceModel.key u c cur) = bal_frozenAmount (balanceOf w u c cur).
Proof. unfold frozenAt. rewrite balanceOf_view. by repeat case_match. Qed.

(** A balance update whose frozen amount is the one already read at its
    key keeps the frozen amount of every key that agrees with it. *)
Lemma frozen_updateBalance b k f :
  (BalanceModel.key (bal_username b) (bal_blockchain b) (bal_currency b) = k →
   bal_frozenAmount b = f) →
  preserves (λ w, frozenAt w k = f) (BalanceModel.updateBalance b).
Proof.
  intros Hk w Hw. unfold exec. rewrite updateBalance_eq.
  repeat case_match; try done.
  rewrite put_eq. destruct (faults w) as [|[] fs]; world_simpl; try done.
  all: unfold frozenAt in *;
    destruct (decide (BalanceModel.key (bal_username b) (bal_blockchain b)
                        (bal_currency b) = k)) as [Heq|Hne];
    [rewrite <- Heq at 1; rewrite view_commit; cbn; by apply Hk
    |by rewrite view_commit_ne].
Qed.

Lemma frozen_transfer_writes u r c cur amt w :
  let nb := mkBalance u c cur (bal_amount (balanceOf w u c cur) - amt)
              (bal_frozenAmount (balanceOf w u c cur)) in
  let nrb := mkBalance r c cur (bal_amount (balanceOf w r c cur) + amt)
               (bal_frozenAmount (balanceOf w r c cur)) in
  ∀ k, k = BalanceModel.key u c cur ∨ k = BalanceModel.key r c cur →
  preserves (λ w', frozenAt w' k = frozenAt w k)
    (promise_all2 (BalanceModel.updateBalance nb) (BalanceModel.updateBalance nrb)).
Proof.
  intros nb nrb k Hk.
  apply preserves_promise_all2; apply frozen_updateBalance; cbn; intros <-;
    by rewrite frozenAt_balanceOf.
Qed.




(** * Accounts *)

Lemma random_warm key w : random (warm key w) = random w.
Proof. unfold warm. by repeat case_match. Qed.
Lemma activeAddresses_warm key w : activeAddresses (warm key w) = activeAddresses w.
Proof. unfold warm. by repeat case_match. Qed.
Lemma now_warm key w : now (warm key w) = now w.
Proof. unfold warm. by repeat case_match. Qed.

(** C10. For a username whose account record exists, [generateAccount]
    returns the stored username, address and timestamp; it writes nothing
    (the store and its history are unchanged and every key reads as
    before), draws no random bytes (no new keypair) and registers no
    address. *)
Theorem generateAccount_existing `{Library} (w : World) (u : string) (acc : Account) :
  view w (AccountModel.key u) = Some (VAccount acc) →
  let run := WalletService.generateAccount u in
  outcome run w = Ok (acc_username acc, acc_address acc, acc_timestamp acc)
  ∧ disk (exec run w) = disk w
  ∧ journal (exec run w) = journal w
  ∧ random (exec run w) = random w
  ∧ activeAddresses (exec run w) = activeAddresses w
  ∧ (∀ k, view (exec run w) k = view w k).
Proof.
  intros Hacc. cbv zeta.
  unfold outcome, exec, WalletService.generateAccount, bind.
  rewrite findByUsername_eq, Hacc. cbv beta iota. unfold ret. world_simpl.
  rewrite disk_warm, journal_warm, random_warm, activeAddresses_warm.
  repeat split. intros k. apply view_warm.
Qed.

(** C9, as the code has it. For a username without an account, the new
    wallet is derived from the first sixteen bytes of
    keccak256(random ++ sha256(username)), where [random] is sixteen bytes
    drawn from the random source; the account stored holds that wallet's
    address and its private key encrypted under a second random draw.
    Two runs agree on key and address when they draw the same bytes. *)
Theorem generateAccount_fresh `{Library} (w : World) (u : string) :
  view w (AccountModel.key u) = None → faults w = [] →
  let run := WalletService.generateAccount u in
  let drawn := take 16 (random w ++ replicate 16 0) in
  let iv := take 16 (drop 16 (random w) ++ replicate 16 0) in
  let wallet := walletFromEntropy (take 16 (keccak256 (drawn ++ sha256 u))) in
  outcome run w = Ok (u, snd wallet, now w)
  ∧ view (exec run w) (AccountModel.key u)
    = Some (VAccount (mkAccount u (snd wallet) (aesEncrypt iv (fst wallet)) (now w))).
Proof.
  intros Hnone Hf. cbv zeta.
  unfold outcome, exec, WalletService.generateAccount, bind.
  rewrite findByUsername_eq, Hnone. cbv beta iota.
  unfold WalletService.createRandom, encrypt, randomBytes, AccountModel.create,
    bind, ret, gets, modify.
  world_simpl. rewrite random_warm, now_warm.
  rewrite put_eq. world_simpl. rewrite faults_warm, Hf. world_simpl.
  split; [reflexivity|]. unfold commit, view. world_simpl.
  by rewrite lookup_insert_eq.
Qed.

Lemma generateAccount_existing_witness :
  let w := exec (@WalletService.generateAccount toy_library "alice") (world_random [7]) in
  outcome (@WalletService.generateAccount toy_library "alice") w
  = Ok ("alice", "0x9304595970494411110326649421962412032", 0).
Proof.
  cbv zeta.
  apply (@generateAccount_existing toy_library _ "alice"
           (mkAccount "alice" "0x9304595970494411110326649421962412032"
              "0:priv9304595970494411110326649421962412032" 0)).
  vm_compute. reflexivity.
Defined.

(** * The deposit state machine *)

Lemma preserves_bind_hoare {A B} (P : World → Prop) (m : M A) (Q : A → Prop)
    (k : A → M B) :
  hoare P m Q → (∀ a, Q a → preserves P (k a)) → preserves P (bind m k).
Proof.
  intros Hm Hk w Hw. destruct (Hm w Hw) as [HP HQ].
  unfold exec, outcome, bind in *.
  destruct (m w) as [[a|e] w']; [|done]. apply Hk; [by apply HQ|done].
Qed.

Lemma hoare_findById txHash :
  hoare (moved_on txHash) (DepositModel.findById txHash)
    (λ found, ∀ d, found = Some d → dep_status d ≠ pending).
Proof.
  intros w Hw. split.
  - assert (Hp : preserves (moved_on txHash) (DepositModel.findById txHash)).
    { unfold DepositModel.findById.
      apply preserves_bind; [apply inv_get|intros; apply preserves_ret]. }
    by apply Hp.
  - unfold outcome, DepositModel.findById, bind, ret. rewrite get_eq.
    cbv beta iota. intros found [= <-] d Hd.
    unfold view in Hd. destruct Hw as [Hdisk Hcache].
    destruct (cache w !! DepositModel.key txHash) as [v|] eqn:Hc.
    + destruct v; try discriminate. injection Hd as ->.
      by apply (Hcache _ _ eq_refl Hc).
    + destruct (disk w !! DepositModel.key txHash) as [v|] eqn:Hdk;
        [|discriminate].
      destruct v; try discriminate. injection Hd as ->.
      by apply (Hdisk _ _ eq_refl Hdk).
Qed.

Ltac moved_value :=
  cbn;
  first [ exact I | discriminate
        | match goal with H : ∀ d, Some _ = Some d → _ |- _ => by apply H end ].
Ltac moved_step :=
  lazymatch goal with
  | |- preserves _ (bind (DepositModel.findById _) _) =>
      eapply preserves_bind_hoare; [apply hoare_findById|intros [?|] ?]
  | |- _ => inv_step moved_value
  end.

Lemma moved_on_processDeposit `{Library} ch txHash network currency :
  preserves (moved_on txHash)
    (IndexerService.processDeposit ch txHash network currency).
Proof.
  unfold IndexerService.processDeposit, IndexerService.assign,
    IndexerService.credit, BalanceModel.getBalance, BalanceModel.updateBalance,
    TransactionService.transferToHotWallet, WalletService.getPrivateKey, decrypt,
    AccountModel.findByUsername, IndexerService.retire,
    TransactionService.cleanupGasFundingTx, TransactionService.isGasFundingTx,
    IndexerService.getNumber, DepositModel.update.
  repeat moved_step.
Qed.




(** * Observations through the primitives *)

Lemma pendingQueues_warm key w : pendingQueues (warm key w) = pendingQueues w.
Proof. unfold warm. by repeat case_match. Qed.

Lemma obs_warm k' w k : obs (warm k' w) k = obs w k.
Proof. unfold obs. by rewrite disk_warm, view_warm, journal_warm. Qed.

Lemma puts_at_snoc_eq k v j : puts_at k (j ++ [JPut k v]) = puts_at k j ++ [v].
Proof. unfold puts_at. rewrite omap_app. cbn. by rewrite decide_True. Qed.
Lemma puts_at_snoc_ne k k' v j : k' ≠ k → puts_at k (j ++ [JPut k' v]) = puts_at k j.
Proof.
  intros. unfold puts_at. rewrite omap_app. cbn.
  rewrite decide_False by done. by rewrite app_nil_r.
Qed.
Lemma puts_at_snoc_del k k' j : puts_at k (j ++ [JDel k']) = puts_at k j.
Proof. unfold puts_at. rewrite omap_app. cbn. by rewrite app_nil_r. Qed.

Lemma obs_commit_eq k v w :
  obs (commit k v w) k = (Some v, Some v, puts_at k (journal w) ++ [v]).
Proof.
  unfold obs. rewrite view_commit, disk_commit, lookup_insert_eq.
  unfold commit. world_simpl. by rewrite puts_at_snoc_eq.
Qed.
Lemma obs_commit_ne k k' v w : k' ≠ k → obs (commit k' v w) k = obs w k.
Proof.
  intros. unfold obs. rewrite view_commit_ne, disk_commit, lookup_insert_ne by done.
  unfold commit. world_simpl. by rewrite puts_at_snoc_ne.
Qed.
Lemma obs_commit_del_ne k k' w : k' ≠ k → obs (commit_del k' w) k = obs w k.
Proof.
  intros. unfold obs, view, commit_del. world_simpl.
  rewrite !lookup_delete_ne by done. by rewrite puts_at_snoc_del.
Qed.
Lemma obs_assign_ne k k' v w : k' ≠ k → obs (set_cache (insert k' v) w) k = obs w k.
Proof. intros. unfold obs, view. world_simpl. by rewrite lookup_insert_ne. Qed.
Lemma obs_assign_eq k v w :
  obs (set_cache (insert k v) w) k = (disk w !! k, Some v, puts_at k (journal w)).
Proof. unfold obs, view. world_simpl. by rewrite lookup_insert_eq. Qed.

Lemma put_ok key v w : faults w = [] → db.put key v w = (Ok tt, commit key v w).
Proof. intros Hf. by rewrite put_eq, Hf. Qed.
Lemma del_ok key w : faults w = [] → db.del key w = (Ok tt, commit_del key w).
Proof. intros Hf. by rewrite del_eq, Hf. Qed.

(** ** Frames *)

Section framed.
Context (K : string → Prop) (w0 : World).
Local Abbreviation F := (framed K w0).

Lemma framed_get key : preserves F (db.get key).
Proof.
  intros w (Hf & Hq & Ho). unfold exec. rewrite get_eq. world_simpl.
  split_and!; [by rewrite faults_warm|by rewrite pendingQueues_warm|].
  intros k Hk. rewrite obs_warm. by apply Ho.
Qed.
Lemma framed_put key v : (∀ k, K k → key ≠ k) → preserves F (db.put key v).
Proof.
  intros Hne w (Hf & Hq & Ho). unfold exec. rewrite put_ok by done. world_simpl.
  split_and!; [done|done|]. intros k Hk. rewrite obs_commit_ne by auto. by apply Ho.
Qed.
Lemma framed_del key : (∀ k, K k → key ≠ k) → preserves F (db.del key).
Proof.
  intros Hne w (Hf & Hq & Ho). unfold exec. rewrite del_ok by done. world_simpl.
  split_and!; [done|done|]. intros k Hk. rewrite obs_commit_del_ne by auto.
  by apply Ho.
Qed.
Lemma framed_modify f :
  (∀ w, disk (f w) = disk w ∧ cache (f w) = cache w ∧ journal (f w) = journal w
        ∧ faults (f w) = faults w ∧ pendingQueues (f w) = pendingQueues w) →
  preserves F (modify f).
Proof.
  intros Hf. apply preserves_modify. intros w (Hfa & Hq & Ho).
  destruct (Hf w) as (Ed & Ec & Ej & Efa & Eq).
  split_and!; [congruence|congruence|]. intros k Hk. rewrite <- (Ho k Hk).
  unfold obs, view. by rewrite Ed, Ec, Ej.
Qed.
Lemma framed_network_config n : preserves F (network_config n).
Proof. unfold network_config. destruct (networks !! n); pres_step. Qed.
End framed.

Ltac framed_step tac :=
  lazymatch goal with
  | |- preserves _ (db.get _) => apply framed_get
  | |- preserves _ (db.put _ _) => apply framed_put; tac
  | |- preserves _ (db.del _) => apply framed_del; tac
  | |- preserves _ (network_config _) => apply framed_network_config
  | |- preserves _ (modify _) =>
      apply framed_modify; intros; split_and!; reflexivity
  | |- _ => pres_step
  end.

(** ** Keys of different tables differ *)

Ltac key_ne :=
  let H := fresh in
  intros H;
  unfold TransactionService.gasFundingKey, DepositModel.key, BalanceModel.key,
    IndexerService.startBlockKey, AccountModel.key, WithdrawalModel.key,
    BucketModel.key, BlockCacheModel.key, IndexerService.lastProcessedKey in H;
  vm_compute in H; discriminate H.

Lemma gas_ne_deposit h t : TransactionService.gasFundingKey h ≠ DepositModel.key t.
Proof. key_ne. Qed.
Lemma gas_ne_balance h u c cur :
  TransactionService.gasFundingKey h ≠ BalanceModel.key u c cur.
Proof. key_ne. Qed.
Lemma start_ne_deposit h t : IndexerService.startBlockKey h ≠ DepositModel.key t.
Proof. key_ne. Qed.
Lemma start_ne_balance h u c cur :
  IndexerService.startBlockKey h ≠ BalanceModel.key u c cur.
Proof. key_ne. Qed.
Lemma deposit_ne_balance t u c cur : DepositModel.key t ≠ BalanceModel.key u c cur.
Proof. key_ne. Qed.
Lemma deposit_ne_start t h : DepositModel.key t ≠ IndexerService.startBlockKey h.
Proof. key_ne. Qed.

(** ** The sweep and the retirement leave deposits and balances alone *)

Lemma sweep_framed `{Library} ch d w :
  faults w = [] →
  framed not_gas w (exec (TransactionService.transferToHotWallet ch d) w).
Proof.
  intros Hf.
  assert (Hp : preserves (framed not_gas w)
                 (TransactionService.transferToHotWallet ch d)).
  { unfold TransactionService.transferToHotWallet, WalletService.getPrivateKey,
      decrypt, AccountModel.findByUsername.
    repeat framed_step ltac:(intros k Hk Heq; exact (Hk _ (eq_sym Heq))). }
  apply Hp. by split_and!.
Qed.

Lemma retire_ok `{Library} qk txHash q w :
  faults w = [] → pendingQueues w !! qk = Some q →
  outcome (IndexerService.retire qk txHash) w = Ok tt
  ∧ ∀ k, k ≠ IndexerService.startBlockKey txHash →
         k ≠ TransactionService.gasFundingKey txHash →
         obs (exec (IndexerService.retire qk txHash) w) k = obs w k.
Proof.
  intros Hf Hq.
  unfold outcome, exec, IndexerService.retire, IndexerService.queueDelete,
    IndexerService.detached, TransactionService.cleanupGasFundingTx,
    TransactionService.isGasFundingTx, bind, modify, gets.
  rewrite Hq. cbv beta iota. rewrite del_ok by done. cbv beta iota.
  match goal with |- context [bool_decide ?P] => destruct (bool_decide P) end;
    cbv beta iota.
  - rewrite del_ok by done. world_simpl. split; [done|]. intros k Hk1 Hk2.
    rewrite obs_commit_del_ne by done.
    transitivity (obs (commit_del (IndexerService.startBlockKey txHash)
                         (set_processedTransactions (λ s, {[txHash]} ∪ s)
                            (set_pendingQueues (insert qk (q ∖ {[txHash]})) w))) k);
      [reflexivity|]. by rewrite obs_commit_del_ne.
  - unfold ret. world_simpl. split; [done|]. intros k Hk1 Hk2.
    by rewrite obs_commit_del_ne.
Qed.

(** * The ledger credit of a deposit *)

Lemma DepositModel_findById_eq t w :
  DepositModel.findById t w
  = (Ok (match view w (DepositModel.key t) with
         | Some (VDeposit d) => Some d
         | _ => None
         end), warm (DepositModel.key t) w).
Proof. unfold DepositModel.findById, bind, ret. by rewrite get_eq. Qed.

Lemma getNumber_eq k w :
  IndexerService.getNumber k w
  = (Ok (match view w k with Some (VNum n) => Some n | _ => None end), warm k w).
Proof. unfold IndexerService.getNumber, bind, ret. by rewrite get_eq. Qed.

Lemma obs_view w k : (obs w k).1.2 = view w k.
Proof. reflexivity. Qed.

Lemma credit_ok d w :
  faults w = [] →
  let b := balanceOf w (dep_username d) (dep_blockchain d) (dep_currency d) in
  0 ≤ bal_amount b + dep_amount d → 0 ≤ bal_frozenAmount b →
  IndexerService.credit d w
  = (Ok tt,
     commit (BalanceModel.key (dep_username d) (dep_blockchain d) (dep_currency d))
       (VBalance (mkBalance (dep_username d) (dep_blockchain d) (dep_currency d)
                    (bal_amount b + dep_amount d) (bal_frozenAmount b)))
       (warm (BalanceModel.key (dep_username d) (dep_blockchain d) (dep_currency d)) w)).
Proof.
  intros Hf b Ha Hfr. unfold IndexerService.credit, bind.
  rewrite getBalance_eq. cbv beta iota zeta. fold b.
  rewrite updateBalance_eq.
  cbn [bal_amount bal_frozenAmount bal_username bal_blockchain bal_currency].
  destruct (Z.ltb_spec (bal_amount b + dep_amount d) 0); [lia|].
  destruct (Z.ltb_spec (bal_frozenAmount b) 0); [lia|].
  by rewrite put_ok by (by rewrite faults_warm).
Qed.

(** ** Running a task step by step *)

Lemma bind_app {A B} (m : M A) (k : A → M B) w :
  bind m k w = match m w with
               | (Ok a, w') => k a w'
               | (Throw e, w') => (Throw e, w')
               end.
Proof. reflexivity. Qed.
Lemma ret_app {A} (a : A) w : ret a w = (Ok a, w).
Proof. reflexivity. Qed.
Lemma throw_app {A} e w : @throw A e w = (Throw e, w).
Proof. reflexivity. Qed.
Lemma modify_app f w : modify f w = (Ok tt, f w).
Proof. reflexivity. Qed.
Lemma lift_app {A} (r : Result A) w : lift r w = (r, w).
Proof. reflexivity. Qed.
Lemma gets_app {A} (f : World → A) w : gets f w = (Ok (f w), w).
Proof. reflexivity. Qed.
Lemma assign_app t d w :
  IndexerService.assign t d w
  = (Ok tt, set_cache (insert (DepositModel.key t) (VDeposit d)) w).
Proof. reflexivity. Qed.
Lemma update_app d w :
  DepositModel.update d w = db.put (DepositModel.key (dep_id d)) (VDeposit d) w.
Proof. reflexivity. Qed.

Ltac run_step :=
  rewrite ?bind_app, ?ret_app, ?throw_app, ?modify_app, ?lift_app, ?gets_app,
    ?assign_app, ?update_app, ?DepositModel_findById_eq, ?getNumber_eq;
  cbv beta iota.
Ltac run := repeat (progress run_step).

Lemma obs_store_deposit t d' w :
  dep_id d' = t → faults w = [] →
  ∃ w1, (IndexerService.assign t d' ;; DepositModel.update d') (warm (DepositModel.key t) w)
        = (Ok tt, w1)
        ∧ faults w1 = [] ∧ pendingQueues w1 = pendingQueues w
        ∧ obs w1 (DepositModel.key t)
          = (Some (VDeposit d'), Some (VDeposit d'),
             puts_at (DepositModel.key t) (journal w) ++ [VDeposit d'])
        ∧ ∀ k, DepositModel.key t ≠ k → obs w1 k = obs w k.
Proof.
  intros Hid Hf. eexists. run. rewrite Hid.
  rewrite put_ok by (world_simpl; by rewrite faults_warm).
  split; [reflexivity|]. split_and!.
  - rewrite faults_commit. world_simpl. by rewrite faults_warm.
  - unfold commit. world_simpl. by rewrite pendingQueues_warm.
  - rewrite obs_commit_eq. world_simpl. by rewrite journal_warm.
  - intros k Hk. rewrite obs_commit_ne, obs_assign_ne by done. apply obs_warm.
Qed.




Lemma generateAccount_fresh_witness :
  outcome (@WalletService.generateAccount toy_library "alice") (world_random [7])
  = Ok ("alice", "0x9304595970494411110326649421962412032", 0).
Proof.
  apply (@generateAccount_fresh toy_library (world_random [7]) "alice");
    vm_compute; reflexivity.
Defined.

(** C9 as stated fails: the wallet is drawn from the random source, with
    the hash of the username only mixed in. Two runs for the same username
    that draw different random bytes give different keys and addresses. *)
Lemma generateAccount_not_deterministic_example :
  let a1 := outcome (@WalletService.generateAccount toy_library "alice") (world_random [1]) in
  let a2 := outcome (@WalletService.generateAccount toy_library "alice") (world_random [2]) in
  a1 = Ok ("alice", "0x1329227995784915872903807060280344576", 0)
  ∧ a2 = Ok ("alice", "0x2658455991569831745807614120560689152", 0)
  ∧ a1 ≠ a2.
Proof. vm_compute. repeat split; [reflexivity..|discriminate]. Qed.

(** * Block recovery *)

Lemma preserves_for_each_in {A} (P : World → Prop) (xs : list A) body :
  (∀ x, x ∈ xs → preserves P (body x)) → preserves P (for_each xs body).
Proof.
  induction xs as [|x xs IH]; intros Hb; [apply preserves_ret|].
  apply preserves_bind; [apply Hb; by left|intros _].
  apply IH. intros y Hy. apply Hb. by right.
Qed.

Section keeps.
Context (key : string) (w0 : World).

Lemma keeps_get k : preserves (keeps key w0) (db.get k).
Proof.
  intros w Hw. unfold exec, keeps. rewrite get_eq. world_simpl.
  by rewrite obs_warm.
Qed.
Lemma keeps_put k v : k ≠ key → preserves (keeps key w0) (db.put k v).
Proof.
  intros Hne w Hw. unfold exec, keeps. rewrite put_eq.
  destruct (faults w) as [|[] fs]; world_simpl; try done;
    by rewrite obs_commit_ne.
Qed.
End keeps.

Lemma elem_of_range from to j : j ∈ IndexerService.range from to → from ≤ j ≤ to.
Proof.
  unfold IndexerService.range. rewrite list_elem_of_fmap.
  intros (k & -> & Hk). apply elem_of_seq in Hk. lia.
Qed.

Lemma block_key_inj network i j :
  BlockCacheModel.key (IndexerService.blockId network i)
  = BlockCacheModel.key (IndexerService.blockId network j) → i = j.
Proof.
  unfold BlockCacheModel.key, IndexerService.blockId. intros Heq.
  apply (inj (String.app "blockCache:")) in Heq.
  apply (inj (String.app network)) in Heq.
  apply (inj (String.app ":")) in Heq.
  by apply (inj pretty) in Heq.
Qed.

Lemma last_ne_block network id :
  IndexerService.lastProcessedKey network ≠ BlockCacheModel.key id.
Proof. key_ne. Qed.

Lemma keeps_processBlock ch network j ki w0 :
  BlockCacheModel.key (IndexerService.blockId network j) ≠ ki →
  IndexerService.lastProcessedKey network ≠ ki →
  preserves (keeps ki w0) (IndexerService.processBlock ch network j).
Proof.
  intros Hj Hl. unfold IndexerService.processBlock, BlockCacheModel.create.
  apply preserves_try_catch; [|intros; apply preserves_ret].
  apply preserves_bind; [apply preserves_lift|intros block].
  apply preserves_bind; [apply preserves_gets|intros t].
  apply preserves_bind; [by apply keeps_put|intros _]. by apply keeps_put.
Qed.

Lemma hoare_find_block id ki w0 :
  hoare (keeps ki w0) (BlockCacheModel.findById id)
    (λ found, BlockCacheModel.key id = ki →
              (∃ b, view w0 ki = Some (VBlock b)) → is_Some found).
Proof.
  intros w Hw. split.
  - assert (Hp : preserves (keeps ki w0) (BlockCacheModel.findById id)).
    { unfold BlockCacheModel.findById.
      apply preserves_bind; [apply keeps_get|intros; apply preserves_ret]. }
    by apply Hp.
  - unfold outcome, BlockCacheModel.findById. rewrite bind_app, get_eq.
    cbv beta iota. rewrite ret_app. intros found [= <-] Hk [b Hb].
    rewrite Hk. change (view w ki) with (obs w ki).1.2.
    unfold keeps in Hw. rewrite Hw. cbn [fst snd obs]. rewrite Hb. by eexists.
Qed.

(** C8, as the code has it. One firing of the recovery task leaves a
    block alone (its cache entry, the value on disk and the list of its
    ingestions are unchanged) when the block has a cache entry, or lies
    outside the window from max(last_processed - 1000, 0) to the head, or
    when the head is not beyond last_processed. Blocks inside the window
    without a cache entry are fetched and cached, whether or not their
    number is above last_processed. *)
Theorem blockRecovery_spec (ch : Chain) (network : string) (w : World) (i : Z) :
  let last := lastProcessed w network in
  let start := Z.max (last - IndexerService.RECOVERY_LOOKBACK_BLOCKS) 0 in
  let key := BlockCacheModel.key (IndexerService.blockId network i) in
  (is_Some (cachedBlock w network i)
   ∨ ∀ head, getBlockNumber ch = Ok head → head ≤ last ∨ i < start ∨ head < i) →
  let w' := exec (IndexerService.blockRecovery ch network) w in
  cachedBlock w' network i = cachedBlock w network i
  ∧ disk w' !! key = disk w !! key
  ∧ ingestions w' network i = ingestions w network i.
Proof.
  cbv zeta. intros Hcase.
  set (ki := BlockCacheModel.key (IndexerService.blockId network i)).
  assert (Hkeeps : keeps ki w (exec (IndexerService.blockRecovery ch network) w)).
  { unfold exec, IndexerService.blockRecovery, try_catch.
    rewrite bind_app, lift_app.
    destruct (getBlockNumber ch) as [head|e] eqn:Hhead; cbv beta iota;
      [|by rewrite ret_app].
    rewrite bind_app, getNumber_eq. cbv beta iota. fold (lastProcessed w network).
    destruct (Z.leb_spec head (lastProcessed w network)) as [Hle|Hlt].
    { rewrite ret_app. world_simpl. unfold keeps. by rewrite obs_warm. }
    set (w1 := warm (IndexerService.lastProcessedKey network) w).
    assert (Hw1 : keeps ki w w1) by apply obs_warm.
    assert (Hloop : ∀ j,
      j ∈ IndexerService.range
            (Z.max (lastProcessed w network - IndexerService.RECOVERY_LOOKBACK_BLOCKS) 0)
            head →
      preserves (keeps ki w)
        (λ w2, (let* cached := BlockCacheModel.findById (IndexerService.blockId network j) in
                match cached with
                | Some _ => ret tt
                | None => IndexerService.processBlock ch network j
                end) w2)).
    { intros j Hj%elem_of_range.
      eapply preserves_bind_hoare; [apply hoare_find_block|].
      intros [b|] HQ; [apply preserves_ret|].
      apply keeps_processBlock; [|apply last_ne_block].
      intros Heq. destruct Hcase as [Hc|Hout].
      - destruct (HQ Heq) as [? [=]].
        unfold cachedBlock in Hc. fold ki in Hc.
        destruct (view w ki) as [[]|]; try by destruct Hc as [? [=]]. by eexists.
      - apply block_key_inj in Heq as ->.
        destruct (Hout head eq_refl) as [?|[?|?]]; lia. }
    pose proof (preserves_for_each_in _ _ _ Hloop w1 Hw1) as Hfin.
    unfold exec in Hfin.
    destruct (for_each _ _ w1) as [[[]|e] w2]; world_simpl; [done|].
    by rewrite ret_app. }
  unfold keeps, obs in Hkeeps. injection Hkeeps as Hd Hv Hp.
  unfold cachedBlock, ingestions. fold ki. by rewrite Hd, Hv, Hp.
Qed.

Lemma blockRecovery_spec_witness :
  ingestions (exec (IndexerService.blockRecovery (chain_ok 101) "mind") world_scanned)
    "mind" 100
  = ingestions world_scanned "mind" 100.
Proof.
  apply (blockRecovery_spec (chain_ok 101) "mind" world_scanned 100).
  left. vm_compute. eexists. reflexivity.
Defined.

(** C8 as stated fails: block 50 was ingested and scanned (the block
    processor deletes the cache entry of a scanned block), and
    last_processed is 100. At head 101 the recovery task fetches and
    caches block 50 a second time, although 50 <= last_processed. *)
Lemma blockRecovery_reingests_example :
  let w := world_scanned in
  let w' := exec (IndexerService.blockRecovery (chain_ok 101) "mind") w in
  lastProcessed w "mind" = 100
  ∧ ingestions w "mind" 50 = 1%nat
  ∧ cachedBlock w "mind" 50 = None
  ∧ ingestions w' "mind" 50 = 2%nat
  ∧ bc_blockNumber <$> cachedBlock w' "mind" 50 = Some 50.
Proof. vm_compute. repeat split; reflexivity. Qed.

(** * Bucket settlement *)

(** C2 on two executions of [processBucket] for the bucket holding
    Alice's and Bob's withdrawals (11.00 reserved each).

    First, the gas price cannot be fetched: both withdrawals are left in
    [processing] and both reservations stay frozen; neither [unfreeze] nor
    [settle] is applied.

    Second, the batch succeeds and the write of Bob's settled balance is
    rejected: Alice's withdrawal has been settled (frozen 22.00 -> 11.00)
    and is then unfrozen by the error handler as well (available
    78.00 -> 89.00, frozen -> 0.00), and stored as [failed] with the hash
    of the batch that paid it. *)
Lemma processBucket_settlement_example :
  let w := world_withdrawals in
  let v := exec (BatchProcessorService.processBucket (chain_down 0) "mind:MIND:0") w in
  let w' := exec (BatchProcessorService.processBucket (chain_ok 0) "mind:MIND:0")
              (with_faults [false; false; false; false; true] w) in
  storedBalance w "alice" "mind" "MIND" = Some (alice_mind 7800 2200)
  ∧ storedBalance w "bob" "mind" "MIND" = Some (bob_mind 3900 1100)
  ∧ wd_status <$> storedWithdrawal v "w1" = Some processing
  ∧ wd_status <$> storedWithdrawal v "w2" = Some processing
  ∧ storedBalance v "alice" "mind" "MIND" = Some (alice_mind 7800 2200)
  ∧ storedBalance v "bob" "mind" "MIND" = Some (bob_mind 3900 1100)
  ∧ drop 3 (balanceWrites w' "alice" "mind" "MIND")
    = [VBalance (alice_mind 7800 1100); VBalance (alice_mind 8900 0)]
  ∧ wd_status <$> storedWithdrawal w' "w1" = Some wd_failed
  ∧ wd_txHash <$> storedWithdrawal w' "w1" = Some (Some "0xbatch")
  ∧ wd_status <$> storedWithdrawal w' "w3" = Some added_to_bucket.
Proof. vm_compute. repeat split; reflexivity. Qed.

(** * The store behind its cache *)

Lemma coherent_view w key : coherent w → view w key = disk w !! key.
Proof.
  intros Hc. unfold view. destruct (cache w !! key) eqn:E; [|done].
  symmetry. by apply Hc.
Qed.

Lemma coherent_warm key w : coherent w → coherent (warm key w).
Proof.
  intros Hc k v. unfold warm.
  destruct (cache w !! key) eqn:E1; [apply Hc|].
  destruct (disk w !! key) eqn:E2; [|apply Hc].
  world_simpl. destruct (decide (key = k)) as [->|Hne].
  - rewrite lookup_insert_eq. congruence.
  - rewrite lookup_insert_ne by done. apply Hc.
Qed.

Lemma coherent_commit key v w : coherent w → coherent (commit key v w).
Proof.
  intros Hc k x. unfold commit. world_simpl.
  destruct (decide (key = k)) as [->|Hne].
  - by rewrite !lookup_insert_eq.
  - rewrite !lookup_insert_ne by done. apply Hc.
Qed.

Lemma coherent_commit_del key w : coherent w → coherent (commit_del key w).
Proof.
  intros Hc k x. unfold commit_del. world_simpl.
  destruct (decide (key = k)) as [->|Hne].
  - by rewrite !lookup_delete_eq.
  - rewrite !lookup_delete_ne by done. apply Hc.
Qed.

Lemma coherent_set_faults f w : coherent w → coherent (set_faults f w).
Proof. done. Qed.

Lemma coherent_apply ops w :
  coherent w → coherent (foldl Database.apply w ops).
Proof.
  revert w. induction ops as [|[k v|k] ops IH]; intros w Hc; [done|..];
    apply IH; [by apply coherent_commit|by apply coherent_commit_del].
Qed.

Lemma batch_eq ops w :
  Database.batch ops w =
    match faults w with
    | true :: fs => (Throw StoreError, set_faults (λ _, fs) w)
    | false :: fs => (Ok tt, foldl Database.apply (set_faults (λ _, fs) w) ops)
    | [] => (Ok tt, foldl Database.apply w ops)
    end.
Proof.
  unfold Database.batch, db.attempt, bind, modify.
  destruct (faults w) as [|[] fs]; reflexivity.
Qed.

Lemma coherent_get key : preserves coherent (db.get key).
Proof. intros w Hc. unfold exec. rewrite get_eq. by apply coherent_warm. Qed.
Lemma coherent_put key v : preserves coherent (db.put key v).
Proof.
  intros w Hc. unfold exec. rewrite put_eq.
  destruct (faults w) as [|[] fs]; world_simpl; try done;
    by apply coherent_commit.
Qed.
Lemma coherent_del key : preserves coherent (db.del key).
Proof.
  intros w Hc. unfold exec. rewrite del_eq.
  destruct (faults w) as [|[] fs]; world_simpl; try done;
    by apply coherent_commit_del.
Qed.
Lemma coherent_batch ops : preserves coherent (Database.batch ops).
Proof.
  intros w Hc. unfold exec. rewrite batch_eq.
  destruct (faults w) as [|[] fs]; world_simpl; try done;
    by apply coherent_apply.
Qed.
Lemma coherent_iterator prefix : preserves coherent (Database.iterator prefix).
Proof. by intros w Hc. Qed.

Lemma coherent_run_store op : preserves coherent (run_store op).
Proof.
  unfold run_store. apply preserves_try_catch; [|intros; apply preserves_ret].
  destruct op.
  - apply preserves_bind; [apply coherent_get|intros; apply preserves_ret].
  - apply coherent_put.
  - apply coherent_del.
  - apply coherent_batch.
  - apply preserves_bind; [apply coherent_iterator|intros; apply preserves_ret].
Qed.

(** X1. Whatever gets, puts, deletes, batches and iterations were made,
    and whichever writes were rejected, the cache of [Database] holds
    nothing that LevelDB does not hold: a read returns exactly the value
    LevelDB has for the key (null when it has none). *)
Theorem store_reads_what_is_stored (ops : list StoreOp) (w : World) :
  coherent w →
  let w' := exec (for_each ops run_store) w in
  coherent w' ∧ ∀ key, outcome (db.get key) w' = Ok (disk w' !! key).
Proof.
  intros Hc. cbv zeta.
  assert (Hc' : coherent (exec (for_each ops run_store) w)).
  { apply preserves_for_each; [|done]. intros op. apply coherent_run_store. }
  split; [done|]. intros key. unfold outcome. rewrite get_eq. cbn [fst].
  by rewrite coherent_view.
Qed.

Lemma store_reads_what_is_stored_witness :
  let ops := [SPut "a" (VNum 1); SGet "a"; SBatch [Database.BDel "a"; Database.BPut "b" (VNum 2)];
              SPut "c" (VNum 3); SIterate "a"; SDel "b"] in
  let w' := exec (for_each ops run_store) (with_faults [false; false; true] emptyWorld) in
  coherent w' ∧ ∀ key, outcome (db.get key) w' = Ok (disk w' !! key).
Proof.
  apply (store_reads_what_is_stored _ (with_faults [false; false; true] emptyWorld)).
  intros k v H. cbn in H. by rewrite lookup_empty in H.
Defined.

(** * Expired blocks *)

Lemma iterator_eq prefix w :
  Database.iterator prefix w
  = (Ok (merge_sort Database.keyLe
           (filter (λ kv, String.prefix prefix kv.1 = true) (map_to_list (disk w)))), w).
Proof. reflexivity. Qed.

Lemma now_apply ops w : now (foldl Database.apply w ops) = now w.
Proof.
  revert w. induction ops as [|[k v|k] ops IH]; intros w; [done|..];
    cbn [foldl]; by rewrite IH.
Qed.

Lemma disk_apply_dels ks w k :
  disk (foldl Database.apply w (Database.BDel <$> ks)) !! k
  = if decide (k ∈ ks) then None else disk w !! k.
Proof.
  revert w. induction ks as [|k0 ks IH]; intros w.
  { by rewrite decide_False by apply not_elem_of_nil. }
  cbn [fmap list_fmap foldl Database.apply]. rewrite IH.
  destruct (decide (k ∈ ks)) as [Hin|Hout].
  { by rewrite decide_True by (by right). }
  unfold commit_del. world_simpl.
  destruct (decide (k = k0)) as [->|Hne].
  - rewrite decide_True by left. apply lookup_delete_eq.
  - rewrite decide_False by (by intros [?|?]%elem_of_cons).
    by apply lookup_delete_ne.
Qed.

Lemma map_to_list_filter_perm {A} (P : string * A → Prop) `{∀ x, Decision (P x)}
    (m : gmap string A) :
  map_to_list (filter P m) ≡ₚ filter P (map_to_list m).
Proof.
  apply NoDup_Permutation.
  - apply NoDup_map_to_list.
  - apply NoDup_filter, NoDup_map_to_list.
  - intros [k v]. rewrite elem_of_map_to_list, map_lookup_filter_Some,
      list_elem_of_filter, elem_of_map_to_list. tauto.
Qed.

(** The keys the clean-up deletes are the keys of the expired blocks. *)
Lemma cleanup_keys network t (m : gmap string Value) k :
  (∀ k b, m !! k = Some (VBlock b) → k = BlockCacheModel.key (bc_id b)) →
  k ∈ (λ b, BlockCacheModel.key (bc_id b))
        <$> filter (λ b, bc_expiresAt b ≤ t)
              (models.blocksOf
                 (merge_sort Database.keyLe
                    (filter (λ kv, String.prefix ("blockCache:" +:+ network +:+ ":") kv.1 = true)
                       (map_to_list m))))
  ↔ ∃ v, m !! k = Some v ∧ expiredBlock network t (k, v).
Proof.
  intros Hkeyed. rewrite list_elem_of_fmap. split.
  - intros (b & -> & [Hexp Hin]%list_elem_of_filter).
    unfold models.blocksOf in Hin.
    apply list_elem_of_omap in Hin as ([k' v] & Hin & Hv).
    rewrite merge_sort_Permutation in Hin.
    apply list_elem_of_filter in Hin as [Hp Hin].
    apply elem_of_map_to_list in Hin. cbn in Hv, Hp.
    destruct v; try discriminate. injection Hv as ->.
    pose proof (Hkeyed _ _ Hin) as ->.
    exists (VBlock b). by repeat split.
  - intros (v & Hv & Hp & Hexp). cbn in Hp, Hexp.
    destruct v as [| | | | |b| |]; try done.
    exists b. split; [by apply Hkeyed|].
    apply list_elem_of_filter. split; [done|].
    apply list_elem_of_omap. exists (k, VBlock b). split; [|done].
    rewrite merge_sort_Permutation. apply list_elem_of_filter. split; [done|].
    by apply elem_of_map_to_list.
Qed.

(** What one clean-up does to the world. *)
Lemma cleanupExpired_run network w :
  blocks_keyed w →
  let r := models.BlockCacheModel_cleanupExpired network w in
  now r.2 = now w
  ∧ match r.1 with
    | Ok _ => disk r.2 = filter (λ kv, ¬ expiredBlock network (now w) kv) (disk w)
    | Throw _ => disk r.2 = disk w
    end
  ∧ ((∀ k v, disk w !! k = Some v → ¬ expiredBlock network (now w) (k, v)) → r.2 = w).
Proof.
  intros Hkeyed. cbv zeta.
  unfold models.BlockCacheModel_cleanupExpired.
  rewrite bind_app, iterator_eq. cbv beta iota.
  rewrite bind_app, gets_app. cbv beta iota.
  assert (Hops : ∀ (bs : list BlockCache),
    (λ b, Database.BDel (BlockCacheModel.key (bc_id b))) <$> bs
    = Database.BDel <$> ((λ b, BlockCacheModel.key (bc_id b)) <$> bs)).
  { intros bs. by rewrite <- list_fmap_compose. }
  rewrite Hops.
  set (ks := (λ b : BlockCache, BlockCacheModel.key (bc_id b)) <$> _).
  assert (Hks : ∀ k, k ∈ ks ↔ ∃ v, disk w !! k = Some v ∧ expiredBlock network (now w) (k, v))
    by (intros k; by apply cleanup_keys).
  rewrite length_fmap.
  assert (Hfilter : ∀ w0, disk w0 = disk w →
    disk (foldl Database.apply w0 (Database.BDel <$> ks))
    = filter (λ kv, ¬ expiredBlock network (now w) kv) (disk w)).
  { intros w0 Hw0. apply map_eq. intros k. rewrite disk_apply_dels, Hw0.
    destruct (decide (k ∈ ks)) as [Hin|Hout].
    - symmetry. apply map_lookup_filter_None. right. intros v Hv Hn.
      apply Hks in Hin as (v' & Hv' & He). rewrite Hv in Hv'. by injection Hv' as <-.
    - destruct (disk w !! k) as [v|] eqn:Hv.
      + symmetry. apply map_lookup_filter_Some. split; [done|].
        intros He. apply Hout, Hks. by exists v.
      + symmetry. apply map_lookup_filter_None. by left. }
  destruct (Z.ltb_spec 0 (Z.of_nat (length ks))) as [Hpos|Hzero].
  - rewrite batch_eq.
    destruct (faults w) as [|[] fs]; cbn [fst snd].
    + rewrite now_apply. repeat split; [by apply Hfilter|].
      intros Hnone. destruct ks as [|k ks']; [simpl in Hpos; lia|].
      destruct (proj1 (Hks k)) as (v & Hv & He); [left|]. by destruct (Hnone k v).
    + repeat split. intros Hnone. destruct ks as [|k ks']; [simpl in Hpos; lia|].
      destruct (proj1 (Hks k)) as (v & Hv & He); [left|]. by destruct (Hnone k v).
    + rewrite now_apply. repeat split; [by apply Hfilter|].
      intros Hnone. destruct ks as [|k ks']; [simpl in Hpos; lia|].
      destruct (proj1 (Hks k)) as (v & Hv & He); [left|]. by destruct (Hnone k v).
  - rewrite ret_app. cbn [fst snd]. repeat split.
    destruct ks as [|k ks']; [|simpl in Hzero; lia].
    symmetry. apply map_eq. intros k. destruct (disk w !! k) as [v|] eqn:Hv.
    + apply map_lookup_filter_Some. split; [done|]. intros He.
      apply (not_elem_of_nil k), Hks. by exists v.
    + apply map_lookup_filter_None. by left.
Qed.

(** X2. [cleanupExpired] of a network deletes exactly the expired block
    records of that network, in one batch: when it returns normally,
    LevelDB holds what it held minus those records; when the batch is
    rejected, LevelDB is as it was; and when no block has expired, no
    write is attempted and nothing at all changes. *)
Theorem cleanupExpired_spec (network : string) (w : World) :
  blocks_keyed w →
  let run := models.BlockCacheModel_cleanupExpired network in
  (outcome run w = Ok tt →
     disk (exec run w) = filter (λ kv, ¬ expiredBlock network (now w) kv) (disk w))
  ∧ (∀ e, outcome run w = Throw e → disk (exec run w) = disk w)
  ∧ ((∀ k v, disk w !! k = Some v → ¬ expiredBlock network (now w) (k, v)) →
     exec run w = w).
Proof.
  intros Hkeyed. cbv zeta. unfold outcome, exec.
  destruct (cleanupExpired_run network w Hkeyed) as (_ & Hd & Hn).
  destruct (models.BlockCacheModel_cleanupExpired network w) as [[[]|e] w'];
    cbn [fst snd] in *; repeat split; try done; intros; congruence.
Qed.

Lemma blocks_keyed_two_blocks : blocks_keyed world_two_blocks.
Proof.
  intros k b H%elem_of_map_to_list. vm_compute in H.
  repeat (apply elem_of_cons in H as [H|H]; [by simplify_eq|]).
  by apply elem_of_nil in H.
Qed.

Lemma cleanupExpired_spec_witness :
  let run := models.BlockCacheModel_cleanupExpired "mind" in
  disk (exec run world_two_blocks)
  = filter (λ kv, ¬ expiredBlock "mind" (now world_two_blocks) kv) (disk world_two_blocks).
Proof.
  destruct (cleanupExpired_spec "mind" world_two_blocks blocks_keyed_two_blocks)
    as (Hok & _ & _).
  apply Hok. vm_compute. reflexivity.
Defined.

Lemma insertByNumber_perm b bs : BlockCacheModel.insertByNumber b bs ≡ₚ b :: bs.
Proof.
  induction bs as [|b' bs IH]; [done|]. cbn [BlockCacheModel.insertByNumber].
  destruct (bc_blockNumber b <? bc_blockNumber b'); [done|].
  rewrite IH. apply Permutation_swap.
Qed.
Lemma sortByNumber_perm bs : BlockCacheModel.sortByNumber bs ≡ₚ bs.
Proof.
  unfold BlockCacheModel.sortByNumber.
  induction bs as [|b bs IH]; [done|]. cbn [foldr].
  by rewrite insertByNumber_perm, IH.
Qed.

Lemma liveBlocks_eq w network :
  liveBlocks w network
  = BlockCacheModel.sortByNumber
      (filter (λ b, now w < bc_expiresAt b)
         (models.blocksOf
            (filter (λ kv, String.prefix ("blockCache:" +:+ network +:+ ":") kv.1 = true)
               (map_to_list (disk w))))).
Proof. reflexivity. Qed.

(** Dropping the expired blocks of a network from the entries does not
    change which unexpired blocks are found among them. *)
Lemma live_among_unexpired network' t (P : string * Value → Prop)
    `{∀ kv, Decision (P kv)} (E : list (string * Value)) :
  filter (λ b, t < bc_expiresAt b)
    (models.blocksOf (filter P (filter (λ kv, ¬ expiredBlock network' t kv) E)))
  = filter (λ b, t < bc_expiresAt b) (models.blocksOf (filter P E)).
Proof.
  unfold models.blocksOf.
  induction E as [|[k v] E IH]; [done|].
  destruct (decide (expiredBlock network' t (k, v))) as [He|Hn].
  - rewrite (filter_cons_False (λ kv, ¬ expiredBlock network' t kv)) by tauto.
    rewrite IH. destruct He as [_ He]. cbn in He.
    destruct v as [| | | | |b| |]; try done.
    destruct (decide (P (k, VBlock b))).
    + rewrite (filter_cons_True P) by done. cbn [omap list_omap snd].
      rewrite filter_cons_False by lia. done.
    + by rewrite (filter_cons_False P).
  - rewrite (filter_cons_True (λ kv, ¬ expiredBlock network' t kv)) by done.
    destruct (decide (P (k, v))).
    + rewrite !(filter_cons_True P) by done. cbn [omap list_omap].
      destruct (match (k, v).2 with VBlock b => Some b | _ => None end) as [b|];
        [|done].
      destruct (decide (t < bc_expiresAt b)).
      * rewrite !filter_cons_True by done. by rewrite IH.
      * by rewrite !filter_cons_False.
    + by rewrite !(filter_cons_False P).
Qed.

(** X3. Cleaning up the expired blocks of any network changes nothing
    for the block processor: the blocks [getByBlockchain] returns for a
    network are the same before and after the clean-up (up to the order
    of blocks of equal number), whether the batch was committed or
    rejected. *)
Theorem cleanupExpired_keeps_live_blocks (network network' : string) (w : World) :
  blocks_keyed w →
  liveBlocks (exec (models.BlockCacheModel_cleanupExpired network') w) network
  ≡ₚ liveBlocks w network.
Proof.
  intros Hkeyed. rewrite !liveBlocks_eq, !sortByNumber_perm. unfold exec.
  destruct (cleanupExpired_run network' w Hkeyed) as (Hnow & Hd & _).
  destruct (models.BlockCacheModel_cleanupExpired network' w) as [r w'].
  cbn [fst snd] in *. rewrite Hnow.
  destruct r as [[]|e]; rewrite Hd; [|done].
  pose proof (live_among_unexpired network' (now w)
    (λ kv, String.prefix ("blockCache:" +:+ network +:+ ":") kv.1 = true)
    (map_to_list (disk w))) as Hlive.
  unfold models.blocksOf in *. rewrite map_to_list_filter_perm. by rewrite Hlive.
Qed.

Lemma cleanupExpired_keeps_live_blocks_witness :
  liveBlocks (exec (models.BlockCacheModel_cleanupExpired "mind") world_two_blocks) "mind"
  ≡ₚ liveBlocks world_two_blocks "mind".
Proof.
  apply (cleanupExpired_keeps_live_blocks "mind" "mind" world_two_blocks).
  apply blocks_keyed_two_blocks.
Defined.

(** * The history queries *)

Section history.
Context {A : Type} (timestamp : A → Z).

Lemma insertNewestFirst_perm x ys :
  models.insertNewestFirst timestamp x ys ≡ₚ x :: ys.
Proof.
  induction ys as [|y ys IH]; [done|]. cbn [models.insertNewestFirst].
  destruct (timestamp x <? timestamp y); [|done].
  rewrite IH. apply Permutation_swap.
Qed.

Lemma sortNewestFirst_perm xs : models.sortNewestFirst timestamp xs ≡ₚ xs.
Proof.
  unfold models.sortNewestFirst. induction xs as [|x xs IH]; [done|].
  cbn [foldr]. by rewrite insertNewestFirst_perm, IH.
Qed.

Lemma insertNewestFirst_sorted x ys :
  StronglySorted (λ a b, timestamp b ≤ timestamp a) ys →
  StronglySorted (λ a b, timestamp b ≤ timestamp a)
    (models.insertNewestFirst timestamp x ys).
Proof.
  induction 1 as [|y ys Hs IH Hall]; cbn [models.insertNewestFirst].
  { repeat constructor. }
  destruct (Z.ltb_spec (timestamp x) (timestamp y)) as [Hlt|Hge].
  - constructor; [done|]. rewrite insertNewestFirst_perm. constructor; [lia|done].
  - constructor; [by constructor|]. constructor; [done|].
    eapply Forall_impl; [exact Hall|]. cbn. intros. lia.
Qed.

Lemma sortNewestFirst_sorted xs :
  StronglySorted (λ a b, timestamp b ≤ timestamp a)
    (models.sortNewestFirst timestamp xs).
Proof.
  unfold models.sortNewestFirst. induction xs as [|x xs IH]; cbn [foldr].
  - constructor.
  - by apply insertNewestFirst_sorted.
Qed.

Lemma slice_elem_of (xs : list A) s e x : x ∈ models.slice s e xs → x ∈ xs.
Proof.
  unfold models.slice. intros H.
  rewrite <- (take_drop (Z.to_nat (models.toIndex (Z.of_nat (length xs)) (default 0 s))) xs).
  apply elem_of_app. right.
  set (ys := drop _ xs) in *.
  rewrite <- (take_drop (Z.to_nat
    (models.toIndex (Z.of_nat (length xs)) (default 0 e)
     - models.toIndex (Z.of_nat (length xs)) (default 0 s))) ys).
  apply elem_of_app. by left.
Qed.

Lemma slice_sorted (R : relation A) (xs : list A) s e :
  StronglySorted R xs → StronglySorted R (models.slice s e xs).
Proof.
  unfold models.slice. intros H.
  set (k := Z.to_nat (models.toIndex _ (default 0 s))).
  set (n := Z.to_nat _).
  rewrite <- (take_drop k xs) in H. apply StronglySorted_app_1_r in H.
  rewrite <- (take_drop n (drop k xs)) in H. by apply StronglySorted_app_1_l in H.
Qed.

Lemma slice_length (xs : list A) s l :
  0 ≤ l → Z.of_nat (length (models.slice (Some s) (Some (s + l)) xs)) ≤ l.
Proof.
  intros Hl. unfold models.slice, models.toIndex. cbn [from_option id].
  rewrite length_take. set (len := Z.of_nat (length xs)).
  assert (0 ≤ len) by lia.
  destruct (Z.ltb_spec s 0), (Z.ltb_spec (s + l) 0); lia.
Qed.

(** A page that starts at a non-negative index. *)
Lemma slice_page (xs : list A) (s l : nat) :
  models.slice (Some (Z.of_nat s)) (Some (Z.of_nat s + Z.of_nat l)) xs
  = take l (drop s xs).
Proof.
  unfold models.slice, models.toIndex. cbn [from_option id].
  destruct (Z.ltb_spec (Z.of_nat s) 0); [lia|].
  destruct (Z.ltb_spec (Z.of_nat s + Z.of_nat l) 0); [lia|].
  destruct (decide (length xs ≤ s)%nat) as [Hge|Hlt].
  - rewrite (drop_ge xs s) by done. rewrite Z.min_r by lia.
    rewrite drop_ge by lia. by rewrite !take_nil.
  - rewrite (Z.min_l (Z.of_nat s)) by lia. rewrite Nat2Z.id.
    destruct (decide (length xs ≤ s + l)%nat) as [Hge'|Hlt'].
    + rewrite Z.min_r by lia.
      rewrite !take_ge; [done|rewrite length_drop; lia|rewrite length_drop; lia].
    + rewrite Z.min_l by lia. f_equal. lia.
Qed.

End history.

Lemma getAllDeposits_eq username page limit status w :
  models.DepositModel_getAllByUsername username page limit status w
  = (Ok (models.slice (models.pageStart page limit) (models.pageEnd page limit)
           (models.sortNewestFirst dep_timestamp
              (filter (λ d, dep_username d = username
                            ∧ models.statusMatches status
                                (models.depositStatus (dep_status d)) = true)
                 (models.depositsOf
                    (merge_sort Database.keyLe
                       (filter (λ kv, String.prefix "deposit:" kv.1 = true)
                          (map_to_list (disk w)))))))), w).
Proof. reflexivity. Qed.

Lemma getAllWithdrawals_eq username page limit status w :
  models.WithdrawalModel_getAllByUsername username page limit status w
  = (Ok (models.slice (models.pageStart page limit) (models.pageEnd page limit)
           (models.sortNewestFirst wd_timestamp
              (filter (λ x, wd_username x = username
                            ∧ models.statusMatches status
                                (models.withdrawalStatus (wd_status x)) = true)
                 (models.withdrawalsOf
                    (merge_sort Database.keyLe
                       (filter (λ kv, String.prefix "withdrawal:" kv.1 = true)
                          (map_to_list (disk w)))))))), w).
Proof. reflexivity. Qed.

Lemma statusMatches_true wanted status s :
  models.statusMatches wanted status = true → wanted = Some s → s ≠ "" → status = s.
Proof.
  intros Hm -> Hs. destruct s as [|a s]; [done|]. cbn in Hm.
  by apply bool_decide_eq_true in Hm.
Qed.

Lemma page_length_le page limit :
  ∀ {A} (xs : list A) l, limit = Some l → 0 ≤ l →
  Z.of_nat (length (models.slice (models.pageStart page limit)
                      (models.pageEnd page limit) xs)) ≤ l.
Proof.
  intros A xs l -> Hl. destruct page as [p|].
  - cbn [models.pageStart models.pageEnd]. by apply slice_length.
  - cbn [models.pageStart models.pageEnd]. unfold models.slice. cbn [from_option id].
    rewrite length_take. lia.
Qed.

(** X4. [DepositModel.getAllByUsername] only reads. Every deposit in its
    answer is a stored deposit of the user asked for and, when a status
    is asked for, has that status; the answer is at most [limit] long
    (for a limit that is not negative) and is ordered newest first. *)
Theorem deposit_history_sound (w : World) (username : string)
    (page limit : option Z) (status : option string) :
  let run := models.DepositModel_getAllByUsername username page limit status in
  exec run w = w
  ∧ ∃ ds, outcome run w = Ok ds
     ∧ (∀ d, d ∈ ds →
          dep_username d = username
          ∧ (∃ k, disk w !! k = Some (VDeposit d))
          ∧ ∀ s, status = Some s → s ≠ "" → models.depositStatus (dep_status d) = s)
     ∧ (∀ l, limit = Some l → 0 ≤ l → Z.of_nat (length ds) ≤ l)
     ∧ StronglySorted (λ a b, dep_timestamp b ≤ dep_timestamp a) ds.
Proof.
  cbv zeta. unfold exec, outcome. rewrite getAllDeposits_eq. cbn [fst snd].
  split; [done|]. eexists. split; [done|]. split; [|split].
  - intros d Hd%slice_elem_of. rewrite sortNewestFirst_perm in Hd.
    apply list_elem_of_filter in Hd as [[Hu Hs] Hd].
    apply list_elem_of_omap in Hd as ([k v] & Hin & Hv).
    rewrite merge_sort_Permutation in Hin.
    apply list_elem_of_filter in Hin as [_ Hin%elem_of_map_to_list].
    cbn in Hv. destruct v; try discriminate. injection Hv as ->.
    split; [done|]. split; [by exists k|].
    intros s. by apply statusMatches_true.
  - intros l. apply page_length_le.
  - apply slice_sorted, sortNewestFirst_sorted.
Qed.

(** X5. The pages of the deposit history tile it: pages 1 to [n] of size
    [l], one after the other, are the first [n * l] entries (page 1 of
    size [n * l]). Page 0 is empty, and so is the answer when the page or
    the limit is not a number. *)
Theorem deposit_history_pages (w : World) (username : string)
    (status : option string) (l n : nat) :
  concat ((λ p, depositPage w username status (Some (Z.of_nat p)) (Some (Z.of_nat l)))
            <$> seq 1 n)
  = depositPage w username status (Some 1) (Some (Z.of_nat (n * l)))
  ∧ depositPage w username status (Some 0) (Some (Z.of_nat l)) = []
  ∧ (∀ limit, depositPage w username status None limit = [])
  ∧ (∀ page, depositPage w username status page None = []).
Proof.
  unfold depositPage, outcome.
  setoid_rewrite getAllDeposits_eq. cbn [fst].
  set (xs := models.sortNewestFirst _ _).
  assert (Hpage : ∀ (p k : nat),
    models.slice (models.pageStart (Some (Z.of_nat (S p))) (Some (Z.of_nat k)))
      (models.pageEnd (Some (Z.of_nat (S p))) (Some (Z.of_nat k))) xs
    = take k (drop (p * k) xs)).
  { intros p k. cbn [models.pageStart models.pageEnd].
    replace ((Z.of_nat (S p) - 1) * Z.of_nat k) with (Z.of_nat (p * k)) by lia.
    apply slice_page. }
  split; [|split; [|split]].
  - change (Some 1) with (Some (Z.of_nat 1)).
    rewrite (Hpage 0%nat (n * l)%nat), drop_0.
    clear -Hpage. induction n as [|n IH]; [done|].
    rewrite seq_S, fmap_app, concat_app, IH. cbn [fmap list_fmap concat].
    rewrite app_nil_r. change (1 + n)%nat with (S n).
    rewrite (Hpage n l), take_take_drop. f_equal. lia.
  - cbn [models.pageStart models.pageEnd]. unfold models.slice, models.toIndex.
    cbn [from_option id]. set (len := Z.of_nat (length xs)).
    replace (Z.to_nat _) with 0%nat; [done|].
    destruct (Z.ltb_spec ((0 - 1) * Z.of_nat l) 0),
      (Z.ltb_spec ((0 - 1) * Z.of_nat l + Z.of_nat l) 0); lia.
  - intros limit. cbn [models.pageStart models.pageEnd].
    unfold models.slice. by rewrite Z.sub_diag.
  - intros page. destruct page; cbn [models.pageStart models.pageEnd];
      unfold models.slice; by rewrite Z.sub_diag.
Qed.

(** X6. [WithdrawalModel.getAllByUsername] only reads. Every withdrawal
    in its answer is a stored withdrawal of the user asked for and, when
    a status is asked for, has that status; the answer is at most [limit]
    long (for a limit that is not negative) and is ordered newest first. *)
Theorem withdrawal_history_sound (w : World) (username : string)
    (page limit : option Z) (status : option string) :
  let run := models.WithdrawalModel_getAllByUsername username page limit status in
  exec run w = w
  ∧ ∃ xs, outcome run w = Ok xs
     ∧ (∀ x, x ∈ xs →
          wd_username x = username
          ∧ (∃ k, disk w !! k = Some (VWithdrawal x))
          ∧ ∀ s, status = Some s → s ≠ "" → models.withdrawalStatus (wd_status x) = s)
     ∧ (∀ l, limit = Some l → 0 ≤ l → Z.of_nat (length xs) ≤ l)
     ∧ StronglySorted (λ a b, wd_timestamp b ≤ wd_timestamp a) xs.
Proof.
  cbv zeta. unfold exec, outcome. rewrite getAllWithdrawals_eq. cbn [fst snd].
  split; [done|]. eexists. split; [done|]. split; [|split].
  - intros x Hx%slice_elem_of. rewrite sortNewestFirst_perm in Hx.
    apply list_elem_of_filter in Hx as [[Hu Hs] Hx].
    apply list_elem_of_omap in Hx as ([k v] & Hin & Hv).
    rewrite merge_sort_Permutation in Hin.
    apply list_elem_of_filter in Hin as [_ Hin%elem_of_map_to_list].
    cbn in Hv. destruct v; try discriminate. injection Hv as ->.
    split; [done|]. split; [by exists k|].
    intros s. by apply statusMatches_true.
  - intros l. apply page_length_le.
  - apply slice_sorted, sortNewestFirst_sorted.
Qed.

(** * Accounts and the watch list *)

Lemma findByAddress_eq `{Library} address w :
  findByAddress address w
  = (Ok (head (filter (λ a, toLowerCase (acc_address a) = toLowerCase address)
                 (AccountModel.accountsOf
                    (filter (λ kv, String.prefix "account:" kv.1 = true)
                       (map_to_list (disk w)))))), w).
Proof. reflexivity. Qed.

Lemma elem_of_accountsOf a w :
  a ∈ AccountModel.accountsOf
        (filter (λ kv, String.prefix "account:" kv.1 = true) (map_to_list (disk w)))
  ↔ ∃ k, String.prefix "account:" k = true ∧ disk w !! k = Some (VAccount a).
Proof.
  unfold AccountModel.accountsOf. rewrite list_elem_of_omap. split.
  - intros ([k v] & [Hp Hin%elem_of_map_to_list]%list_elem_of_filter & Hv).
    cbn in Hv, Hp. destruct v; try discriminate. injection Hv as ->. by exists k.
  - intros (k & Hp & Hin). exists (k, VAccount a). split; [|done].
    apply list_elem_of_filter. split; [done|]. by apply elem_of_map_to_list.
Qed.

(** X7. [AccountModel.findByAddress] only reads, and compares addresses
    without regard to case: an account it returns is a stored account
    whose address equals the given one up to case, and it returns null
    exactly when no stored account has such an address. *)
Theorem findByAddress_spec `{Library} (w : World) (address : string) :
  let run := findByAddress address in
  exec run w = w
  ∧ (∀ a, outcome run w = Ok (Some a) →
       toLowerCase (acc_address a) = toLowerCase address
       ∧ ∃ k, String.prefix "account:" k = true ∧ disk w !! k = Some (VAccount a))
  ∧ (outcome run w = Ok None
     ↔ ∀ k a, String.prefix "account:" k = true → disk w !! k = Some (VAccount a) →
              toLowerCase (acc_address a) ≠ toLowerCase address).
Proof.
  cbv zeta. unfold exec, outcome. rewrite findByAddress_eq. cbn [fst snd].
  split; [done|]. split.
  - intros a [= Hhead]. apply head_Some_elem_of in Hhead.
    apply list_elem_of_filter in Hhead as [Hl Hin]. split; [done|].
    by apply elem_of_accountsOf.
  - split.
    + intros [= Hnone] k a Hp Hk Hl. apply head_None in Hnone.
      assert (Hin : a ∈ filter (λ a, toLowerCase (acc_address a) = toLowerCase address)
                (AccountModel.accountsOf
                   (filter (λ kv, String.prefix "account:" kv.1 = true)
                      (map_to_list (disk w))))).
      { apply list_elem_of_filter. split; [done|]. apply elem_of_accountsOf. by exists k. }
      rewrite Hnone in Hin. by apply elem_of_nil in Hin.
    + intros Hall. f_equal. apply head_None.
      destruct (filter _ _) as [|a l] eqn:E; [done|].
      assert (Hin : a ∈ a :: l) by left. rewrite <- E in Hin.
      apply list_elem_of_filter in Hin as [Hl (k & Hp & Hk)%elem_of_accountsOf].
      by destruct (Hall k a).
Qed.

Section watch_list.
Context `{Library}.

Lemma watched_ext w w' :
  disk w' = disk w → activeAddresses w' = activeAddresses w →
  watched w → watched w'.
Proof. intros Hd Ha Hw k a. rewrite Hd, Ha. apply Hw. Qed.

Lemma watch_all (xs : list Account) w :
  let w' := exec (for_each xs (λ a,
              modify (set_activeAddresses (λ s, {[ toLowerCase (acc_address a) ]} ∪ s)))) w in
  disk w' = disk w
  ∧ ∀ x, x ∈ activeAddresses w ∨ (∃ a, a ∈ xs ∧ x = toLowerCase (acc_address a))
         → x ∈ activeAddresses w'.
Proof.
  cbv zeta. revert w. induction xs as [|a xs IH]; intros w.
  - split; [done|]. intros x [Hx|(a & Ha & _)]; [done|]. by apply elem_of_nil in Ha.
  - cbn [for_each]. unfold exec. rewrite bind_app, modify_app. cbv beta iota.
    destruct (IH (set_activeAddresses
                    (λ s, {[ toLowerCase (acc_address a) ]} ∪ s) w)) as [Hd Ha].
    split; [exact Hd|]. intros x Hx. apply Ha. world_simpl.
    destruct Hx as [Hx|(a' & [->|Hin]%elem_of_cons & ->)].
    + left. by apply elem_of_union_r.
    + left. apply elem_of_union_l. by apply elem_of_singleton.
    + right. by exists a'.
Qed.

Lemma watched_initialize w : watched (exec Indexer.initialize w).
Proof.
  unfold Indexer.initialize, exec. rewrite bind_app. cbv beta iota.
  change (db.iterator "account:" w)
    with (Ok (filter (λ kv, String.prefix "account:" kv.1 = true) (map_to_list (disk w))), w).
  cbv beta iota.
  destruct (watch_all (AccountModel.accountsOf
              (filter (λ kv, String.prefix "account:" kv.1 = true) (map_to_list (disk w)))) w)
    as [Hd Ha].
  intros k a Hp Hk. apply Ha. right. exists a. split; [|done].
  apply elem_of_accountsOf. exists k. split; [done|]. by rewrite <- Hd.
Qed.

Lemma watched_warm key w : watched w → watched (warm key w).
Proof. apply watched_ext; [apply disk_warm|apply activeAddresses_warm]. Qed.

Lemma watched_generateAccount u : preserves watched (WalletService.generateAccount u).
Proof.
  intros w Hw. unfold exec, WalletService.generateAccount.
  rewrite bind_app, findByUsername_eq. cbv beta iota.
  destruct (match view w (AccountModel.key u) with
            | Some (VAccount a) => Some a | _ => None end) as [a|].
  { rewrite ret_app. cbn [snd]. by apply watched_warm. }
  unfold WalletService.createRandom, encrypt, randomBytes, AccountModel.create,
    bind, ret, gets, modify.
  world_simpl. rewrite put_eq. world_simpl. rewrite faults_warm.
  set (acc := mkAccount _ _ _ _).
  assert (Hput : ∀ w0, disk w0 = disk w → activeAddresses w0 = activeAddresses w →
    watched (set_activeAddresses (λ s, {[ toLowerCase (acc_address acc) ]} ∪ s)
               (commit (AccountModel.key u) (VAccount acc) w0))).
  { intros w0 Hd Ha k a Hp. unfold commit. world_simpl. rewrite Hd, Ha.
    destruct (decide (AccountModel.key u = k)) as [->|Hne].
    - rewrite lookup_insert_eq. intros [= <-].
      apply elem_of_union_l. by apply elem_of_singleton.
    - rewrite lookup_insert_ne by done. intros Hk.
      apply elem_of_union_r. by apply (Hw k). }
  destruct (faults w) as [|[] fs]; world_simpl.
  - apply Hput; world_simpl; by rewrite ?disk_warm, ?activeAddresses_warm.
  - eapply watched_ext; [| |exact Hw]; world_simpl;
      by rewrite ?disk_warm, ?activeAddresses_warm.
  - apply Hput; world_simpl; by rewrite ?disk_warm, ?activeAddresses_warm.
Qed.

Lemma watched_findByUsername u : preserves watched (AccountModel.findByUsername u).
Proof. intros w Hw. unfold exec. rewrite findByUsername_eq. by apply watched_warm. Qed.

Lemma watched_generate_account username : preserves watched (api.generate_account username).
Proof.
  unfold api.generate_account, api.handler.
  apply preserves_try_catch; [|intros; apply preserves_ret].
  destruct (api.given username); [|apply preserves_ret].
  apply preserves_bind; [apply watched_findByUsername|]. intros existing.
  apply preserves_bind; [apply watched_generateAccount|]. intros account.
  apply preserves_ret.
Qed.

End watch_list.

(** X8. Once the indexer has started, the address of every stored
    account is on its watch list, and it stays so through any number of
    account requests, whichever store writes are rejected: start-up loads
    the addresses of the stored accounts, and [generateAccount] registers
    the address of an account as soon as it has stored it. *)
Theorem accounts_are_watched `{Library} (requests : list (option string)) (w : World) :
  watched (exec (service requests) w).
Proof.
  unfold service, exec. rewrite bind_app.
  pose proof (watched_initialize w) as Hw. unfold exec in Hw.
  destruct (Indexer.initialize w) as [[[]|e] w1] eqn:E; cbn [snd] in *; [|done].
  fold (exec (for_each requests (λ username, api.generate_account username ;; ret tt)) w1).
  apply preserves_for_each; [|done]. intros username.
  apply preserves_bind; [apply watched_generate_account|intros; apply preserves_ret].
Qed.

(** * The account and balance routes *)

Lemma generateAccount_run `{Library} u w :
  match WalletService.generateAccount u w with
  | (Ok account, w') =>
      (disk w' = disk w
       ∧ ∃ a, view w (AccountModel.key u) = Some (VAccount a)
              ∧ account = (acc_username a, acc_address a, acc_timestamp a))
      ∨ ((∀ a, view w (AccountModel.key u) ≠ Some (VAccount a))
         ∧ ∃ a, disk w' !! AccountModel.key u = Some (VAccount a)
                ∧ account = (u, acc_address a, acc_timestamp a))
  | (Throw _, _) => ∃ fs, faults w = true :: fs
  end.
Proof.
  unfold WalletService.generateAccount. rewrite bind_app, findByUsername_eq.
  cbv beta iota.
  destruct (match view w (AccountModel.key u) with
            | Some (VAccount a) => Some a | _ => None end) as [a|] eqn:E.
  - rewrite ret_app. left. split; [apply disk_warm|]. exists a. split; [|done].
    destruct (view w (AccountModel.key u)) as [[]|]; congruence.
  - assert (Hnone : ∀ a, view w (AccountModel.key u) ≠ Some (VAccount a)).
    { intros a Ha. by rewrite Ha in E. }
    unfold WalletService.createRandom, encrypt, randomBytes, AccountModel.create,
      bind, ret, gets, modify.
    world_simpl. rewrite put_eq. world_simpl. rewrite !faults_warm.
    destruct (faults w) as [|[] fs]; world_simpl.
    + right. split; [done|]. eexists.
      split; [unfold commit; world_simpl; apply lookup_insert_eq|reflexivity].
    + by exists fs.
    + right. split; [done|]. eexists.
      split; [unfold commit; world_simpl; apply lookup_insert_eq|reflexivity].
Qed.

(** X9. POST /generate_account answers 400 without a username and then
    changes nothing. Otherwise its message tells what happened: "Existing
    account retrieved" with the stored account, nothing being written,
    when the user had an account; "New account created" with the account
    it has just stored when the user had none. It answers 500 only when
    the store rejected the write of the new account. *)
Theorem generate_account_reply `{Library} (w : World) (username : option string) :
  let run := api.generate_account username in
  match outcome run w with
  | Ok (api.Body (account, message)) =>
      ∃ u, api.given username = Some u
        ∧ ((message = "Existing account retrieved"
            ∧ disk (exec run w) = disk w
            ∧ ∃ a, view w (AccountModel.key u) = Some (VAccount a)
                   ∧ account = (acc_username a, acc_address a, acc_timestamp a))
           ∨ (message = "New account created"
              ∧ (∀ a, view w (AccountModel.key u) ≠ Some (VAccount a))
              ∧ ∃ a, disk (exec run w) !! AccountModel.key u = Some (VAccount a)
                     ∧ account = (u, acc_address a, acc_timestamp a)))
  | Ok (api.Error code) =>
      (code = 400 ∧ api.given username = None ∧ exec run w = w)
      ∨ (code = 500 ∧ ∃ fs, faults w = true :: fs)
  | Throw _ => False
  end.
Proof.
  cbv zeta. unfold outcome, exec, api.generate_account, api.handler, try_catch.
  destruct (api.given username) as [u|] eqn:Hu; [|rewrite ret_app; cbn; by left].
  rewrite bind_app, findByUsername_eq. cbv beta iota. rewrite bind_app.
  pose proof (generateAccount_run u (warm (AccountModel.key u) w)) as Hrun.
  rewrite view_warm, disk_warm, faults_warm in Hrun.
  destruct (WalletService.generateAccount u (warm (AccountModel.key u) w))
    as [[account|e] w']; cbv beta iota; rewrite ret_app; cbn [fst snd].
  - exists u. split; [done|].
    destruct Hrun as [(Hd & a & Ha & ->)|(Hnone & a & Ha & ->)].
    + left. rewrite Ha. split; [done|]. split; [done|]. by exists a.
    + right. assert (match view w (AccountModel.key u) with
                     | Some (VAccount a) => Some a | _ => None end = None) as ->.
      { destruct (view w (AccountModel.key u)) as [[]|]; try done. by destruct (Hnone a0). }
      split; [done|]. split; [done|]. by exists a.
  - right. by split.
Qed.


(** * The indexer's tasks *)

(** What retiring a deposit id does, whatever the store does. *)
Lemma retire_any `{Library} qk txHash q w :
  pendingQueues w !! qk = Some q →
  let w' := exec (IndexerService.retire qk txHash) w in
  pendingQueues w' = <[qk := q ∖ {[txHash]}]> (pendingQueues w)
  ∧ txHash ∈ processedTransactions w'
  ∧ ∀ k, k ≠ IndexerService.startBlockKey txHash →
         k ≠ TransactionService.gasFundingKey txHash →
         disk w' !! k = disk w !! k ∧ view w' k = view w k.
Proof.
  intros Hq. cbv zeta.
  unfold exec, IndexerService.retire, IndexerService.queueDelete,
    IndexerService.detached, TransactionService.cleanupGasFundingTx,
    TransactionService.isGasFundingTx.
  rewrite bind_app, Hq. cbv beta iota.
  rewrite bind_app, modify_app. cbv beta iota.
  rewrite bind_app, del_eq. world_simpl.
  assert (Hin : txHash ∈ {[txHash]} ∪ processedTransactions w)
    by (apply elem_of_union_l; by apply elem_of_singleton).
  assert (Hdel : ∀ w0 k, k ≠ IndexerService.startBlockKey txHash →
    disk (commit_del (IndexerService.startBlockKey txHash) w0) !! k = disk w0 !! k
    ∧ view (commit_del (IndexerService.startBlockKey txHash) w0) k = view w0 k).
  { intros w0 k Hk. unfold view, commit_del. world_simpl.
    by rewrite !lookup_delete_ne. }
  assert (Hgas : ∀ w0 k, k ≠ TransactionService.gasFundingKey txHash →
    disk (commit_del (TransactionService.gasFundingKey txHash) w0) !! k = disk w0 !! k
    ∧ view (commit_del (TransactionService.gasFundingKey txHash) w0) k = view w0 k).
  { intros w0 k Hk. unfold view, commit_del. world_simpl.
    by rewrite !lookup_delete_ne. }
  destruct (faults w) as [|[] fs]; cbv beta iota; cbn [snd].
  2:{ by split_and!. }
  all: rewrite bind_app, gets_app; cbv beta iota;
    match goal with |- context [bool_decide ?P] => destruct (bool_decide P) end;
    cbv beta iota; rewrite ?bind_app, ?modify_app, ?ret_app; cbv beta iota;
    rewrite ?del_eq; world_simpl;
    try match goal with |- context [match ?fs with [] => _ | _ => _ end] =>
          destruct fs as [|[] ?] end;
    cbn [snd]; world_simpl;
    (split; [done|]); (split; [done|]); intros k Hk1 Hk2;
    rewrite ?(proj1 (Hgas _ k Hk2)), ?(proj2 (Hgas _ k Hk2));
    try (by apply Hdel);
    try (destruct (Hdel (set_processedTransactions (λ s, {[txHash]} ∪ s)
                           (set_pendingQueues (insert qk (q ∖ {[txHash]})) w)) k Hk1)
           as [Hd1 Hd2]; split; [exact Hd1|exact Hd2]).
Qed.

Lemma warm_None key w : view w key = None → warm key w = w.
Proof.
  unfold view, warm. destruct (cache w !! key); [done|]. by intros ->.
Qed.

Lemma gas_ne_start h t :
  TransactionService.gasFundingKey h ≠ IndexerService.startBlockKey t.
Proof. key_ne. Qed.

Lemma retire_start `{Library} qk txHash q w :
  faults w = [] → pendingQueues w !! qk = Some q →
  disk (exec (IndexerService.retire qk txHash) w) !! IndexerService.startBlockKey txHash
  = None.
Proof.
  intros Hf Hq.
  unfold exec, IndexerService.retire, IndexerService.queueDelete,
    IndexerService.detached, TransactionService.cleanupGasFundingTx,
    TransactionService.isGasFundingTx, bind, modify, gets.
  rewrite Hq. cbv beta iota. rewrite del_ok by done. cbv beta iota.
  match goal with |- context [bool_decide ?P] => destruct (bool_decide P) end;
    cbv beta iota.
  - rewrite del_ok by done. unfold commit_del. world_simpl.
    rewrite lookup_delete_ne by apply gas_ne_start. apply lookup_delete_eq.
  - unfold ret, commit_del. world_simpl. apply lookup_delete_eq.
Qed.

(** X11. When the queue worker picks up a transaction hash for which no
    deposit record exists, [processDeposit] retires the hash: it is taken
    off the pending queue and marked as processed, whatever the store
    does, and no record other than the start-block and gas-funding
    markers of that hash is touched. With no rejected write the call
    returns normally and the start-block marker is gone. *)
Theorem processDeposit_missing_record `{Library} (ch : Chain) (w : World)
    (txHash network currency : string) (q : gset string) :
  view w (DepositModel.key txHash) = None →
  pendingQueues w !! IndexerService.queueKey network currency = Some q →
  let run := IndexerService.processDeposit ch txHash network currency in
  let w' := exec run w in
  pendingQueues w' !! IndexerService.queueKey network currency = Some (q ∖ {[txHash]})
  ∧ txHash ∈ processedTransactions w'
  ∧ (∀ k, k ≠ IndexerService.startBlockKey txHash →
          k ≠ TransactionService.gasFundingKey txHash →
          disk w' !! k = disk w !! k)
  ∧ (faults w = [] →
     outcome run w = Ok tt
     ∧ disk w' !! IndexerService.startBlockKey txHash = None).
Proof.
  intros Hv Hq. cbv zeta.
  set (qk := IndexerService.queueKey network currency) in *.
  unfold exec, outcome, IndexerService.processDeposit, try_catch. fold qk.
  rewrite bind_app, DepositModel_findById_eq, Hv. cbv beta iota.
  rewrite (warm_None _ _ Hv).
  destruct (retire_any qk txHash q w Hq) as (Hq1 & Hp1 & Hfr1).
  pose proof (retire_start qk txHash q w) as Hstart.
  pose proof (retire_ok qk txHash q w) as Hok.
  unfold exec, outcome in Hq1, Hp1, Hfr1, Hstart, Hok.
  destruct (IndexerService.retire qk txHash w) as [[[]|e] w1]; cbn [fst snd] in *.
  - split; [by rewrite Hq1, lookup_insert_eq|]. split; [done|].
    split; [intros k Hk1 Hk2; by apply Hfr1|]. intros Hf. split; [done|].
    by apply Hstart.
  - assert (Hv1 : view w1 (DepositModel.key txHash) = None).
    { rewrite <- Hv. apply Hfr1; [apply deposit_ne_start|apply not_eq_sym, gas_ne_deposit]. }
    rewrite bind_app, DepositModel_findById_eq, Hv1. cbv beta iota.
    rewrite (warm_None _ _ Hv1).
    assert (Hq' : pendingQueues w1 !! qk = Some (q ∖ {[txHash]}))
      by (by rewrite Hq1, lookup_insert_eq).
    destruct (retire_any qk txHash (q ∖ {[txHash]}) w1 Hq') as (Hq2 & Hp2 & Hfr2).
    unfold exec in Hq2, Hp2, Hfr2.
    destruct (IndexerService.retire qk txHash w1) as [r2 w2]; cbn [fst snd] in *.
    split.
    { rewrite Hq2, lookup_insert_eq. f_equal. apply set_eq. intros x.
      rewrite !elem_of_difference. tauto. }
    split; [done|]. split.
    { intros k Hk1 Hk2. rewrite (proj1 (Hfr2 k Hk1 Hk2)). by apply Hfr1. }
    intros Hf. by destruct (Hok Hf Hq) as [? _].
Qed.

Lemma processDeposit_missing_record_witness :
  let run := @IndexerService.processDeposit toy_library (chain_ok 100) "0xT9" "mind" "MIND" in
  pendingQueues (exec run world_deposit) !! IndexerService.queueKey "mind" "MIND"
  = Some ({[ "0xT1" ]} ∖ {[ "0xT9" ]}).
Proof.
  apply (@processDeposit_missing_record toy_library (chain_ok 100) world_deposit
           "0xT9" "mind" "MIND" {[ "0xT1" ]}); vm_compute; reflexivity.
Defined.

Lemma for_each_skip {A} (xs : list A) (body : A → M unit) w :
  (∀ x, x ∈ xs → body x w = (Ok tt, w)) → for_each xs body w = (Ok tt, w).
Proof.
  induction xs as [|x xs IH]; intros Hb; [done|].
  cbn [for_each]. rewrite bind_app, Hb by left. cbv beta iota.
  apply IH. intros y Hy. apply Hb. by right.
Qed.

Lemma getByBlockchain_eq network w :
  BlockCacheModel.getByBlockchain network w = (Ok (liveBlocks w network), w).
Proof. reflexivity. Qed.

(** X12. The block processor waits for the confirmation depth: when
    every unexpired cached block of the network is less than
    [requiredConfirmations] below the head, one firing of the processor
    changes nothing; no transaction is queued and no cache entry is
    deleted. *)
Theorem blockProcessor_waits `{Library} (ch : Chain) (network : string) (w : World) :
  (∀ head config b,
     getBlockNumber ch = Ok head → networks !! network = Some config →
     b ∈ liveBlocks w network →
     head - requiredConfirmations config < bc_blockNumber b) →
  outcome (IndexerService.blockProcessor ch network) w = Ok tt
  ∧ exec (IndexerService.blockProcessor ch network) w = w.
Proof.
  intros Hyoung.
  unfold outcome, exec, IndexerService.blockProcessor, try_catch.
  rewrite bind_app, getByBlockchain_eq. cbv beta iota.
  rewrite bind_app, lift_app.
  destruct (getBlockNumber ch) as [head|e]; cbv beta iota; [|by rewrite ret_app].
  rewrite bind_app. unfold network_config.
  destruct (networks !! network) as [config|]; [|by rewrite throw_app, ret_app].
  rewrite ret_app. cbv beta iota.
  rewrite for_each_skip; [done|].
  intros b Hb. specialize (Hyoung head config b eq_refl eq_refl Hb).
  destruct (Z.ltb_spec (head - requiredConfirmations config) (bc_blockNumber b)); [|lia].
  by rewrite ret_app.
Qed.

Lemma blockProcessor_waits_witness :
  exec (@IndexerService.blockProcessor toy_library (chain_ok 55) "mind") world_two_blocks
  = world_two_blocks.
Proof.
  apply (@blockProcessor_waits toy_library (chain_ok 55) "mind" world_two_blocks).
  intros head config b [= <-] [= <-] Hb. vm_compute in Hb.
  repeat (apply elem_of_cons in Hb as [->|Hb]; [vm_compute; reflexivity|]).
  by apply elem_of_nil in Hb.
Defined.

(** One ingestion with no rejected write. *)
Lemma processBlock_ok ch network i w :
  faults w = [] →
  let w' := exec (IndexerService.processBlock ch network i) w in
  faults w' = [] ∧ now w' = now w
  ∧ ∀ txs, getBlockWithTransactions ch i = Ok txs →
      disk w' !! BlockCacheModel.key (IndexerService.blockId network i)
      = Some (VBlock (mkBlockCache (IndexerService.blockId network i) network i txs
                        (now w) (now w + IndexerService.BLOCK_CACHE_TTL_MS))).
Proof.
  intros Hf. cbv zeta.
  unfold exec, IndexerService.processBlock, try_catch, BlockCacheModel.create.
  rewrite bind_app, lift_app.
  destruct (getBlockWithTransactions ch i) as [txs|e]; cbv beta iota.
  2:{ rewrite ret_app. by split_and!. }
  rewrite bind_app, gets_app. cbv beta iota.
  rewrite bind_app, put_ok by done. cbv beta iota.
  rewrite put_ok by done. cbn [fst snd bc_id].
  split; [done|]. split; [done|]. intros ? [= <-].
  unfold commit. world_simpl.
  rewrite lookup_insert_ne by apply last_ne_block. apply lookup_insert_eq.
Qed.

Lemma processBlock_total ch network i w :
  (IndexerService.processBlock ch network i w).1 = Ok tt.
Proof.
  unfold IndexerService.processBlock, try_catch.
  match goal with |- context [match ?t with _ => _ end] =>
    destruct t as [[[]|e] w1] end; done.
Qed.

Lemma poll_loop ch network (xs : list Z) w :
  faults w = [] →
  let w' := exec (for_each xs (λ n, IndexerService.processBlock ch network n)) w in
  faults w' = [] ∧ now w' = now w
  ∧ ∀ i txs, i ∈ xs → getBlockWithTransactions ch i = Ok txs →
      disk w' !! BlockCacheModel.key (IndexerService.blockId network i)
      = Some (VBlock (mkBlockCache (IndexerService.blockId network i) network i txs
                        (now w) (now w + IndexerService.BLOCK_CACHE_TTL_MS))).
Proof.
  cbv zeta. revert w. induction xs as [|x xs IH]; intros w Hf.
  { split; [done|]. split; [done|]. intros i txs Hi. by apply elem_of_nil in Hi. }
  cbn [for_each]. unfold exec. rewrite bind_app.
  destruct (processBlock_ok ch network x w Hf) as (Hf1 & Hn1 & Hd1).
  unfold exec in Hf1, Hn1, Hd1.
  pose proof (processBlock_total ch network x w) as Hok.
  destruct (IndexerService.processBlock ch network x w) as [r w1].
  cbn [fst snd] in *. subst r. cbv beta iota.
  destruct (IH w1 Hf1) as (Hf2 & Hn2 & Hd2). unfold exec in Hf2, Hn2, Hd2.
  split; [done|]. split; [congruence|].
  intros i txs Hi Htxs. rewrite <- Hn1.
  destruct (decide (i ∈ xs)) as [Hin|Hout]; [by apply Hd2|].
  apply elem_of_cons in Hi as [->|Hi]; [|done].
  set (ki := BlockCacheModel.key (IndexerService.blockId network x)).
  assert (Hkeeps : keeps ki w1
            (exec (for_each xs (λ n, IndexerService.processBlock ch network n)) w1)).
  { apply preserves_for_each_in; [|done]. intros j Hj.
    apply keeps_processBlock; [|apply last_ne_block].
    intros Heq. apply block_key_inj in Heq. by subst j. }
  unfold keeps, obs, exec in Hkeeps. injection Hkeeps as Hdisk _ _.
  rewrite Hdisk, Hn1. by apply Hd1.
Qed.

Lemma range_elem_of from to j : from ≤ j ≤ to → j ∈ IndexerService.range from to.
Proof.
  intros Hj. unfold IndexerService.range. apply list_elem_of_fmap.
  exists (Z.to_nat (j - from)). split; [lia|]. apply elem_of_seq. lia.
Qed.

Lemma for_each_total {A} (xs : list A) (body : A → M unit) w :
  (∀ x w, (body x w).1 = Ok tt) → (for_each xs body w).1 = Ok tt.
Proof.
  intros Hb. revert w. induction xs as [|x xs IH]; intros w; [done|].
  cbn [for_each]. rewrite bind_app. specialize (Hb x w).
  destruct (body x w) as [r w1]. cbn [fst] in Hb. subst r. apply IH.
Qed.

(** X13. One firing of the HTTP polling fallback never throws. While the
    WebSocket provider is connected it does nothing and keeps its
    cursor. Otherwise the cursor moves to the head when the head is
    beyond it (and stays when the head cannot be fetched), and with no
    rejected write every block between the old cursor and the head that
    the provider could deliver is in the block cache, stamped with the
    time of the firing and an expiry one hour later. *)
Theorem httpPolling_spec (ch : Chain) (wsOpen : bool) (network : string)
    (last : Z) (w : World) :
  let run := Indexer.httpPolling ch wsOpen network last in
  outcome run w
  = Ok (if wsOpen then last
        else match getBlockNumber ch with
             | Ok head => Z.max last head
             | Throw _ => last
             end)
  ∧ (wsOpen = true → exec run w = w)
  ∧ (wsOpen = false → faults w = [] →
     ∀ head i txs,
       getBlockNumber ch = Ok head → last < i ≤ head →
       getBlockWithTransactions ch i = Ok txs →
       disk (exec run w) !! BlockCacheModel.key (IndexerService.blockId network i)
       = Some (VBlock (mkBlockCache (IndexerService.blockId network i) network i txs
                         (now w) (now w + IndexerService.BLOCK_CACHE_TTL_MS)))).
Proof.
  cbv zeta. unfold outcome, exec, Indexer.httpPolling, try_catch.
  destruct wsOpen.
  { rewrite ret_app. by split_and!. }
  rewrite bind_app, lift_app.
  destruct (getBlockNumber ch) as [head|e]; cbv beta iota.
  2:{ rewrite ret_app. split_and!; [done|done|]. intros _ _ head i txs [=]. }
  destruct (Z.ltb_spec last head) as [Hlt|Hge].
  2:{ rewrite ret_app. cbn [fst snd]. split; [f_equal; lia|]. split; [done|].
      intros _ _ head' i txs [= <-] Hi. lia. }
  rewrite bind_app.
  pose proof (for_each_total (IndexerService.range (last + 1) head)
                (λ n, IndexerService.processBlock ch network n) w
                (processBlock_total ch network)) as Hok.
  pose proof (poll_loop ch network (IndexerService.range (last + 1) head) w) as Hloop.
  cbv zeta in Hloop. unfold exec in Hloop.
  destruct (for_each _ _ w) as [r w1]. cbn [fst snd] in *. subst r.
  cbv beta iota. rewrite ret_app. cbn [fst snd].
  split; [f_equal; lia|]. split; [done|].
  intros _ Hf head' i txs [= <-] Hi Htxs.
  destruct (Hloop Hf) as (_ & _ & Hd). apply Hd; [|done].
  apply range_elem_of. lia.
Qed.

(** * Buckets and withdrawal requests *)

Lemma guarded_total (m : M unit) id w :
  let r := try_finally (try_catch m (λ _, ret tt))
             (modify (set_processingBuckets (λ s, s ∖ {[ id ]}))) w in
  r.1 = Ok tt ∧ id ∉ processingBuckets r.2.
Proof.
  cbv zeta. unfold try_finally, try_catch.
  destruct (m w) as [[[]|e] w1]; rewrite ?ret_app, modify_app; cbn [fst snd];
    world_simpl; (split; [done|]); rewrite elem_of_difference, elem_of_singleton; tauto.
Qed.

(** X14. [processBucket] never throws. A bucket that is already being
    processed is left alone entirely; otherwise the bucket is released
    again when the call ends, however it ends; and when no bucket record
    exists nothing is written. *)
Theorem processBucket_returns (ch : Chain) (bucketId : string) (w : World) :
  let run := BatchProcessorService.processBucket ch bucketId in
  outcome run w = Ok tt
  ∧ (bucketId ∈ processingBuckets w → exec run w = w)
  ∧ (bucketId ∉ processingBuckets w → bucketId ∉ processingBuckets (exec run w))
  ∧ (bucketId ∉ processingBuckets w → view w (BucketModel.key bucketId) = None →
     disk (exec run w) = disk w ∧ journal (exec run w) = journal w).
Proof.
  cbv zeta. unfold outcome, exec, BatchProcessorService.processBucket.
  rewrite bind_app, gets_app. cbv beta iota.
  destruct (bool_decide_reflect (bucketId ∈ processingBuckets w)) as [Hbusy|Hfree].
  { rewrite ret_app. by split_and!. }
  rewrite bind_app, modify_app. cbv beta iota.
  match goal with |- context [try_finally (try_catch ?m _) _ ?w0] =>
    pose proof (guarded_total m bucketId w0) as [Hr Hl];
    split; [exact Hr|]; split; [done|]; split; [intros _; exact Hl|]
  end.
  intros _ Hv. unfold try_finally, try_catch.
  unfold BucketModel.findById. rewrite !bind_app, get_eq. cbv beta iota.
  assert (Hv' : view (set_processingBuckets (λ s, {[bucketId]} ∪ s) w)
                  (BucketModel.key bucketId) = None) by exact Hv.
  rewrite Hv'. rewrite (warm_None _ _ Hv'). by rewrite !ret_app, modify_app.
Qed.


(** X16. Freezing an amount and unfreezing the same amount gives the
    balance back: with no rejected write, for an amount that is covered
    by the available balance, both calls return normally and the
    available and frozen amounts are what they were. *)
Theorem freeze_unfreeze_round_trip (w : World) (u c cur : string) (amt : Z) :
  faults w = [] →
  0 ≤ amt ≤ bal_amount (balanceOf w u c cur) →
  0 ≤ bal_frozenAmount (balanceOf w u c cur) →
  let run := BalanceModel.freezeBalance u c cur amt ;;
             BalanceModel.unfreezeBalance u c cur amt in
  outcome run w = Ok tt
  ∧ balanceOf (exec run w) u c cur
    = mkBalance u c cur (bal_amount (balanceOf w u c cur))
        (bal_frozenAmount (balanceOf w u c cur)).
Proof.
  intros Hf Hamt Hfrozen. cbv zeta.
  set (b := balanceOf w u c cur) in *.
  unfold outcome, exec. rewrite bind_app.
  unfold BalanceModel.freezeBalance. rewrite bind_app, getBalance_eq.
  cbv beta iota zeta. fold b.
  destruct (Z.ltb_spec (bal_amount b) amt); [lia|].
  rewrite updateBalance_eq.
  cbn [bal_amount bal_frozenAmount bal_username bal_blockchain bal_currency].
  destruct (Z.ltb_spec (bal_amount b - amt) 0); [lia|].
  destruct (Z.ltb_spec (bal_frozenAmount b + amt) 0); [lia|].
  rewrite put_ok by (by rewrite faults_warm). cbv beta iota.
  unfold BalanceModel.unfreezeBalance. rewrite bind_app, getBalance_eq.
  cbv beta iota zeta.
  rewrite (proj2 (balance_after_commit u c cur _ _)).
  cbn [bal_amount bal_frozenAmount].
  destruct (Z.ltb_spec (bal_frozenAmount b + amt) amt); [lia|].
  rewrite updateBalance_eq.
  cbn [bal_amount bal_frozenAmount bal_username bal_blockchain bal_currency].
  destruct (Z.ltb_spec (bal_amount b - amt + amt) 0); [lia|].
  destruct (Z.ltb_spec (bal_frozenAmount b + amt - amt) 0); [lia|].
  rewrite put_ok.
  2:{ rewrite faults_warm. unfold commit. world_simpl. by rewrite faults_warm. }
  cbn [fst snd]. split; [done|].
  rewrite (proj2 (balance_after_commit u c cur _ _)). f_equal; lia.
Qed.

Lemma freeze_unfreeze_round_trip_witness :
  let run := BalanceModel.freezeBalance "alice" "mind" "MIND" 1000 ;;
             BalanceModel.unfreezeBalance "alice" "mind" "MIND" 1000 in
  outcome run world_alice_bob = Ok tt
  ∧ balanceOf (exec run world_alice_bob) "alice" "mind" "MIND"
    = mkBalance "alice" "mind" "MIND"
        (bal_amount (balanceOf world_alice_bob "alice" "mind" "MIND"))
        (bal_frozenAmount (balanceOf world_alice_bob "alice" "mind" "MIND")).
Proof.
  apply (freeze_unfreeze_round_trip world_alice_bob "alice" "mind" "MIND" 1000);
    vm_compute; [reflexivity|split; discriminate|discriminate].
Defined.

Lemma bucket_ne_withdrawal b x : BucketModel.key b ≠ WithdrawalModel.key x.
Proof. key_ne. Qed.
Lemma bucket_ne_balance b u c cur : BucketModel.key b ≠ BalanceModel.key u c cur.
Proof. key_ne. Qed.
Lemma withdrawal_ne_balance x u c cur : WithdrawalModel.key x ≠ BalanceModel.key u c cur.
Proof. key_ne. Qed.

Lemma view_assign_ne k k' v w : k' ≠ k → view (set_cache (insert k' v) w) k = view w k.
Proof. intros. unfold view. world_simpl. by rewrite lookup_insert_ne. Qed.
Lemma view_assign_eq k v w : view (set_cache (insert k v) w) k = Some v.
Proof. unfold view. world_simpl. by rewrite lookup_insert_eq. Qed.

Lemma BucketModel_findById_eq id w :
  BucketModel.findById id w
  = (Ok (match view w (BucketModel.key id) with
         | Some (VBucket b) => Some b | _ => None end), warm (BucketModel.key id) w).
Proof. unfold BucketModel.findById, bind, ret. by rewrite get_eq. Qed.

(** What [addToBucket] does when no write is rejected. *)
Lemma addToBucket_run (x : Withdrawal) (w : World) :
  let bid := BatchProcessorService.bucketIdAt (wd_blockchain x) (wd_currency x) (now w) in
  faults w = [] →
  (∀ b, view w (BucketModel.key bid) = Some (VBucket b) → bk_id b = bid) →
  ∃ bucket w',
    BatchProcessorService.addToBucket x w = (Ok bucket, w')
    ∧ faults w' = [] ∧ now w' = now w
    ∧ last (bk_withdrawalIds bucket) = Some (wd_id x)
    ∧ now w < bk_expiresAt bucket
    ∧ disk w' !! BucketModel.key bid = Some (VBucket bucket)
    ∧ disk w' !! WithdrawalModel.key (wd_id x)
      = Some (VWithdrawal (BatchProcessorService.with_status added_to_bucket
                             (BatchProcessorService.with_bucketId bid x)))
    ∧ ∀ k, k ≠ BucketModel.key bid → k ≠ WithdrawalModel.key (wd_id x) →
           disk w' !! k = disk w !! k ∧ view w' k = view w k.
Proof.
  cbv zeta. intros Hf Hkeyed.
  set (bid := BatchProcessorService.bucketIdAt (wd_blockchain x) (wd_currency x) (now w)) in *.
  unfold BatchProcessorService.addToBucket.
  rewrite bind_app, gets_app. cbv beta iota. fold bid.
  rewrite bind_app, BucketModel_findById_eq. cbv beta iota.
  set (w0 := warm (BucketModel.key bid) w).
  assert (Hf0 : faults w0 = []) by (by unfold w0; rewrite faults_warm).
  assert (Hn0 : now w0 = now w) by apply now_warm.
  (* the bucket the withdrawal goes into, and the world once it exists *)
  assert (Hstage : ∃ bucket w1,
    (match match view w (BucketModel.key bid) with
           | Some (VBucket b) => Some b | _ => None end with
     | Some b =>
         if bk_expiresAt b <=? now w then
           BucketModel.create
             (mkBucket bid (wd_blockchain x) (wd_currency x) (now w)
                (now w + BatchProcessorService.BUCKET_DURATION_MS) []) ;;
           BatchProcessorService.scheduleBucketProcessing
             (mkBucket bid (wd_blockchain x) (wd_currency x) (now w)
                (now w + BatchProcessorService.BUCKET_DURATION_MS) []) ;;
           ret (mkBucket bid (wd_blockchain x) (wd_currency x) (now w)
                  (now w + BatchProcessorService.BUCKET_DURATION_MS) [])
         else ret b
     | None =>
         BucketModel.create
           (mkBucket bid (wd_blockchain x) (wd_currency x) (now w)
              (now w + BatchProcessorService.BUCKET_DURATION_MS) []) ;;
         BatchProcessorService.scheduleBucketProcessing
           (mkBucket bid (wd_blockchain x) (wd_currency x) (now w)
              (now w + BatchProcessorService.BUCKET_DURATION_MS) []) ;;
         ret (mkBucket bid (wd_blockchain x) (wd_currency x) (now w)
                (now w + BatchProcessorService.BUCKET_DURATION_MS) [])
     end) w0 = (Ok bucket, w1)
    ∧ faults w1 = [] ∧ now w1 = now w ∧ bk_id bucket = bid
    ∧ now w < bk_expiresAt bucket
    ∧ ∀ k, k ≠ BucketModel.key bid → disk w1 !! k = disk w !! k ∧ view w1 k = view w k).
  { assert (Hnew : ∃ bucket w1,
      (BucketModel.create
         (mkBucket bid (wd_blockchain x) (wd_currency x) (now w)
            (now w + BatchProcessorService.BUCKET_DURATION_MS) []) ;;
       BatchProcessorService.scheduleBucketProcessing
         (mkBucket bid (wd_blockchain x) (wd_currency x) (now w)
            (now w + BatchProcessorService.BUCKET_DURATION_MS) []) ;;
       ret (mkBucket bid (wd_blockchain x) (wd_currency x) (now w)
              (now w + BatchProcessorService.BUCKET_DURATION_MS) [])) w0
      = (Ok bucket, w1)
      ∧ faults w1 = [] ∧ now w1 = now w ∧ bk_id bucket = bid
      ∧ now w < bk_expiresAt bucket
      ∧ ∀ k, k ≠ BucketModel.key bid → disk w1 !! k = disk w !! k ∧ view w1 k = view w k).
    { eexists _, _. unfold BucketModel.create, BatchProcessorService.scheduleBucketProcessing.
      rewrite bind_app, put_ok by done. cbv beta iota.
      rewrite bind_app, !ret_app. cbv beta iota.
      split; [reflexivity|]. cbn [bk_id bk_expiresAt].
      split; [done|]. split; [done|]. split; [done|].
      split; [unfold BatchProcessorService.BUCKET_DURATION_MS; lia|].
      intros k Hk. unfold view, commit, w0. world_simpl.
      rewrite !lookup_insert_ne by done. fold (view (warm (BucketModel.key bid) w) k).
      by rewrite disk_warm, view_warm. }
    destruct (view w (BucketModel.key bid)) as [v|] eqn:Hv; [|exact Hnew].
    destruct v as [| | | |b| | |]; try exact Hnew.
    destruct (Z.leb_spec (bk_expiresAt b) (now w)) as [Hexp|Hlive]; [exact Hnew|].
    exists b, w0. rewrite ret_app. split; [done|]. split; [done|]. split; [done|].
    split; [by apply Hkeyed|]. split; [done|].
    intros k Hk. unfold w0. by rewrite disk_warm, view_warm. }
  destruct Hstage as (bucket & w1 & Hrun & Hf1 & Hn1 & Hid & Hlive & Hfr1).
  rewrite bind_app, Hrun. cbv beta iota zeta.
  rewrite bind_app, modify_app. cbv beta iota.
  rewrite bind_app, modify_app. cbv beta iota.
  rewrite bind_app. unfold promise_all2, BucketModel.update, WithdrawalModel.update.
  cbn [bk_id wd_id BatchProcessorService.with_ids BatchProcessorService.with_status
       BatchProcessorService.with_bucketId].
  rewrite Hid.
  rewrite put_ok by done. rewrite put_ok by done. cbv beta iota. rewrite ret_app.
  eexists _, _. split; [reflexivity|].
  split; [done|]. split; [done|].
  split; [unfold BatchProcessorService.with_ids; cbn [bk_withdrawalIds];
          by rewrite last_snoc|].
  split; [exact Hlive|].
  split.
  { unfold commit. world_simpl.
    rewrite lookup_insert_ne by (apply not_eq_sym, bucket_ne_withdrawal).
    apply lookup_insert_eq. }
  split.
  { unfold commit. world_simpl. apply lookup_insert_eq. }
  intros k Hk1 Hk2. destruct (Hfr1 k Hk1) as [Hd Hvw].
  unfold view, commit. world_simpl. rewrite !lookup_insert_ne by done.
  split; [done|]. exact Hvw.
Qed.

(** X17. With no rejected write, [addToBucket] puts a withdrawal into
    the bucket of the current minute for its blockchain and currency:
    the bucket it returns has not expired and lists the withdrawal last,
    that bucket is what the store holds under the bucket id, the
    withdrawal is stored as 'added_to_bucket' with that bucket id, and no
    other record changes. *)
Theorem addToBucket_spec (x : Withdrawal) (w : World) :
  faults w = [] →
  (∀ b, view w (BucketModel.key
                  (BatchProcessorService.bucketIdAt (wd_blockchain x) (wd_currency x) (now w)))
        = Some (VBucket b) →
        bk_id b = BatchProcessorService.bucketIdAt (wd_blockchain x) (wd_currency x) (now w)) →
  let bid := BatchProcessorService.bucketIdAt (wd_blockchain x) (wd_currency x) (now w) in
  let w' := exec (BatchProcessorService.addToBucket x) w in
  ∃ bucket,
    outcome (BatchProcessorService.addToBucket x) w = Ok bucket
    ∧ last (bk_withdrawalIds bucket) = Some (wd_id x)
    ∧ now w < bk_expiresAt bucket
    ∧ disk w' !! BucketModel.key bid = Some (VBucket bucket)
    ∧ storedWithdrawal w' (wd_id x)
      = Some (BatchProcessorService.with_status added_to_bucket
                (BatchProcessorService.with_bucketId bid x))
    ∧ ∀ k, k ≠ BucketModel.key bid → k ≠ WithdrawalModel.key (wd_id x) →
           disk w' !! k = disk w !! k.
Proof.
  intros Hf Hkeyed. cbv zeta.
  destruct (addToBucket_run x w Hf Hkeyed)
    as (bucket & w' & Hrun & _ & _ & Hlast & Hlive & Hb & Hx & Hfr).
  unfold outcome, exec, storedWithdrawal. rewrite Hrun. cbn [fst snd].
  exists bucket. rewrite Hx. split_and!; try done.
  intros k Hk1 Hk2. by apply Hfr.
Qed.

Lemma addToBucket_spec_witness :
  let x := mkWithdrawal "w9" "alice" "mind" "MIND" 1000 "0xD9" created None None 0 in
  ∃ bucket,
    outcome (BatchProcessorService.addToBucket x) world_alice_bob = Ok bucket
    ∧ last (bk_withdrawalIds bucket) = Some "w9".
Proof.
  destruct (addToBucket_spec
              (mkWithdrawal "w9" "alice" "mind" "MIND" 1000 "0xD9" created None None 0)
              world_alice_bob) as (bucket & Hout & Hlast & _).
  - vm_compute; reflexivity.
  - intros b Hb. vm_compute in Hb. discriminate Hb.
  - exists bucket. by split.
Defined.

(** The limits of every configured currency: minimum 1.00, maximum
    10000.00, fee 1.00. *)
Lemma withdrawalLimits_Some c cur mn mx fee :
  withdrawalLimits c cur = Some (mn, mx, fee) → mn = 100 ∧ mx = 1000000 ∧ fee = 100.
Proof.
  unfold withdrawalLimits, networks.
  destruct (decide (c = "mind")) as [->|Hc].
  2:{ by rewrite lookup_singleton_ne. }
  rewrite lookup_singleton_eq.
  cbn [nativeCurrency min_withdrawal max_withdrawal withdrawal_fee erc20Tokens].
  destruct (bool_decide (cur = "MIND")); [by intros [= <- <- <-]|].
  destruct (decide (cur = "USDT")) as [->|H1].
  { rewrite lookup_insert_eq. by intros [= <- <- <-]. }
  rewrite lookup_insert_ne by done.
  destruct (decide (cur = "MUSD")) as [->|H2].
  { rewrite lookup_singleton_eq. by intros [= <- <- <-]. }
  by rewrite lookup_singleton_ne.
Qed.



(** * The batch contract *)

Section contract.
Import BatchProcessor.

Lemma balanceAt_move from to v s a :
  balanceAt (move from to v s) a
  = balanceAt s a - (if decide (a = from) then v else 0)
    + (if decide (a = to) then v else 0).
Proof.
  unfold move, balanceAt.
  destruct (decide (a = to)) as [->|Hto].
  - rewrite lookup_insert_eq. cbn [default from_option id].
    destruct (decide (to = from)) as [->|Hfrom].
    + rewrite lookup_insert_eq. cbn. lia.
    + rewrite lookup_insert_ne by done. lia.
  - rewrite lookup_insert_ne by done.
    destruct (decide (a = from)) as [->|Hfrom].
    + rewrite lookup_insert_eq. cbn. lia.
    + rewrite lookup_insert_ne by done. lia.
Qed.

Lemma sumAmounts_Some amounts acc t :
  sumAmounts amounts acc = Some t →
  t = acc + total amounts ∧ Forall (λ a, 0 < a) amounts ∧ (acc ≤ MAX_UINT256 → t ≤ MAX_UINT256).
Proof.
  revert acc. induction amounts as [|a rest IH]; intros acc; cbn [sumAmounts total foldr].
  { intros [= <-]. split; [lia|]. split; [constructor|done]. }
  destruct (Z.leb_spec a 0); [done|].
  destruct (Z.ltb_spec MAX_UINT256 (acc + a)); [done|].
  intros (-> & Hall & Hmax)%IH. fold (total rest).
  split; [lia|]. split; [by constructor|]. intros _. by apply Hmax.
Qed.

Lemma sumAmounts_ok amounts acc :
  Forall (λ a, 0 < a) amounts → acc + total amounts ≤ MAX_UINT256 →
  sumAmounts amounts acc = Some (acc + total amounts).
Proof.
  intros Hall. revert acc.
  induction Hall as [|a rest Ha Hall IH]; intros acc; cbn [sumAmounts total foldr].
  { intros _. f_equal. lia. }
  fold (total rest). intros Hmax.
  assert (0 ≤ total rest).
  { clear -Hall. induction Hall as [|x l Hx Hl IHl]; cbn [total foldr]; [done|].
    fold (total l). lia. }
  destruct (Z.leb_spec a 0); [lia|].
  destruct (Z.ltb_spec MAX_UINT256 (acc + a)); [lia|].
  rewrite IH by lia. f_equal. lia.
Qed.

Lemma payAll_Some env recipients amounts s s' :
  length recipients = length amounts →
  payAll env recipients amounts s = Some s' →
  Forall (λ r, accepts env r = true) recipients
  ∧ ∀ a, balanceAt s' a
         = balanceAt s a + received a recipients amounts
           - (if decide (a = this env) then total amounts else 0).
Proof.
  revert amounts s. induction recipients as [|r rs IH]; intros [|x xs] s Hlen;
    try discriminate Hlen; cbn [payAll received total foldr].
  { intros [= <-]. split; [constructor|]. intros a. destruct (decide _); lia. }
  unfold send.
  destruct (Z.ltb_spec (balanceAt s (this env)) x); [done|].
  destruct (accepts env r) eqn:Hr; [|done]. cbn [negb orb].
  intros [Hall Hbal]%IH; [|by injection Hlen].
  split; [by constructor|]. intros a. rewrite Hbal, balanceAt_move.
  fold (total xs).
  destruct (decide (a = this env)), (decide (a = r)), (bool_decide_reflect (r = a));
    try congruence; lia.
Qed.

Lemma payAll_ok env recipients amounts s :
  length recipients = length amounts →
  Forall (λ a, 0 < a) amounts →
  Forall (λ r, accepts env r = true) recipients →
  total amounts ≤ balanceAt s (this env) →
  is_Some (payAll env recipients amounts s).
Proof.
  revert amounts s. induction recipients as [|r rs IH]; intros [|x xs] s Hlen Hpos Hacc;
    try discriminate Hlen; cbn [payAll total foldr]; [by eexists|].
  fold (total xs). intros Hbal.
  apply Forall_cons in Hpos as [Hx Hpos]. apply Forall_cons in Hacc as [Hr Hacc].
  unfold send. rewrite Hr. cbn [negb].
  destruct (Z.ltb_spec (balanceAt s (this env)) x) as [Hlt|Hge]; cbn [orb].
  { assert (0 ≤ total xs).
    { clear -Hpos. induction Hpos as [|y l Hy Hl IHl]; cbn [total foldr]; [done|].
      fold (total l). lia. }
    lia. }
  apply IH; [by injection Hlen|done|done|].
  rewrite balanceAt_move. rewrite decide_True by done.
  destruct (decide (this env = r)); lia.
Qed.

(** X19. A [processBatchNative] call that goes through had recipients
    and amounts of the same non-zero length, only positive amounts, a
    total within uint256 and covered by the value sent, and recipients
    that all took their transfer.  Afterwards every address holds what it
    held, plus what the batch paid it, minus the value sent if it is the
    sender; the contract keeps the part of the value that exceeds the
    total. *)
Theorem processBatchNative_effect (env : Env) (sender : string) (value : Z)
    (recipients : list string) (amounts : list Z) (s s' : gmap string Z) :
  processBatchNative env sender value recipients amounts s = Some s' →
  (value ≤ balanceAt s sender
   ∧ length recipients = length amounts ∧ recipients ≠ []
   ∧ Forall (λ a, 0 < a) amounts
   ∧ total amounts ≤ value ∧ total amounts ≤ MAX_UINT256
   ∧ Forall (λ r, accepts env r = true) recipients)
  ∧ ∀ a, balanceAt s' a
         = balanceAt s a + received a recipients amounts
           + (if decide (a = this env) then value - total amounts else 0)
           - (if decide (a = sender) then value else 0).
Proof.
  unfold processBatchNative.
  destruct (Z.ltb_spec (balanceAt s sender) value) as [|Hval]; [done|].
  destruct (Nat.eqb_spec (length recipients) (length amounts)) as [Hlen|]; [|done].
  cbn [negb].
  destruct (Nat.eqb_spec (length recipients) 0) as [|Hne]; [done|].
  destruct (sumAmounts amounts 0) as [t|] eqn:Hsum; [|done].
  apply sumAmounts_Some in Hsum as (-> & Hpos & Hmax).
  destruct (Z.ltb_spec value (0 + total amounts)) as [|Htot]; [done|].
  intros [Hacc Hbal]%payAll_Some; [|done].
  split.
  { split_and!; try done; try lia.
    - by intros ->.
    - unfold MAX_UINT256 in *. lia. }
  intros a. rewrite Hbal, balanceAt_move.
  destruct (decide (a = this env)), (decide (a = sender)); lia.
Qed.

Lemma processBatchNative_effect_witness :
  ∃ s', processBatchNative env_batch "0xH0" 60 ["0xA1"; "0xB2"] [20; 30] chain_state = Some s'
        ∧ balanceAt s' "0xC0" = balanceAt chain_state "0xC0" + 0 + (60 - 50) - 0.
Proof.
  destruct (processBatchNative env_batch "0xH0" 60 ["0xA1"; "0xB2"] [20; 30] chain_state)
    as [s'|] eqn:E; [|vm_compute in E; discriminate E].
  exists s'. split; [done|].
  destruct (processBatchNative_effect env_batch "0xH0" 60 ["0xA1"; "0xB2"] [20; 30]
              chain_state s' E) as [_ Hbal].
  exact (Hbal "0xC0").
Defined.

(** X20. Conversely, a [processBatchNative] call goes through whenever
    the sender can pay the value, the contract's balance is not negative,
    recipients and amounts have the same non-zero length, every amount is
    positive, the total fits uint256 and is covered by the value, and
    every recipient takes its transfer. *)
Theorem processBatchNative_succeeds (env : Env) (sender : string) (value : Z)
    (recipients : list string) (amounts : list Z) (s : gmap string Z) :
  value ≤ balanceAt s sender → 0 ≤ balanceAt s (this env) →
  length recipients = length amounts → recipients ≠ [] →
  Forall (λ a, 0 < a) amounts →
  total amounts ≤ value → total amounts ≤ MAX_UINT256 →
  Forall (λ r, accepts env r = true) recipients →
  is_Some (processBatchNative env sender value recipients amounts s).
Proof.
  intros Hval Hthis Hlen Hne Hpos Htot Hmax Hacc. unfold processBatchNative.
  destruct (Z.ltb_spec (balanceAt s sender) value); [lia|].
  destruct (Nat.eqb_spec (length recipients) (length amounts)); [|done].
  cbn [negb].
  destruct (Nat.eqb_spec (length recipients) 0) as [H0|_].
  { by destruct recipients. }
  rewrite sumAmounts_ok by (done || lia). cbv beta iota.
  destruct (Z.ltb_spec value (0 + total amounts)); [lia|].
  apply payAll_ok; try done.
  rewrite balanceAt_move.
  destruct (decide (this env = sender)) as [<-|], (decide (this env = this env));
    try done; lia.
Qed.

Lemma processBatchNative_succeeds_witness :
  is_Some (processBatchNative env_batch "0xH0" 60 ["0xA1"; "0xB2"] [20; 30] chain_state).
Proof.
  apply (processBatchNative_succeeds env_batch "0xH0" 60 ["0xA1"; "0xB2"] [20; 30]
           chain_state).
  - vm_compute. discriminate.
  - vm_compute. discriminate.
  - reflexivity.
  - discriminate.
  - repeat constructor.
  - vm_compute. discriminate.
  - vm_compute. discriminate.
  - repeat constructor.
Defined.

End contract.

(** * The WebSocket notifier *)

Section notifier.
Import WebSocketService.

Lemma modernMatch_true message t sub :
  modernMatch message t sub = true →
  m_type message = sub_type sub +:+ "_update"
  ∧ match t with
    | One u => sub_username sub = u
    | Both a b => a = Some (sub_username sub) ∨ b = Some (sub_username sub)
    | Nobody => False
    end.
Proof.
  unfold modernMatch. intros [[Ht Hu]%andb_true_iff _]%andb_true_iff. split.
  - repeat apply orb_true_iff in Ht as [Ht|Ht].
    + by apply bool_decide_eq_true in Ht.
    + apply andb_true_iff in Ht as [->%bool_decide_eq_true ->%bool_decide_eq_true]. done.
    + apply andb_true_iff in Ht as [->%bool_decide_eq_true ->%bool_decide_eq_true]. done.
    + apply andb_true_iff in Ht as [->%bool_decide_eq_true ->%bool_decide_eq_true]. done.
    + apply andb_true_iff in Ht as [->%bool_decide_eq_true ->%bool_decide_eq_true]. done.
  - destruct t as [u|a b|]; [|..|done].
    + by apply bool_decide_eq_true in Hu.
    + apply orb_true_iff in Hu as [Hu|Hu]; apply bool_decide_eq_true in Hu; auto.
Qed.

Lemma legacyMatch_true t names :
  legacyMatch t names = true →
  match t with
  | One u => u ∈ names
  | Both a b => (∃ u, a = Some u ∧ u ∈ names) ∨ (∃ u, b = Some u ∧ u ∈ names)
  | Nobody => False
  end.
Proof.
  destruct t as [u|a b|]; cbn [legacyMatch]; [|..|done].
  - by intros ?%bool_decide_eq_true.
  - intros [Ha|Hb]%orb_true_iff.
    + left. destruct a as [u|]; [|done]. exists u. split; [done|].
      by apply bool_decide_eq_true in Ha.
    + right. destruct b as [u|]; [|done]. exists u. split; [done|].
      by apply bool_decide_eq_true in Hb.
Qed.

(** X21. [broadcast] changes no subscription and only appends copies of
    the update to outboxes.  A socket is sent the update only if it is in
    the OPEN state, the update is of one of the four update types, and
    the socket subscribed to a user the update is about (its [username],
    or for a transfer the sender or the recipient): by a legacy
    subscription, or by a subscription object for that user and that
    kind of update. *)
Theorem broadcast_reaches_only_subscribers (message : Message) (s : Service)
    (ws : nat) (k' : Socket) :
  sockets (broadcast message s) !! ws = Some k' →
  ∃ k n,
    sockets s !! ws = Some k
    ∧ outbox k' = outbox k ++ replicate n (Update message)
    ∧ isOpen k' = isOpen k ∧ usernames k' = usernames k
    ∧ subscriptions k' = subscriptions k
    ∧ (0 < n →
       isOpen k = true ∧ m_type message ∈ updateTypes
       ∧ ∃ u, concerns message u
              ∧ (u ∈ usernames k
                 ∨ ∃ p, p ∈ subscriptions k ∧ sub_username p.2 = u
                        ∧ m_type message = sub_type p.2 +:+ "_update"))%nat.
Proof.
  unfold broadcast.
  destruct (bool_decide_reflect (m_type message ∈ updateTypes)) as [Hty|Hty].
  2:{ intros Hk. exists k', 0%nat. cbn [replicate]. rewrite app_nil_r.
      split_and!; try done. lia. }
  cbn [sockets]. rewrite lookup_fmap.
  destruct (sockets s !! ws) as [k|]; [|done]. intros [= <-].
  exists k, (copies message k). cbn [outbox isOpen usernames subscriptions].
  split_and!; try done.
  unfold copies, concerns. destruct (isOpen k); [|lia]. intros Hn.
  split; [done|]. split; [done|].
  destruct (legacyMatch (about message) (usernames k)) eqn:Hl.
  - apply legacyMatch_true in Hl. destruct (about message) as [u|a b|]; [|..|done].
    + exists u. split; [done|]. by left.
    + destruct Hl as [(u & -> & Hu)|(u & -> & Hu)]; exists u; split; auto.
  - destruct (filter _ (subscriptions k)) as [|p l] eqn:Hf; [simpl in Hn; lia|].
    assert (Hp : p ∈ p :: l) by left. rewrite <- Hf in Hp.
    apply list_elem_of_filter in Hp as [[Ht Hu]%modernMatch_true Hp].
    destruct (about message) as [u|a b|]; [|..|done].
    + exists u. split; [done|]. right. by exists p.
    + exists (sub_username p.2). split; [destruct Hu; auto|]. right. by exists p.
Qed.

Lemma broadcast_reaches_only_subscribers_witness :
  ∃ k n,
    sockets (notifier [Connects 1; Says 1 (Some alice_subscribes)] world_alice_bob) !! 1%nat
    = Some k
    ∧ outbox
        (default k
           (sockets (broadcast alice_deposit
                       (notifier [Connects 1; Says 1 (Some alice_subscribes)]
                          world_alice_bob)) !! 1%nat))
      = outbox k ++ replicate n (Update alice_deposit).
Proof.
  destruct (sockets (broadcast alice_deposit
              (notifier [Connects 1; Says 1 (Some alice_subscribes)] world_alice_bob))
            !! 1%nat) as [k'|] eqn:E; [|vm_compute in E; discriminate E].
  destruct (broadcast_reaches_only_subscribers alice_deposit
              (notifier [Connects 1; Says 1 (Some alice_subscribes)] world_alice_bob)
              1%nat k' E) as (k & n & Hk & Hout & _).
  exists k, n. by split.
Defined.

Lemma sockets_send ws m s ws' :
  sockets (send ws m s) !! ws'
  = (λ k, if decide (ws = ws')
          then mkSocket (isOpen k) (usernames k) (subscriptions k) (outbox k ++ [m])
          else k) <$> sockets s !! ws'.
Proof.
  unfold send. cbn [sockets]. destruct (decide (ws = ws')) as [->|Hne].
  - rewrite lookup_alter_eq. by destruct (sockets s !! ws').
  - rewrite lookup_alter_ne by done. by destruct (sockets s !! ws').
Qed.

Lemma subscribed_send ws m s ws' : subscribed (send ws m s) ws' = subscribed s ws'.
Proof.
  unfold subscribed. rewrite sockets_send.
  destruct (sockets s !! ws') as [k|]; [|done]. cbn. by destruct (decide (ws = ws')).
Qed.

Lemma listens_subscribed s s' ws u :
  subscribed s' ws = subscribed s ws → listens s' ws u → listens s ws u.
Proof.
  unfold subscribed, listens. intros Heq (k' & Hk' & Hu). rewrite Hk' in Heq.
  destruct (sockets s !! ws) as [k|]; [|done].
  injection Heq as Hn Hs. exists k. split; [done|]. by rewrite <- Hn, <- Hs.
Qed.

Lemma fresh_subscribed s s' :
  (∀ ws, subscribed s' ws = subscribed s ws) →
  (nextObject s ≤ nextObject s')%nat → fresh_objects s → fresh_objects s'.
Proof.
  intros Heq Hn Hf ws k' p Hk' Hp. specialize (Heq ws). unfold subscribed in Heq.
  rewrite Hk' in Heq. destruct (sockets s !! ws) as [k|] eqn:Hk; [|done].
  injection Heq as _ Hs. rewrite Hs in Hp. specialize (Hf ws k p Hk Hp). lia.
Qed.

(** The socket [ws] gets new sets; what the others have stays. *)
Lemma subscribed_insert ws k n s ws' :
  subscribed (mkService (<[ws := k]> (sockets s)) n) ws'
  = if decide (ws = ws') then Some (usernames k, subscriptions k) else subscribed s ws'.
Proof.
  unfold subscribed. cbn [sockets]. destruct (decide (ws = ws')) as [->|Hne].
  - by rewrite lookup_insert_eq.
  - by rewrite lookup_insert_ne.
Qed.

Lemma elem_of_setAdd o set p : p ∈ setAdd o set → p ∈ set ∨ p = o.
Proof.
  unfold setAdd. destruct (bool_decide _); [by left|].
  intros [?|Hq%list_elem_of_singleton]%elem_of_app; auto.
Qed.

Lemma elem_of_setDelete o set p : p ∈ setDelete o set → p ∈ set.
Proof. unfold setDelete. by intros [_ ?]%list_elem_of_filter. Qed.

Lemma setDelete_fresh o set :
  (∀ p, p ∈ set → p.1 ≠ o.1) → setDelete o set = set.
Proof.
  unfold setDelete. induction set as [|p set IH]; intros Hf; [done|].
  rewrite filter_cons_True by (apply Hf; left). f_equal. apply IH.
  intros q Hq. apply Hf. by right.
Qed.

(** A reply alone changes no subscription. *)
Lemma handled_send ws m message s n w w1 :
  (∀ k, view w1 k = view w k) →
  (nextObject s ≤ n ≤ S (nextObject s))%nat →
  message_handled message s w (Ok (send ws m (mkService (sockets s) n)), w1).
Proof.
  intros Hw Hn. exists (send ws m (mkService (sockets s) n)), w1.
  assert (Heq : ∀ ws', subscribed (send ws m (mkService (sockets s) n)) ws'
                       = subscribed s ws') by (intros; by rewrite subscribed_send).
  split; [done|]. split; [done|]. split; [done|]. split; [|split].
  - intros ws' u Hl. left. exact (listens_subscribed _ _ _ _ (Heq ws') Hl).
  - apply fresh_subscribed; [done|]. cbn. lia.
  - intros. apply Heq.
Qed.

(** The socket gets new sets, and a reply. *)
Lemma handled_update ws m message s k k' n w w1 :
  sockets s !! ws = Some k →
  (∀ k, view w1 k = view w k) →
  (nextObject s ≤ n ≤ S (nextObject s))%nat →
  (∀ u, u ∈ usernames k' →
        u ∈ usernames k ∨ ∃ a, view w (AccountModel.key u) = Some (VAccount a)) →
  (∀ p, p ∈ subscriptions k' →
        p ∈ subscriptions k
        ∨ (p.1 < n)%nat ∧ ∃ a, view w (AccountModel.key (sub_username p.2))
                               = Some (VAccount a)) →
  (∀ request, message = Some request →
     r_type request = "unsubscribe" → api.given (r_subscriptionType request) ≠ None →
     fresh_objects s → usernames k' = usernames k ∧ subscriptions k' = subscriptions k) →
  message_handled message s w
    (Ok (send ws m (mkService (<[ws := k']> (sockets s)) n)), w1).
Proof.
  intros Hk Hw Hn Hnames Hsubs Hun.
  exists (send ws m (mkService (<[ws := k']> (sockets s)) n)), w1.
  split; [done|]. split; [done|]. split; [done|].
  assert (Hlook : ∀ ws' k1,
    sockets (send ws m (mkService (<[ws := k']> (sockets s)) n)) !! ws' = Some k1 →
    (ws' = ws ∧ usernames k1 = usernames k' ∧ subscriptions k1 = subscriptions k')
    ∨ (ws' ≠ ws ∧ sockets s !! ws' = Some k1)).
  { intros ws' k1. rewrite sockets_send. cbn [sockets].
    destruct (decide (ws = ws')) as [<-|Hne].
    - rewrite lookup_insert_eq. intros [= <-]. left. by split_and!.
    - rewrite lookup_insert_ne by done. intros Hk1. right. split; [done|].
      destruct (sockets s !! ws'); [|done]. by injection Hk1 as <-. }
  split; [|split].
  - intros ws' u (k1 & Hk1 & Hu).
    destruct (Hlook ws' k1 Hk1) as [(-> & Hn1 & Hs1)|(Hne & Hk1')].
    + rewrite Hn1, Hs1 in Hu. destruct Hu as [Hu|(p & Hp & Hpu)].
      * destruct (Hnames u Hu) as [Hold|Hacc]; [|by right].
        left. exists k. split; [done|]. by left.
      * destruct (Hsubs p Hp) as [Hold|[_ Hacc]]; [|right; by rewrite <- Hpu].
        left. exists k. split; [done|]. right. by exists p.
    + left. by exists k1.
  - intros Hf ws' k1 p Hk1 Hp. cbn [nextObject send].
    destruct (Hlook ws' k1 Hk1) as [(-> & Hn1 & Hs1)|(Hne & Hk1')].
    + rewrite Hs1 in Hp. destruct (Hsubs p Hp) as [Hold|[Hlt _]]; [|done].
      specialize (Hf ws k p Hk Hold). lia.
    + specialize (Hf ws' k1 p Hk1' Hp). lia.
  - intros request Hm Ht Hg Hf ws'. destruct (Hun request Hm Ht Hg Hf) as [Hn1 Hs1].
    rewrite subscribed_send, subscribed_insert.
    destruct (decide (ws = ws')) as [<-|Hne]; [|done].
    unfold subscribed. rewrite Hk. cbn. by rewrite Hn1, Hs1.
Qed.

(** What one client message does to the subscriptions. *)
Lemma onMessage_run ws message s w :
  message_handled message s w (onMessage ws message s w).
Proof.
  assert (Hs0 : ∀ m w1, (∀ k, view w1 k = view w k) →
            message_handled message s w (Ok (send ws m s), w1)).
  { intros m w1 Hw1. destruct s as [socks n].
    apply (handled_send ws m message (mkService socks n) n w w1 Hw1). cbn. lia. }
  destruct message as [parsed|]; cbn [onMessage]; [|by apply Hs0].
  destruct (bool_decide_reflect (r_type parsed = "subscribe")) as [Hsub|Hsub].
  - (* subscribe *)
    destruct (api.given (r_username parsed)) as [username|]; [|by apply Hs0].
    rewrite bind_app, findByUsername_eq. cbv beta iota.
    set (w1 := warm (AccountModel.key username) w).
    assert (Hw1 : ∀ k, view w1 k = view w k) by (intros; apply view_warm).
    destruct (match view w (AccountModel.key username) with
              | Some (VAccount a) => Some a | _ => None end) as [a|] eqn:Ha;
      [|by apply Hs0].
    assert (Hacc : ∃ a, view w (AccountModel.key username) = Some (VAccount a)).
    { destruct (view w (AccountModel.key username)) as [[]|]; try done. by eexists. }
    destruct (api.given (r_subscriptionType parsed)) as [subscriptionType|].
    + destruct (bool_decide (subscriptionType ∈ subscriptionTypes)); [|by apply Hs0].
      destruct (sockets s !! ws) as [k|] eqn:Hk.
      2:{ rewrite ret_app. apply handled_send; [done|lia]. }
      rewrite ret_app. apply (handled_update ws _ _ s k); try done; try lia.
      * intros u Hu. by left.
      * cbn [subscriptions]. intros p [Hp|Hp]%elem_of_setAdd; [by left|].
        right. subst p. cbn. split; [lia|done].
      * intros request [= <-]. congruence.
    + destruct (sockets s !! ws) as [k|] eqn:Hk; [|by apply Hs0].
      rewrite ret_app. apply (handled_update ws _ _ s k); try done; try lia.
      * cbn [usernames]. intros u [Hu%elem_of_singleton|Hu]%elem_of_union; [|by left].
        right. by subst u.
      * cbn [subscriptions]. intros p Hp. by left.
      * intros request [= <-]. congruence.
  - destruct (bool_decide_reflect (r_type parsed = "unsubscribe")) as [Hun|Hun];
      [|by apply Hs0].
    destruct (api.given (r_username parsed)) as [username|]; [|by apply Hs0].
    destruct (api.given (r_subscriptionType parsed)) as [subscriptionType|] eqn:Hty.
    + destruct (sockets s !! ws) as [k|] eqn:Hk.
      2:{ rewrite ret_app. apply handled_send; [done|lia]. }
      rewrite ret_app. apply (handled_update ws _ _ s k); try done; try lia.
      * intros u Hu. by left.
      * cbn [subscriptions]. intros p Hp%elem_of_setDelete. by left.
      * intros request [= <-] _ _ Hf. cbn [usernames subscriptions]. split; [done|].
        apply setDelete_fresh. intros p Hp. cbn.
        specialize (Hf ws k p Hk Hp). lia.
    + destruct (sockets s !! ws) as [k|] eqn:Hk; [|by apply Hs0].
      rewrite ret_app. apply (handled_update ws _ _ s k); try done; try lia.
      * cbn [usernames]. intros u [Hu _]%elem_of_difference. by left.
      * cbn [subscriptions]. intros p Hp. by left.
      * intros request [= <-] _ Hg. by rewrite Hty in Hg.
Qed.

Lemma step_run e s w :
  ∃ s' w', step e s w = (Ok s', w')
    ∧ (∀ k, view w' k = view w k)
    ∧ (∀ ws u, listens s' ws u →
         listens s ws u ∨ ∃ a, view w (AccountModel.key u) = Some (VAccount a))
    ∧ (fresh_objects s → fresh_objects s').
Proof.
  destruct e as [ws|ws|ws|ws message|message]; cbn [step].
  - (* a new socket *)
    eexists _, _. split; [apply ret_app|]. split; [done|]. split.
    + intros ws' u (k & Hk & Hu). unfold connection in Hk. cbn [sockets] in Hk.
      destruct (decide (ws = ws')) as [<-|Hne].
      * rewrite lookup_insert_eq in Hk. injection Hk as <-. cbn in Hu.
        destruct Hu as [Hu|(p & Hp & _)]; [by apply not_elem_of_empty in Hu|].
        by apply elem_of_nil in Hp.
      * rewrite lookup_insert_ne in Hk by done. left. by exists k.
    + intros Hf ws' k p Hk Hp. unfold connection in Hk |- *. cbn [sockets nextObject] in *.
      destruct (decide (ws = ws')) as [<-|Hne].
      * rewrite lookup_insert_eq in Hk. injection Hk as <-. by apply elem_of_nil in Hp.
      * rewrite lookup_insert_ne in Hk by done. by apply (Hf ws' k p).
  - (* a socket leaves the OPEN state *)
    assert (Heq : ∀ ws', subscribed (closing ws s) ws' = subscribed s ws').
    { intros ws'. unfold subscribed, closing. cbn [sockets].
      destruct (decide (ws = ws')) as [<-|Hne].
      - rewrite lookup_alter_eq. by destruct (sockets s !! ws).
      - by rewrite lookup_alter_ne. }
    eexists _, _. split; [apply ret_app|]. split; [done|]. split.
    + intros ws' u Hl. left. exact (listens_subscribed _ _ _ _ (Heq ws') Hl).
    + by apply fresh_subscribed.
  - (* a socket is closed *)
    eexists _, _. split; [apply ret_app|]. split; [done|]. split.
    + intros ws' u (k & Hk & Hu). unfold close in Hk. cbn [sockets] in Hk.
      apply lookup_delete_Some in Hk as [_ Hk]. left. by exists k.
    + intros Hf ws' k p Hk Hp. unfold close in Hk |- *. cbn [sockets nextObject] in *.
      apply lookup_delete_Some in Hk as [_ Hk]. by apply (Hf ws' k p).
  - destruct (onMessage_run ws message s w) as (s' & w' & Hrun & H1 & _ & H3 & H4 & _).
    exists s', w'. by split_and!.
  - assert (Heq : ∀ ws', subscribed (broadcast message s) ws' = subscribed s ws').
    { intros ws'. unfold subscribed, broadcast.
      destruct (bool_decide _); [|done]. cbn [sockets]. rewrite lookup_fmap.
      by destruct (sockets s !! ws'). }
    eexists _, _. split; [apply ret_app|]. split; [done|]. split.
    + intros ws' u Hl. left. exact (listens_subscribed _ _ _ _ (Heq ws') Hl).
    + apply fresh_subscribed; [done|]. unfold broadcast. by destruct (bool_decide _).
Qed.

Lemma run_inv events s w w0 :
  (∀ k, view w k = view w0 k) →
  (∀ ws u, listens s ws u → ∃ a, view w0 (AccountModel.key u) = Some (VAccount a)) →
  fresh_objects s →
  ∃ s' w', run events s w = (Ok s', w')
    ∧ (∀ k, view w' k = view w0 k)
    ∧ (∀ ws u, listens s' ws u → ∃ a, view w0 (AccountModel.key u) = Some (VAccount a))
    ∧ fresh_objects s'.
Proof.
  revert s w. induction events as [|e events IH]; intros s w Hw Hl Hf.
  { exists s, w. by split_and!. }
  cbn [run]. rewrite bind_app.
  destruct (step_run e s w) as (s1 & w1 & -> & Hw1 & Hl1 & Hf1). cbv beta iota.
  apply IH.
  - intros k. by rewrite Hw1.
  - intros ws u [Hold|[a Ha]]%Hl1; [by apply (Hl ws)|]. exists a. by rewrite <- Hw.
  - by apply Hf1.
Qed.

Lemma run_app events1 events2 s w :
  run (events1 ++ events2) s w
  = match run events1 s w with
    | (Ok s', w') => run events2 s' w'
    | (Throw e, w') => (Throw e, w')
    end.
Proof.
  revert s w. induction events1 as [|e events1 IH]; intros s w; [done|].
  cbn [app run]. rewrite !bind_app. destruct (step e s w) as [[s1|err] w1]; [|done].
  apply IH.
Qed.

Lemma initial_inv w :
  (∀ ws u, listens initial ws u → ∃ a, view w (AccountModel.key u) = Some (VAccount a))
  ∧ fresh_objects initial.
Proof.
  split.
  - intros ws u (k & Hk & _). cbn in Hk. by rewrite lookup_empty in Hk.
  - intros ws k p Hk. cbn in Hk. by rewrite lookup_empty in Hk.
Qed.

(** X22. Whatever sockets connect, close, send and are sent, a socket
    only ever listens to a user that has an account: a subscription,
    legacy or by type, is entered only after the account was found. *)
Theorem subscriptions_need_account (events : list Event) (w : World)
    (ws : nat) (u : string) :
  listens (notifier events w) ws u →
  ∃ a, view w (AccountModel.key u) = Some (VAccount a).
Proof.
  unfold notifier, outcome.
  destruct (initial_inv w) as [Hl Hf].
  destruct (run_inv events initial w w (λ _, eq_refl) Hl Hf) as (s' & w' & -> & _ & Hl' & _).
  cbn [fst]. apply Hl'.
Qed.

Lemma subscriptions_need_account_witness :
  ∃ a, view world_alice_bob (AccountModel.key "alice") = Some (VAccount a).
Proof.
  apply (subscriptions_need_account [Connects 1; Says 1 (Some alice_subscribes)]
           world_alice_bob 1%nat "alice").
  eexists. split; [vm_compute; reflexivity|].
  right. eexists. split; [left|reflexivity].
Defined.

(** X23. An unsubscribe message that names a subscription type removes
    nothing: the subscription object it builds is a new object, which the
    socket's set does not hold, so after the message every socket has the
    subscriptions it had (and goes on receiving the updates). *)
Theorem typed_unsubscribe_removes_nothing (events : list Event) (w : World)
    (ws : nat) (request : Request) :
  r_type request = "unsubscribe" →
  api.given (r_subscriptionType request) ≠ None →
  ∀ ws', subscribed (notifier (events ++ [Says ws (Some request)]) w) ws'
         = subscribed (notifier events w) ws'.
Proof.
  intros Hty Hgiven ws'. unfold notifier, outcome. rewrite run_app.
  destruct (initial_inv w) as [Hl Hf].
  destruct (run_inv events initial w w (λ _, eq_refl) Hl Hf) as (s' & w' & -> & _ & _ & Hf').
  cbn [fst run step]. rewrite bind_app.
  destruct (onMessage_run ws (Some request) s' w')
    as (s2 & w2 & -> & _ & _ & _ & _ & Hsame).
  cbv beta iota. rewrite ret_app. cbn [fst]. by apply (Hsame request).
Qed.

Lemma typed_unsubscribe_removes_nothing_witness :
  subscribed (notifier ([Connects 1; Says 1 (Some alice_subscribes)]
                          ++ [Says 1 (Some alice_unsubscribes)]) world_alice_bob) 1%nat
  = subscribed (notifier [Connects 1; Says 1 (Some alice_subscribes)] world_alice_bob) 1%nat.
Proof.
  apply (typed_unsubscribe_removes_nothing [Connects 1; Says 1 (Some alice_subscribes)]
           world_alice_bob 1%nat alice_unsubscribes).
  - reflexivity.
  - discriminate.
Defined.

End notifier.

(** * The balance sheet of a user *)

Lemma entryAt_layBalance result r b c :
  entryAt (models.layBalance result r) b c
  = if decide (bal_blockchain r = b ∧ bal_currency r = c)
    then Some (bal_amount r, bal_frozenAmount r)
    else entryAt result b c.
Proof.
  unfold entryAt, models.layBalance.
  destruct (decide (bal_blockchain r = b)) as [<-|Hb].
  - rewrite lookup_insert_eq. cbn [mbind option_bind].
    destruct (decide (bal_currency r = c)) as [<-|Hc].
    + rewrite lookup_insert_eq. by rewrite decide_True.
    + rewrite lookup_insert_ne by done. rewrite decide_False by (by intros [_ ?]).
      by destruct (result !! bal_blockchain r).
  - rewrite lookup_insert_ne by done. by rewrite decide_False by (by intros [? _]).
Qed.

Lemma entryAt_zeroBalances b c x :
  entryAt models.zeroBalances b c = Some x ↔ x = (0, 0) ∧ configured b c.
Proof.
  unfold entryAt, models.zeroBalances, configured. rewrite lookup_fmap.
  destruct (networks !! b) as [config|]; cbn [fmap option_fmap option_map mbind option_bind].
  - rewrite lookup_union_Some_raw, lookup_fmap, fmap_Some, fmap_None.
    setoid_rewrite lookup_singleton_Some. split.
    + intros [(y & Hy & ->)|[Hn [<- <-]]].
      * split; [done|]. exists config. split; [done|]. right. by exists y.
      * split; [done|]. exists config. split; [done|]. by left.
    + intros [-> (config' & [= <-] & [->|[y Hy]])].
      * destruct (erc20Tokens config !! nativeCurrency config) eqn:E.
        -- left. by eexists.
        -- by right.
      * left. by exists y.
  - split; [done|]. by intros [_ (config & [=] & _)].
Qed.

Lemma entryAt_foldl l z b c x :
  entryAt (foldl models.layBalance z l) b c = Some x →
  entryAt z b c = Some x
  ∨ ∃ r, r ∈ l ∧ bal_blockchain r = b ∧ bal_currency r = c
         ∧ x = (bal_amount r, bal_frozenAmount r).
Proof.
  induction l as [|r l IH] using rev_ind; [by left|].
  rewrite foldl_app. cbn [foldl]. rewrite entryAt_layBalance.
  destruct (decide _) as [[Hb Hc]|_].
  - intros [= <-]. right. exists r. split; [|done].
    apply elem_of_app. right. by apply list_elem_of_singleton.
  - intros [H|(r' & Hr' & H)]%IH; [by left|]. right. exists r'. split; [|done].
    apply elem_of_app. by left.
Qed.

Lemma entryAt_foldl_mono l z b c :
  is_Some (entryAt z b c) → is_Some (entryAt (foldl models.layBalance z l) b c).
Proof.
  induction l as [|r l IH] using rev_ind; [done|]. intros Hz.
  rewrite foldl_app. cbn [foldl]. rewrite entryAt_layBalance.
  destruct (decide _); [done|]. by apply IH.
Qed.

Lemma entryAt_foldl_stored l z r :
  r ∈ l →
  ∃ r', r' ∈ l ∧ bal_blockchain r' = bal_blockchain r ∧ bal_currency r' = bal_currency r
        ∧ entryAt (foldl models.layBalance z l) (bal_blockchain r) (bal_currency r)
          = Some (bal_amount r', bal_frozenAmount r').
Proof.
  induction l as [|r0 l IH] using rev_ind; [by intros ?%elem_of_nil|].
  intros Hr. rewrite foldl_app. cbn [foldl]. rewrite entryAt_layBalance.
  destruct (decide _) as [[Hb Hc]|Hne].
  - exists r0. split; [|done]. apply elem_of_app. right. by apply list_elem_of_singleton.
  - apply elem_of_app in Hr as [Hr|Hr%list_elem_of_singleton]; [|subst; by destruct Hne].
    destruct (IH Hr) as (r' & Hr' & H). exists r'. split; [|done].
    apply elem_of_app. by left.
Qed.

Lemma getAllBalances_eq username w :
  models.BalanceModel_getAllBalances username w
  = (Ok (foldl models.layBalance models.zeroBalances
           (models.balancesOf
              (merge_sort Database.keyLe
                 (filter (λ kv, String.prefix ("balance:" +:+ username +:+ ":") kv.1 = true)
                    (map_to_list (disk w)))))), w).
Proof. reflexivity. Qed.

Lemma elem_of_balancesOf username w r :
  r ∈ models.balancesOf
        (merge_sort Database.keyLe
           (filter (λ kv, String.prefix ("balance:" +:+ username +:+ ":") kv.1 = true)
              (map_to_list (disk w))))
  ↔ balanceRecord w username r.
Proof.
  unfold models.balancesOf, balanceRecord. rewrite list_elem_of_omap. split.
  - intros ([k v] & Hin & Hv). rewrite merge_sort_Permutation in Hin.
    apply list_elem_of_filter in Hin as [Hp Hin%elem_of_map_to_list].
    cbn in Hv, Hp. destruct v; try discriminate. injection Hv as ->. by exists k.
  - intros (k & Hp & Hk). exists (k, VBalance r). split; [|done].
    rewrite merge_sort_Permutation. apply list_elem_of_filter. split; [done|].
    by apply elem_of_map_to_list.
Qed.

